(** * SECS-Sim: the scenario execution engine of [src/App.tsx]

    A shallow embedding of the host emulator's engine: parameter validation
    ([validateParameter], [handleParamChange]), body resolution
    ([resolveBody]), the run loop ([runScenario]), the transcript
    ([addLog], [clearLogs]) and catalog import ([handleImportScenarios]),
    together with the parts of the JavaScript runtime they rely on
    ([Number], [JSON.stringify], [JSON.parse], [String.prototype.replace]).

    Conventions of the embedding.
    - A JavaScript string is a [string]: a sequence of code units in the
      range 0..255.
    - A JavaScript number is a [number]: NaN, the two infinities, or an exact
      decimal [m * 10^e].  Rounding to binary64 is not part of the model, and
      the two zeros are identified (they compare and print alike).
    - A plain object is the list of its entries in enumeration order
      ([js_obj]), built with [obj_set] exactly as property creation orders
      them.
    - Time is a clock in milliseconds advanced by timers only; identifiers
      drawn by [generateId] come from a supply indexed by the draw count. *)

From Stdlib Require Import ZArith List String Ascii Bool Lia.
From Stdlib Require Import DecimalString DecimalN DecimalPos.
Import ListNotations.
Local Open Scope string_scope.
Local Open Scope Z_scope.

(** ** Characters and digit strings *)

Definition code (c : ascii) : N := N_of_ascii c.

Definition is_digit (c : ascii) : bool :=
  ((48 <=? code c) && (code c <=? 57))%N.

Definition is_hex_digit (c : ascii) : bool :=
  (is_digit c
   || ((65 <=? code c) && (code c <=? 70))
   || ((97 <=? code c) && (code c <=? 102)))%N.

Definition hex_val (c : ascii) : N :=
  (if is_digit c then code c - 48
   else if 97 <=? code c then code c - 87
   else code c - 55)%N.

(** The longest prefix of decimal digits, and what follows it. *)
Fixpoint read_digits (s : string) : string * string :=
  match s with
  | String c s' =>
      if is_digit c
      then let (ds, r) := read_digits s' in (String c ds, r)
      else ("", s)
  | "" => ("", "")
  end.

(** The value of a string of decimal digits. *)
Definition digits_value (ds : string) : N :=
  match NilEmpty.uint_of_string ds with
  | Some u => N.of_uint u
  | None => 0%N
  end.

(** The decimal digits of a natural number, without leading zeros. *)
Definition N_digits (n : N) : string := NilZero.string_of_uint (N.to_uint n).

(** The value of a string of digits in base 2, 8 or 16. *)
Fixpoint radix_value (radix acc : N) (s : string) : N :=
  match s with
  | String c s' => radix_value radix (acc * radix + hex_val c)%N s'
  | "" => acc
  end.

Fixpoint string_forallb (p : ascii -> bool) (s : string) : bool :=
  match s with
  | String c s' => p c && string_forallb p s'
  | "" => true
  end.

Fixpoint zeros (n : nat) : string :=
  match n with
  | O => ""
  | S n' => String "0" (zeros n')
  end.

Definition is_empty (s : string) : bool :=
  match s with "" => true | _ => false end.

(** ** Numbers *)

Inductive number : Type :=
  | NaN
  | PosInf
  | NegInf
  | Fin (m e : Z).   (* the value m * 10^e *)

(** Canonical form of [m * 10^e]: an integer has exponent 0, any other value
    has a mantissa that is not a multiple of ten. *)
Fixpoint strip_tens (fuel : nat) (m e : Z) : Z * Z :=
  match fuel with
  | O => (m, e)
  | S f =>
      if (e <? 0) && (m mod 10 =? 0)
      then strip_tens f (m / 10) (e + 1)
      else (m, e)
  end.

Definition mkFin (m e : Z) : number :=
  if m =? 0 then Fin 0 0
  else if 0 <=? e then Fin (m * 10 ^ e) 0
  else let (m', e') := strip_tens (Z.to_nat (- e)) m e in Fin m' e'.

Definition num_isNaN (a : number) : bool :=
  match a with NaN => true | _ => false end.

(** [a < b] and [a <= b] on numbers; every comparison with NaN is false. *)
Definition num_lt (a b : number) : bool :=
  match a, b with
  | NaN, _ | _, NaN => false
  | _, NegInf => false
  | NegInf, _ => true
  | PosInf, _ => false
  | _, PosInf => true
  | Fin m1 e1, Fin m2 e2 =>
      let e := Z.min e1 e2 in
      m1 * 10 ^ (e1 - e) <? m2 * 10 ^ (e2 - e)
  end.

Definition num_le (a b : number) : bool :=
  match a, b with
  | NaN, _ | _, NaN => false
  | NegInf, _ => true
  | _, NegInf => false
  | _, PosInf => true
  | PosInf, _ => false
  | Fin m1 e1, Fin m2 e2 =>
      let e := Z.min e1 e2 in
      m1 * 10 ^ (e1 - e) <=? m2 * 10 ^ (e2 - e)
  end.

Definition num_gt (a b : number) : bool := num_lt b a.

(** *** Number::toString *)

Fixpoint strip_zeros_end (s : string) : string :=
  match s with
  | String c s' =>
      let t := strip_zeros_end s' in
      if is_empty t && Ascii.eqb c "0" then "" else String c t
  | "" => ""
  end.

Definition Z_digits (z : Z) : string :=
  (if z <? 0 then "-" else "") ++ N_digits (Z.abs_N z).

(** The digits [s] (k of them, no trailing zero) and the position [n] of the
    decimal point of a positive value [0.s * 10^n], rendered as the runtime
    does. *)
Definition render_decimal (s : string) (n : Z) : string :=
  let k := Z.of_nat (String.length s) in
  if (k <=? n) && (n <=? 21) then s ++ zeros (Z.to_nat (n - k))
  else if (0 <? n) && (n <=? 21) then
    substring 0 (Z.to_nat n) s ++ "." ++ substring (Z.to_nat n) (Z.to_nat (k - n)) s
  else if (-6 <? n) && (n <=? 0) then "0." ++ zeros (Z.to_nat (- n)) ++ s
  else
    let ex := n - 1 in
    let exs := (if ex <? 0 then "-" else "+") ++ N_digits (Z.abs_N ex) in
    if k =? 1 then s ++ "e" ++ exs
    else substring 0 1 s ++ "." ++ substring 1 (Z.to_nat (k - 1)) s ++ "e" ++ exs.

Definition numToString (a : number) : string :=
  match a with
  | NaN => "NaN"
  | PosInf => "Infinity"
  | NegInf => "-Infinity"
  | Fin m e =>
      if m =? 0 then "0"
      else if (e =? 0) && (Z.abs m <? 10 ^ 21) then Z_digits m
      else
        let ds := N_digits (Z.abs_N m) in
        (if m <? 0 then "-" else "") ++
        render_decimal (strip_zeros_end ds) (Z.of_nat (String.length ds) + e)
  end.

(** *** StringToNumber, the conversion [Number(value)] applies to a string *)

Definition is_StrWhiteSpaceChar (c : ascii) : bool :=
  let n := code c in
  (((9 <=? n) && (n <=? 13)) || (n =? 32) || (n =? 160))%N.

Fixpoint trim_start (s : string) : string :=
  match s with
  | String c s' => if is_StrWhiteSpaceChar c then trim_start s' else s
  | "" => ""
  end.

Fixpoint trim_end (s : string) : string :=
  match s with
  | String c s' =>
      let t := trim_end s' in
      if is_empty t && is_StrWhiteSpaceChar c then "" else String c t
  | "" => ""
  end.

Definition trim (s : string) : string := trim_end (trim_start s).

(** An exponent part [e|E] [+|-]? digits+ when one is present; otherwise
    exponent 0 and the text untouched. *)
Definition read_exponent (s : string) : Z * string :=
  match s with
  | String c r =>
      if Ascii.eqb c "e" || Ascii.eqb c "E" then
        let '(neg, r1) :=
          match r with
          | String sg r' =>
              if Ascii.eqb sg "-" then (true, r')
              else if Ascii.eqb sg "+" then (false, r')
              else (false, r)
          | "" => (false, r)
          end in
        let (ds, r2) := read_digits r1 in
        if is_empty ds then (0, s)
        else ((if neg : bool then - Z.of_N (digits_value ds)
               else Z.of_N (digits_value ds)), r2)
      else (0, s)
  | "" => (0, s)
  end.

(** The value of integer digits [ip], fraction digits [fp] and exponent. *)
Definition decimal_value (neg : bool) (ip fp : string) (ex : Z) : number :=
  let m := Z.of_N (digits_value (ip ++ fp)) in
  mkFin (if neg then - m else m) (ex - Z.of_nat (String.length fp)).

(** StrUnsignedDecimalLiteral, which must span the whole text. *)
Definition StrUnsignedDecimalLiteral (neg : bool) (s : string) : number :=
  if String.eqb s "Infinity" then (if neg then NegInf else PosInf)
  else
    let (ip, r1) := read_digits s in
    let '(fp, r2) :=
      match r1 with
      | String "." r => read_digits r
      | _ => ("", r1)
      end in
    if is_empty ip && is_empty fp then NaN
    else
      let (ex, r3) := read_exponent r2 in
      if is_empty r3 then decimal_value neg ip fp ex else NaN.

Definition NonDecimalIntegerLiteral (radix : N) (ds : string) : number :=
  if negb (is_empty ds)
     && string_forallb (fun c => is_hex_digit c && (hex_val c <? radix)%N) ds
  then Fin (Z.of_N (radix_value radix 0 ds)) 0
  else NaN.

(** StringToNumber.  The value is kept as the exact decimal that the text
    denotes; the runtime rounds it to the nearest double, which is the same
    number for the integers up to 2^53 in absolute value. *)
Definition StringToNumber (s : string) : number :=
  match trim s with
  | "" => Fin 0 0
  | String "0" (String p ds) =>
      if Ascii.eqb p "x" || Ascii.eqb p "X" then NonDecimalIntegerLiteral 16 ds
      else if Ascii.eqb p "o" || Ascii.eqb p "O" then NonDecimalIntegerLiteral 8 ds
      else if Ascii.eqb p "b" || Ascii.eqb p "B" then NonDecimalIntegerLiteral 2 ds
      else StrUnsignedDecimalLiteral false (trim s)
  | String "+" r => StrUnsignedDecimalLiteral false r
  | String "-" r => StrUnsignedDecimalLiteral true r
  | t => StrUnsignedDecimalLiteral false t
  end.

Definition Number (value : string) : number := StringToNumber value.

(** ** Plain objects

    The entries of an object in enumeration order: array-index keys in
    ascending numeric order first, then the other keys in creation order. *)

Definition js_obj (A : Type) : Type := list (string * A).

(** A canonical numeric string below 2^32 - 1. *)
Definition array_index (k : string) : option N :=
  match k with
  | "" => None
  | String c r =>
      if string_forallb is_digit k
         && (is_empty r || negb (Ascii.eqb c "0"))
         && (digits_value k <=? 4294967294)%N
      then Some (digits_value k)
      else None
  end.

Section Objects.
Context {A : Type}.

Fixpoint obj_get (k : string) (o : js_obj A) : option A :=
  match o with
  | [] => None
  | (k', v) :: o' => if String.eqb k k' then Some v else obj_get k o'
  end.

Definition obj_has (k : string) (o : js_obj A) : bool :=
  match obj_get k o with Some _ => true | None => false end.

Fixpoint obj_update (k : string) (v : A) (o : js_obj A) : js_obj A :=
  match o with
  | [] => []
  | (k', v') :: o' =>
      if String.eqb k k' then (k', v) :: o' else (k', v') :: obj_update k v o'
  end.

Fixpoint obj_insert_index (i : N) (k : string) (v : A) (o : js_obj A)
  : js_obj A :=
  match o with
  | [] => [(k, v)]
  | (k', v') :: o' =>
      match array_index k' with
      | Some j =>
          if (j <? i)%N then (k', v') :: obj_insert_index i k v o'
          else (k, v) :: o
      | None => (k, v) :: o
      end
  end.

(** [o[k] = v]: an existing property keeps its place, a new one is created
    where the enumeration order puts it. *)
Definition obj_set (k : string) (v : A) (o : js_obj A) : js_obj A :=
  if obj_has k o then obj_update k v o
  else match array_index k with
       | Some i => obj_insert_index i k v o
       | None => (o ++ [(k, v)])%list
       end.

(** [delete o[k]] *)
Definition obj_delete (k : string) (o : js_obj A) : js_obj A :=
  filter (fun kv => negb (String.eqb k (fst kv))) o.

(** The object made by creating the given properties one after the other. *)
Definition from_entries (l : list (string * A)) : js_obj A :=
  fold_left (fun o kv => obj_set (fst kv) (snd kv) o) l [].

(** A list of entries that is the enumeration of an object. *)
Definition is_entries (l : list (string * A)) : Prop := from_entries l = l.
End Objects.

(** ** JSON values, [JSON.stringify] and [JSON.parse] *)

#[local] Set Warnings "-register-all".
Inductive json : Type :=
  | JNull
  | JBool (b : bool)
  | JNum (n : number)
  | JStr (s : string)
  | JArr (l : list json)
  | JObj (o : list (string * json)).

Definition dquote : ascii := "034"%char.
Definition backslash : ascii := "092"%char.

Definition hex_char (n : N) : ascii :=
  (if n <? 10 then ascii_of_N (48 + n) else ascii_of_N (87 + n))%N.

(** The escape of one code unit inside a quoted string. *)
Definition escape_char (c : ascii) : string :=
  let n := code c in
  if Ascii.eqb c dquote then String backslash (String dquote "")
  else if Ascii.eqb c backslash then String backslash (String backslash "")
  else if (n =? 8)%N then "\b"
  else if (n =? 9)%N then "\t"
  else if (n =? 10)%N then "\n"
  else if (n =? 12)%N then "\f"
  else if (n =? 13)%N then "\r"
  else if (n <? 32)%N then
    "\u00" ++ String (hex_char (n / 16)) (String (hex_char (n mod 16)) "")
  else String c "".

Fixpoint escape_string (s : string) : string :=
  match s with
  | String c s' => escape_char c ++ escape_string s'
  | "" => ""
  end.

Definition QuoteJSONString (s : string) : string :=
  String dquote (escape_string s ++ String dquote "").

Fixpoint JSON_stringify (j : json) : string :=
  match j with
  | JNull => "null"
  | JBool true => "true"
  | JBool false => "false"
  | JNum (Fin m e) => numToString (Fin m e)
  | JNum _ => "null"
  | JStr s => QuoteJSONString s
  | JArr l => "[" ++ String.concat "," (map JSON_stringify l) ++ "]"
  | JObj o =>
      "{" ++ String.concat ","
               (map (fun kv => QuoteJSONString (fst kv) ++ ":" ++ JSON_stringify (snd kv)) o)
          ++ "}"
  end.

Definition is_json_ws (c : ascii) : bool :=
  let n := code c in ((n =? 9) || (n =? 10) || (n =? 13) || (n =? 32))%N.

Fixpoint skip_ws (s : string) : string :=
  match s with
  | String c s' => if is_json_ws c then skip_ws s' else s
  | "" => ""
  end.

(** The character a single-letter escape stands for. *)
Definition unescape (e : ascii) : option ascii :=
  if Ascii.eqb e dquote then Some dquote
  else if Ascii.eqb e backslash then Some backslash
  else if Ascii.eqb e "/" then Some "/"%char
  else if Ascii.eqb e "b" then Some "008"%char
  else if Ascii.eqb e "f" then Some "012"%char
  else if Ascii.eqb e "n" then Some "010"%char
  else if Ascii.eqb e "r" then Some "013"%char
  else if Ascii.eqb e "t" then Some "009"%char
  else None.

(** The code unit of a [\uXXXX] escape; units above 255 are kept by their low
    byte, so that such a text is accepted as the runtime accepts it. *)
Definition unicode_escape (h1 h2 h3 h4 : ascii) : option ascii :=
  if is_hex_digit h1 && is_hex_digit h2 && is_hex_digit h3 && is_hex_digit h4
  then Some (ascii_of_N ((hex_val h3 * 16 + hex_val h4) mod 256))
  else None.

Definition cons_char (c : ascii) (r : option (string * string))
  : option (string * string) :=
  match r with
  | Some (s, rest) => Some (String c s, rest)
  | None => None
  end.

(** The characters of a string literal after its opening quote, up to and
    including the closing quote. *)
Fixpoint parse_string_chars (s : string) : option (string * string) :=
  match s with
  | "" => None
  | String c r =>
      if Ascii.eqb c dquote then Some ("", r)
      else if Ascii.eqb c backslash then
        match r with
        | String e r' =>
            match unescape e with
            | Some x => cons_char x (parse_string_chars r')
            | None =>
                if Ascii.eqb e "u" then
                  match r' with
                  | String h1 (String h2 (String h3 (String h4 r''))) =>
                      match unicode_escape h1 h2 h3 h4 with
                      | Some x => cons_char x (parse_string_chars r'')
                      | None => None
                      end
                  | _ => None
                  end
                else None
            end
        | "" => None
        end
      else if (code c <? 32)%N then None
      else cons_char c (parse_string_chars r)
  end.

(** A number token: [-]? (0 | [1-9] digits) (. digits+)? exponent? *)
Definition parse_number (s : string) : option (number * string) :=
  let '(neg, r0) :=
    match s with
    | String c r => if Ascii.eqb c "-" then (true, r) else (false, s)
    | "" => (false, s)
    end in
  let '(ip, r1) :=
    match r0 with
    | String c r => if Ascii.eqb c "0" then ("0", r) else read_digits r0
    | "" => ("", r0)
    end in
  if is_empty ip then None
  else
    let '(fp, r2) :=
      match r1 with
      | String c r =>
          if Ascii.eqb c "." then
            let (f, r') := read_digits r in
            if is_empty f then ("", r1) else (f, r')
          else ("", r1)
      | "" => ("", r1)
      end in
    let (ex, r3) := read_exponent r2 in
    Some (decimal_value neg ip fp ex, r3).

(** What is left of [s] after the literal [lit], if [s] starts with it. *)
Fixpoint strip_prefix (lit s : string) : option string :=
  match lit with
  | "" => Some s
  | String a l =>
      match s with
      | String b r => if Ascii.eqb a b then strip_prefix l r else None
      | "" => None
      end
  end.

Definition expect (lit : string) (v : json) (s : string)
  : option (json * string) :=
  match strip_prefix lit s with
  | Some r => Some (v, r)
  | None => None
  end.

(** The first character after white space is [c]. *)
Definition next_is (c : ascii) (s : string) : option string :=
  match skip_ws s with
  | String d r => if Ascii.eqb d c then Some r else None
  | "" => None
  end.

(** Recursive descent over the text.  [fuel] bounds the nesting of calls;
    [JSON_parse] below supplies more than the text can use. *)
Fixpoint parse_value (fuel : nat) (s : string) : option (json * string) :=
  match fuel with
  | O => None
  | S f =>
      match skip_ws s with
      | "" => None
      | String c r =>
          if Ascii.eqb c "{" then
            match next_is "}" r with
            | Some r' => Some (JObj [], r')
            | None =>
                match parse_members f r with
                | Some (kvs, r') => Some (JObj (from_entries kvs), r')
                | None => None
                end
            end
          else if Ascii.eqb c "[" then
            match next_is "]" r with
            | Some r' => Some (JArr [], r')
            | None =>
                match parse_elements f r with
                | Some (vs, r') => Some (JArr vs, r')
                | None => None
                end
            end
          else if Ascii.eqb c dquote then
            match parse_string_chars r with
            | Some (str, r') => Some (JStr str, r')
            | None => None
            end
          else if Ascii.eqb c "t" then expect "true" (JBool true) (String c r)
          else if Ascii.eqb c "f" then expect "false" (JBool false) (String c r)
          else if Ascii.eqb c "n" then expect "null" JNull (String c r)
          else
            match parse_number (String c r) with
            | Some (n, r') => Some (JNum n, r')
            | None => None
            end
      end
  end

(** value (, value)* ] *)
with parse_elements (fuel : nat) (s : string) : option (list json * string) :=
  match fuel with
  | O => None
  | S f =>
      match parse_value f s with
      | Some (v, r) =>
          match next_is "," r with
          | Some r' =>
              match parse_elements f r' with
              | Some (vs, r'') => Some (v :: vs, r'')
              | None => None
              end
          | None =>
              match next_is "]" r with
              | Some r' => Some ([v], r')
              | None => None
              end
          end
      | None => None
      end
  end

(** "key" : value (, "key" : value)* } *)
with parse_members (fuel : nat) (s : string)
  : option (list (string * json) * string) :=
  match fuel with
  | O => None
  | S f =>
      match next_is dquote s with
      | Some r =>
          match parse_string_chars r with
          | Some (k, r1) =>
              match next_is ":" r1 with
              | Some r2 =>
                  match parse_value f r2 with
                  | Some (v, r3) =>
                      match next_is "," r3 with
                      | Some r4 =>
                          match parse_members f r4 with
                          | Some (kvs, r5) => Some ((k, v) :: kvs, r5)
                          | None => None
                          end
                      | None =>
                          match next_is "}" r3 with
                          | Some r4 => Some ([(k, v)], r4)
                          | None => None
                          end
                      end
                  | None => None
                  end
              | None => None
              end
          | None => None
          end
      | None => None
      end
  end.

(** [JSON.parse(text)]: [None] stands for the SyntaxError it throws. *)
Definition JSON_parse (text : string) : option json :=
  match parse_value (S (String.length text)) text with
  | Some (v, r) => if is_empty (skip_ws r) then Some v else None
  | None => None
  end.

(** ** [str.replace(new RegExp(`{{${key}}}`, 'g'), String(val))] *)

(** The source of the pattern built for a parameter key. *)
Definition placeholder (key : string) : string := "{{" ++ key ++ "}}".

Definition is_word_char (c : ascii) : bool :=
  let n := code c in
  (is_digit c || ((65 <=? n) && (n <=? 90)) || ((97 <=? n) && (n <=? 122))
   || (n =? 95))%N.

(** Keys whose pattern source denotes its own text: word characters, not all
    of them digits (a key of digits turns the inner braces into a
    quantifier).  For any other key the pattern is interpreted by the regular
    expression engine, which this embedding does not model. *)
Definition literal_key (key : string) : bool :=
  string_forallb is_word_char key
  && (is_empty key || negb (string_forallb is_digit key)).

(** GetSubstitution for a pattern without capture groups: [$$], [$&], [$`]
    and [$'] are expanded, any other text stands for itself. *)
Fixpoint expand_replacement (matched before after tpl : string) : string :=
  match tpl with
  | "" => ""
  | String c t =>
      if Ascii.eqb c "$" then
        match t with
        | String d r =>
            if Ascii.eqb d "$" then String "$" (expand_replacement matched before after r)
            else if Ascii.eqb d "&" then matched ++ expand_replacement matched before after r
            else if Ascii.eqb d "`" then before ++ expand_replacement matched before after r
            else if Ascii.eqb d "'" then after ++ expand_replacement matched before after r
            else String "$" (expand_replacement matched before after t)
        | "" => "$"
        end
      else String c (expand_replacement matched before after t)
  end.

Fixpoint string_drop (n : nat) (s : string) : string :=
  match n, s with
  | S n', String _ s' => string_drop n' s'
  | _, _ => s
  end.

(** Every match of the literal [pat], leftmost first and without overlap,
    replaced by the expansion of [tpl].  [before] is the text already passed
    and [skip] the number of characters of the current match still to pass. *)
Fixpoint replace_go (pat tpl before s : string) (skip : nat) : string :=
  match s with
  | "" => ""
  | String c s' =>
      match skip with
      | S k => replace_go pat tpl (before ++ String c "") s' k
      | O =>
          if String.prefix pat s then
            expand_replacement pat before (string_drop (String.length pat) s) tpl
            ++ replace_go pat tpl (before ++ String c "") s' (String.length pat - 1)
          else String c (replace_go pat tpl (before ++ String c "") s' 0)
      end
  end.

Definition replace_placeholder (key val str : string) : string :=
  replace_go (placeholder key) val "" str 0.

(** ** The data model of the simulator (the type declarations) *)

Inductive MessageDirection : Type := HOST_TO_EQP | EQP_TO_HOST | INFO | ERROR.

Inductive LogType : Type := success | info | error | warning.

Record SecsMessage : Type := {
  stream : Z;
  function : Z;
  waitBit : bool;
  msg_name : string;
  body : json
}.

Record LogEntry : Type := {
  log_id : string;
  log_timestamp : Z;
  direction : MessageDirection;
  summary : string;
  detail : string;
  log_type : LogType
}.

Inductive StandardType : Type := E9 | E142 | GENERIC.

Record TestStep : Type := {
  step_name : string;
  step_description : string;
  messageToSend : SecsMessage;
  expectedResponseSxFy : option string;
  simulateDelay : option Z;
  timeout : option Z
}.

Inductive ParameterType : Type := STRING | NUMBER | ENUM.

Record ScenarioParameter : Type := {
  key : string;
  label : string;
  defaultValue : string;
  param_description : option string;
  param_type : option ParameterType;
  options : option (list string);
  min : option number;
  max : option number
}.

Record TestScenario : Type := {
  id : string;
  title : string;
  standard : StandardType;
  description : string;
  parameters : option (list ScenarioParameter);
  steps : list TestStep
}.

Record TestResult : Type := {
  scenarioId : string;
  timestamp : Z;
  passed : bool;
  notes : string
}.

(** The classification of a step of a run (the outcomes of the
    specification); the loop of [runScenario] has one branch for each. *)
Inductive StepOutcome : Type :=
  | Acknowledged (payload : json)
  | NoReplyRequired
  | TimedOut
  | MalformedTemplate
  | NoOracleEntry.

(** ** The reply table [MOCK_RESPONSES] *)

Definition JInt (z : Z) : json := JNum (Fin z 0).

Definition MOCK_RESPONSES : js_obj json :=
  [ ("S1F1", JObj [("MDLN", JStr "GEMINI-SIM-TOOL"); ("SOFTREV", JStr "1.0.0")]);
    ("S1F13", JObj [("COMMACK", JInt 0); ("MDLN", JArr [JStr "GEMINI-SIM-TOOL"]);
                    ("SOFTREV", JArr [JStr "1.0.0"])]);
    ("S1F17", JObj [("ONLACK", JInt 0)]);
    ("S2F41", JObj [("HCACK", JInt 0); ("CPNAME", JArr []); ("CPACK", JArr [])]);
    ("S12F3", JObj [("SDACK", JInt 0)]);
    ("S12F1", JObj [("MID", JStr "WAFER_01"); ("IDTYP", JStr "WAFER");
                    ("FNLOC", JInt 0); ("ORLOC", JInt 1); ("RPSEL", JInt 0);
                    ("REFP", JArr [JInt 0; JInt 0]); ("DUTMS", JStr "mm");
                    ("XDIUS", JInt 300); ("YDIUS", JInt 300);
                    ("BINLT", JArr [JStr "01"; JStr "02"; JStr "03"]);
                    ("MLCL", JInt 500)]);
    ("S14F2", JObj [("OBJID", JStr "WaferMap_01"); ("ATTRID", JArr [JStr "BinMap"]);
                    ("ATTRDATA", JArr [JStr "001001001"])]);
    ("S14F4", JObj [("OBJID", JStr "WaferMap_01"); ("ATTRID", JStr "BinMap");
                    ("ERRCODE", JInt 0)]);
    ("S14F6", JObj [("OBJID", JStr "WaferMap_01"); ("OBJTYPE", JStr "SubstrateMap")]);
    ("S14F12", JObj [("OBJID", JStr "WaferMap_01"); ("OBJTYPE", JStr "SubstrateMap");
                     ("ERRCODE", JInt 0);
                     ("ATTRID", JArr [JStr "BinMap"; JStr "Layout"; JStr "DimensionX";
                                      JStr "DimensionY"; JStr "ProcessState"])]);
    ("S14F14", JObj [("OBJID", JStr "WaferMap_01"); ("ATTRID", JArr [JStr "ProcessState"]);
                     ("RAC", JInt 0); ("ERRCODE", JInt 0)]) ].

(** ToBoolean on the values of the model. *)
Definition truthy (j : json) : bool :=
  match j with
  | JNull => false
  | JBool b => b
  | JNum NaN => false
  | JNum (Fin m _) => negb (m =? 0)
  | JNum _ => true
  | JStr s => negb (is_empty s)
  | JArr _ | JObj _ => true
  end.

(** ** The application state and its environment *)

(** The state hooks of [App] ([scenarios] ... [validationErrors]; the active
    tab only selects a view and is left out), the clock, the number of
    identifiers drawn so far, and the durations handed to [setTimeout], in
    call order.  The catalog holds whatever values were stored in it. *)
Record State : Type := {
  scenarios : list json;
  selectedScenario : option TestScenario;
  logs : list LogEntry;
  results : list TestResult;
  runningStep : option nat;
  paramValues : js_obj string;
  validationErrors : js_obj string;
  clock : Z;
  draws : nat;
  timers : list Z
}.

Definition set_scenarios (v : list json) (st : State) : State :=
  {| scenarios := v; selectedScenario := selectedScenario st; logs := logs st;
     results := results st; runningStep := runningStep st;
     paramValues := paramValues st; validationErrors := validationErrors st;
     clock := clock st; draws := draws st; timers := timers st |}.

Definition set_selectedScenario (v : option TestScenario) (st : State) : State :=
  {| scenarios := scenarios st; selectedScenario := v; logs := logs st;
     results := results st; runningStep := runningStep st;
     paramValues := paramValues st; validationErrors := validationErrors st;
     clock := clock st; draws := draws st; timers := timers st |}.

Definition set_logs (v : list LogEntry) (st : State) : State :=
  {| scenarios := scenarios st; selectedScenario := selectedScenario st; logs := v;
     results := results st; runningStep := runningStep st;
     paramValues := paramValues st; validationErrors := validationErrors st;
     clock := clock st; draws := draws st; timers := timers st |}.

Definition set_results (v : list TestResult) (st : State) : State :=
  {| scenarios := scenarios st; selectedScenario := selectedScenario st; logs := logs st;
     results := v; runningStep := runningStep st;
     paramValues := paramValues st; validationErrors := validationErrors st;
     clock := clock st; draws := draws st; timers := timers st |}.

Definition set_runningStep (v : option nat) (st : State) : State :=
  {| scenarios := scenarios st; selectedScenario := selectedScenario st; logs := logs st;
     results := results st; runningStep := v;
     paramValues := paramValues st; validationErrors := validationErrors st;
     clock := clock st; draws := draws st; timers := timers st |}.

Definition set_paramValues (v : js_obj string) (st : State) : State :=
  {| scenarios := scenarios st; selectedScenario := selectedScenario st; logs := logs st;
     results := results st; runningStep := runningStep st;
     paramValues := v; validationErrors := validationErrors st;
     clock := clock st; draws := draws st; timers := timers st |}.

Definition set_validationErrors (v : js_obj string) (st : State) : State :=
  {| scenarios := scenarios st; selectedScenario := selectedScenario st; logs := logs st;
     results := results st; runningStep := runningStep st;
     paramValues := paramValues st; validationErrors := v;
     clock := clock st; draws := draws st; timers := timers st |}.

Definition set_clock (v : Z) (st : State) : State :=
  {| scenarios := scenarios st; selectedScenario := selectedScenario st; logs := logs st;
     results := results st; runningStep := runningStep st;
     paramValues := paramValues st; validationErrors := validationErrors st;
     clock := v; draws := draws st; timers := timers st |}.

Definition set_draws (v : nat) (st : State) : State :=
  {| scenarios := scenarios st; selectedScenario := selectedScenario st; logs := logs st;
     results := results st; runningStep := runningStep st;
     paramValues := paramValues st; validationErrors := validationErrors st;
     clock := clock st; draws := v; timers := timers st |}.

Definition set_timers (v : list Z) (st : State) : State :=
  {| scenarios := scenarios st; selectedScenario := selectedScenario st; logs := logs st;
     results := results st; runningStep := runningStep st;
     paramValues := paramValues st; validationErrors := validationErrors st;
     clock := clock st; draws := draws st; timers := v |}.

(** Computations over the state: the body of an event handler. *)
Definition M (A : Type) : Type := State -> A * State.

Definition ret {A : Type} (a : A) : M A := fun st => (a, st).

Definition bind {A B : Type} (m : M A) (k : A -> M B) : M B :=
  fun st => let (a, st') := m st in k a st'.

Definition modify (f : State -> State) : M unit := fun st => (tt, f st).

Declare Scope engine_scope.
Delimit Scope engine_scope with engine.
Notation "x <- m ;; k" := (bind m (fun x => k))
  (at level 61, m at next level, right associativity) : engine_scope.
Notation "m ;; k" := (bind m (fun _ => k))
  (at level 61, right associativity) : engine_scope.

Definition exec {A : Type} (m : M A) (st : State) : State := snd (m st).

(** The delay a timer really waits: the argument taken as a 32-bit signed
    integer, a negative one counting as 0. *)
Definition to_int32 (z : Z) : Z := (z + 2 ^ 31) mod 2 ^ 32 - 2 ^ 31.

Definition timer_delay (ms : Z) : Z := Z.max 0 (to_int32 ms).

(** [await new Promise(r => setTimeout(r, ms))] *)
Definition sleep (ms : Z) : M unit :=
  modify (fun st =>
    set_timers (timers st ++ [ms])%list (set_clock (clock st + timer_delay ms) st)).

Definition num (z : Z) : string := numToString (Fin z 0).

Definition record_json (o : js_obj string) : json :=
  JObj (map (fun kv => (fst kv, JStr (snd kv))) o).

Definition empty_object : json := JObj [].

Section Engine.

(** What the runtime leaves open: the identifier produced by the n-th call
    of [generateId], and the text [String(e)] of the error [JSON.parse]
    throws on a text it rejects. *)
Variable generateId : nat -> string.
Variable SyntaxError_text : string -> string.

(** *** Validation *)

Definition validateParameter (param : ScenarioParameter) (value : string)
  : option string :=
  if is_empty value && negb (String.eqb value "0") then Some "Value is required"
  else
    match param_type param with
    | Some NUMBER =>
        let n := Number value in
        if num_isNaN n then Some "Must be a number"
        else
          let check_max :=
            match max param with
            | Some hi =>
                if num_gt n hi then Some ("Max value: " ++ numToString hi)
                else None
            | None => None
            end in
          match min param with
          | Some lo =>
              if num_lt n lo then Some ("Min value: " ++ numToString lo)
              else check_max
          | None => check_max
          end
    | _ => None
    end.

Definition handleParamChange (param : ScenarioParameter) (value : string)
  (st : State) : State :=
  let st1 := set_paramValues (obj_set (key param) value (paramValues st)) st in
  match validateParameter param value with
  | Some err =>
      set_validationErrors (obj_set (key param) err (validationErrors st1)) st1
  | None =>
      set_validationErrors (obj_delete (key param) (validationErrors st1)) st1
  end.

(** Selecting a scenario, with the effect that initialises its parameter
    values from the declared defaults. *)
Definition default_paramValues (s : option TestScenario) : js_obj string :=
  match s with
  | Some sc =>
      match parameters sc with
      | Some ps =>
          fold_left (fun acc p => obj_set (key p) (defaultValue p) acc) ps []
      | None => []
      end
  | None => []
  end.

(** [setSelectedScenario(s)] for a selection other than the current one,
    with the effect it triggers.  The effect depends on [selectedScenario]:
    selecting again the scenario that is selected already runs nothing and
    leaves the state as it is. *)
Definition setSelectedScenario (s : option TestScenario) (st : State) : State :=
  set_validationErrors []
    (set_paramValues (default_paramValues s) (set_selectedScenario s st)).

(** *** The transcript *)

Definition addLog (dir : MessageDirection) (text : string) (data : json)
  (ty : LogType) : M unit :=
  modify (fun st =>
    set_draws (S (draws st))
      (set_logs (logs st ++
                 [ {| log_id := generateId (draws st);
                      log_timestamp := clock st;
                      direction := dir;
                      summary := text;
                      detail := JSON_stringify data;
                      log_type := ty |} ])%list st)).

Definition clearLogs (st : State) : State := set_results [] (set_logs [] st).

(** *** Body resolution *)

Inductive completion (A : Type) : Type :=
  | Normal (a : A)
  | Throw (e : string).
Arguments Normal {A} a.
Arguments Throw {A} e.

(** [resolveBody(body)].  The patterns are those of [replace_placeholder]:
    this follows the source for the parameter maps whose keys are
    [literal_key]s, for which building the pattern does not throw and the
    pattern matches the text of the placeholder only. *)
Definition resolveBody (paramValues : js_obj string) (body : json)
  : completion json :=
  if negb (truthy body) then Normal body
  else
    let str :=
      fold_left (fun str kv => replace_placeholder (fst kv) (snd kv) str)
                paramValues (JSON_stringify body) in
    match JSON_parse str with
    | Some v => Normal v
    | None => Throw (SyntaxError_text str)
    end.

(** *** The run loop *)

Inductive control : Type := Continue | Break.

Definition sxfy_of (msg : SecsMessage) : string :=
  "S" ++ num (stream msg) ++ "F" ++ num (function msg).

(** One iteration of the loop over the steps.  The result is the branch
    taken, the value of [allPassed] afterwards and how the loop goes on.
    The expected response is looked up among the own entries of
    [MOCK_RESPONSES]; under a name that every object inherits (toString,
    constructor and the like) the lookup of the source finds the inherited
    member instead, which this embedding leaves out. *)
Definition run_step (paramValues : js_obj string) (step : TestStep)
  (allPassed : bool) : M (StepOutcome * bool * control) :=
  (let msg := messageToSend step in
   match resolveBody paramValues (body msg) with
   | Throw e =>
       addLog ERROR ("Failed to parse message body for " ++ step_name step)
              (JObj [("error", JStr e)]) error ;;
       ret (MalformedTemplate, false, Break)
   | Normal msgBody =>
       let sxfy := sxfy_of msg in
       addLog HOST_TO_EQP
              (sxfy ++ " " ++ msg_name msg ++ " "
               ++ (if waitBit msg then "[W]" else ""))
              msgBody info ;;
       let timeoutMs := match timeout step with Some t => t | None => 10000 end in
       let simulateDelayMs :=
         match simulateDelay step with Some d => d | None => 600 end in
       if waitBit msg && (simulateDelayMs >? timeoutMs) then
         sleep timeoutMs ;;
         addLog ERROR
                ("T3 Timeout: No response received within " ++ num timeoutMs
                 ++ "ms (Simulated Delay: " ++ num simulateDelayMs ++ "ms)")
                empty_object error ;;
         sleep 500 ;;
         ret (TimedOut, false, Continue)
       else
         sleep simulateDelayMs ;;
         r <- match expectedResponseSxFy step with
              | Some expectedResponse =>
                  if negb (is_empty expectedResponse) then
                    match obj_get expectedResponse MOCK_RESPONSES with
                    | Some reply =>
                        if truthy reply then
                          addLog EQP_TO_HOST (expectedResponse ++ " Response")
                                 reply success ;;
                          ret (Acknowledged reply, allPassed)
                        else
                          addLog EQP_TO_HOST (expectedResponse ++ " Ack")
                                 (JObj [("ACK", JInt 0)]) success ;;
                          ret (Acknowledged (JObj [("ACK", JInt 0)]), allPassed)
                    | None =>
                        addLog EQP_TO_HOST (expectedResponse ++ " Ack")
                               (JObj [("ACK", JInt 0)]) success ;;
                        ret (Acknowledged (JObj [("ACK", JInt 0)]), allPassed)
                    end
                  else if waitBit msg then
                    addLog ERROR ("No Mock Response defined for " ++ sxfy)
                           empty_object error ;;
                    ret (NoOracleEntry, false)
                  else ret (NoReplyRequired, allPassed)
              | None =>
                  if waitBit msg then
                    addLog ERROR ("No Mock Response defined for " ++ sxfy)
                           empty_object error ;;
                    ret (NoOracleEntry, false)
                  else ret (NoReplyRequired, allPassed)
              end ;;
         sleep 800 ;;
         ret (fst r, snd r, Continue)
   end)%engine.

(** [for (let i = 0; i < scenario.steps.length; i++)], from index [i] on. *)
Fixpoint run_steps (paramValues : js_obj string) (i : nat)
  (steps : list TestStep) (allPassed : bool) : M (list StepOutcome * bool) :=
  (match steps with
   | [] => ret ([], allPassed)
   | step :: rest =>
       modify (set_runningStep (Some i)) ;;
       r <- run_step paramValues step allPassed ;;
       match r with
       | (outcome, allPassed', Break) => ret ([outcome], allPassed')
       | (outcome, allPassed', Continue) =>
           r' <- run_steps paramValues (S i) rest allPassed' ;;
           ret (outcome :: fst r', snd r')
       end
   end)%engine.

Definition is_nil {A : Type} (l : list A) : bool :=
  match l with [] => true | _ => false end.

(** [setResults(prev => [result, ...prev])] for the verdict of a run. *)
Definition push_result (scenario_title : string) (allPassed : bool) : M unit :=
  modify (fun st =>
    set_results
      ({| scenarioId := scenario_title;
          timestamp := clock st;
          passed := allPassed;
          notes := if allPassed
                   then "All steps completed successfully."
                   else "Scenario failed due to errors or timeouts." |}
       :: results st) st).

(** The end of a run: the verdict goes to the head of the history. *)
Definition save_result (scenario : TestScenario) (allPassed : bool) : M unit :=
  (modify (set_runningStep None) ;;
   push_result (title scenario) allPassed ;;
   addLog INFO
          ("Scenario Complete: " ++ (if allPassed then "PASSED" else "FAILED"))
          empty_object (if allPassed then success else error))%engine.

(** The whole run: the outcomes of the steps it executed, in order. *)
Definition run (scenario : TestScenario) : M (list StepOutcome) :=
  (fun st =>
     match runningStep st with
     | Some _ => ret [] st
     | None =>
         if negb (is_nil (validationErrors st)) then
           (addLog ERROR "Execution Blocked: Fix invalid parameters."
                   (record_json (validationErrors st)) error ;;
            ret []) st
         else
           (modify (set_runningStep (Some O)) ;;
            addLog INFO ("Starting Scenario: " ++ title scenario)
                   empty_object info ;;
            r <- run_steps (paramValues st) 0 (steps scenario) true ;;
            save_result scenario (snd r) ;;
            ret (fst r)) st
     end)%engine.

Definition runScenario (scenario : TestScenario) (st : State) : State :=
  exec (run scenario) st.

(** *** Export and import of the catalog *)

Definition handleExportScenarios (st : State) : State :=
  exec (addLog INFO "Scenarios exported successfully." empty_object success) st.

(** [file] is the text of the chosen file, if one was chosen. *)
Definition handleImportScenarios (file : option string) (st : State) : State :=
  match file with
  | None => st
  | Some text =>
      match JSON_parse text with
      | Some (JArr imported) =>
          let st1 := set_scenarios imported st in
          let st2 :=
            match selectedScenario st1 with
            | Some _ => setSelectedScenario None st1
            | None => st1
            end in
          exec (addLog INFO
                  ("Imported " ++ num (Z.of_nat (List.length imported))
                   ++ " scenarios successfully.")
                  empty_object success) st2
      | Some _ =>
          exec (addLog ERROR "Import failed: Invalid JSON format. Expected an array."
                       empty_object error) st
      | None =>
          exec (addLog ERROR "Import failed: Could not parse JSON."
                       (JObj [("error", JStr (SyntaxError_text text))]) error) st
      end
  end.

End Engine.

Arguments Normal {A} a.
Arguments Throw {A} e.

(** ** The built-in catalog [TEST_SCENARIOS] *)

Definition mkStep (n d : string) (m : SecsMessage) (r : string)
  (delay : option Z) (t : Z) : TestStep :=
  {| step_name := n; step_description := d; messageToSend := m;
     expectedResponseSxFy := Some r; simulateDelay := delay; timeout := Some t |}.

Definition mkMsg (s f : Z) (n : string) (b : json) : SecsMessage :=
  {| stream := s; function := f; waitBit := true; msg_name := n; body := b |}.

Definition mkParam (k l d descr : string) (ty : ParameterType)
  (opts : option (list string)) (lo hi : option number) : ScenarioParameter :=
  {| key := k; label := l; defaultValue := d; param_description := Some descr;
     param_type := Some ty; options := opts; min := lo; max := hi |}.

Definition e9_comm_est : TestScenario :=
  {| id := "e9-comm-est";
     title := "E9: Establish Communications";
     standard := E9;
     description := "Basic handshake to establish connection using S1F13.";
     parameters := None;
     steps :=
       [ mkStep "Are You There?" "Check if equipment is alive."
           (mkMsg 1 1 "Are You There Request" (JObj [])) "S1F2" None 5000;
         mkStep "Establish Comm" "Request to establish communications."
           (mkMsg 1 13 "Establish Comm Request" (JObj [("COMMACK", JInt 0)]))
           "S1F14" None 5000 ] |}.

Definition e9_online_control : TestScenario :=
  {| id := "e9-online-control";
     title := "E9: Online/Remote Control";
     standard := E9;
     description := "Transition equipment to Online Remote mode.";
     parameters := None;
     steps :=
       [ mkStep "Go Online" "Request equipment to go online."
           (mkMsg 1 17 "Request ON-LINE" (JObj [])) "S1F18" None 10000;
         mkStep "Remote Command (START)" "Send remote command to START processing."
           (mkMsg 2 41 "Host Command Send"
              (JObj [("RCMD", JStr "START"); ("CPNAME", JStr "LOT_ID");
                     ("CPVAL", JStr "TEST_LOT_001")]))
           "S2F42" None 10000 ] |}.

Definition e9_timeout : TestScenario :=
  {| id := "e9-timeout";
     title := "E9: Timeout Handling (Negative Test)";
     standard := E9;
     description := "Demonstrates T3 Timeout behavior. The second step is configured to fail (Simulated Delay > Timeout).";
     parameters := None;
     steps :=
       [ mkStep "Normal Ping" "Standard latency (500ms). Timeout is 5s. Should Pass."
           (mkMsg 1 1 "Are You There" (JObj [])) "S1F2" (Some 500) 5000;
         mkStep "Slow Response (Fail)"
           "Equipment takes 8s to respond, but Timeout is set to 2s. Should Fail."
           (mkMsg 1 13 "Establish Comm" (JObj [("COMMACK", JInt 0)]))
           "S1F14" (Some 8000) 2000 ] |}.

Definition e142_map_transfer : TestScenario :=
  {| id := "e142-map-transfer";
     title := "E142: Substrate Map Transfer";
     standard := E142;
     description := "Request a wafer map from the equipment (S12F1).";
     parameters := None;
     steps :=
       [ mkStep "Map Setup Data" "Send setup data for mapping."
           (mkMsg 12 3 "Map Setup Data Send"
              (JObj [("MID", JStr "WAFER_01"); ("IDTYP", JStr "WAFER")]))
           "S12F4" None 10000;
         mkStep "Request Map" "Request the bin map for specific substrate."
           (mkMsg 12 1 "Map Data Request"
              (JObj [("MID", JStr "WAFER_01"); ("IDTYP", JStr "WAFER");
                     ("MAPFT", JInt 1); ("FNLOC", JInt 0)]))
           "S12F2" None 30000 ] |}.

Definition e142_obj_services : TestScenario :=
  {| id := "e142-obj-services";
     title := "E142: Object Services (S14)";
     standard := E142;
     description := "Test Object Services (GetAttr, SetAttr, GetType) with configurable parameters for S14 commands.";
     parameters :=
       Some
         [ mkParam "OBJID" "Object ID" "WaferMap_01" "Target Object Identifier"
             STRING None None None;
           mkParam "ATTRID" "Attribute ID" "BinMap" "Attribute to query/set"
             STRING None None None;
           mkParam "NEWVAL" "Set Value" "100" "Value for SetAttr (S14F3)"
             NUMBER None (Some (Fin 0 0)) (Some (Fin 9999 0)) ];
     steps :=
       [ mkStep "Get Attribute (S14F1)" "Get specified attribute value."
           (mkMsg 14 1 "GetAttr"
              (JObj [("OBJID", JStr "{{OBJID}}"); ("OBJTYPE", JStr "SubstrateMap");
                     ("ATTRID", JArr [JStr "{{ATTRID}}"])]))
           "S14F2" None 10000;
         mkStep "Set Attribute (S14F3)" "Set specified attribute value."
           (mkMsg 14 3 "SetAttr"
              (JObj [("OBJID", JStr "{{OBJID}}"); ("OBJTYPE", JStr "SubstrateMap");
                     ("ATTRID", JStr "{{ATTRID}}"); ("ATTRDATA", JStr "{{NEWVAL}}")]))
           "S14F4" None 10000;
         mkStep "Get Type (S14F5)" "Get type of the object."
           (mkMsg 14 5 "GetType" (JObj [("OBJID", JStr "{{OBJID}}")]))
           "S14F6" None 5000 ] |}.

Definition e142_trace_setup : TestScenario :=
  {| id := "e142-trace-setup";
     title := "E142: Trace Data Setup (S14F11)";
     standard := E142;
     description := "Discover object attributes (S14F11) to configure real-time tracing.";
     parameters :=
       Some
         [ mkParam "OBJID" "Object ID" "WaferMap_01" "Target Object Identifier"
             STRING None None None;
           mkParam "OBJTYPE" "Object Type" "SubstrateMap" "Type of the object"
             ENUM (Some ["SubstrateMap"; "Equipment"; "Port"; "Carrier"]) None None ];
     steps :=
       [ mkStep "Get Attr Names (S14F11)"
           "Retrieve available attributes for the object to setup trace."
           (mkMsg 14 11 "GetAttrNames"
              (JObj [("OBJID", JStr "{{OBJID}}"); ("OBJTYPE", JStr "{{OBJTYPE}}")]))
           "S14F12" None 5000 ] |}.

Definition e142_trace_transmission : TestScenario :=
  {| id := "e142-trace-transmission";
     title := "E142: Trace Data Transmission (S14F13)";
     standard := E142;
     description := "Initiate object attribute trace (S14F13) and verify acknowledgement (S14F14).";
     parameters :=
       Some
         [ mkParam "OBJID" "Object ID" "WaferMap_01" "Target Object Identifier"
             STRING None None None;
           mkParam "ATTRLIST" "Attribute List" "ProcessState"
             "Attribute(s) to trace (e.g. Status)" STRING None None None;
           mkParam "INTERVAL" "Interval (ms)" "1000"
             "Reporting interval in milliseconds"
             NUMBER None (Some (Fin 100 0)) (Some (Fin 60000 0)) ];
     steps :=
       [ mkStep "Establish Trace (S14F13)"
           "Request equipment to start tracing specified attributes."
           (mkMsg 14 13 "Establish Trace Request"
              (JObj [("OBJID", JStr "{{OBJID}}"); ("ATTRID", JArr [JStr "{{ATTRLIST}}"]);
                     ("DSPER", JStr "{{INTERVAL}}")]))
           "S14F14" None 5000 ] |}.

Definition TEST_SCENARIOS : list TestScenario :=
  [ e9_comm_est; e9_online_control; e9_timeout; e142_map_transfer;
    e142_obj_services; e142_trace_setup; e142_trace_transmission ].

(** ** The parameter of the validation example *)

Definition NEWVAL : ScenarioParameter :=
  mkParam "NEWVAL" "Set Value" "100" "Value for SetAttr (S14F3)"
    NUMBER None (Some (Fin 0 0)) (Some (Fin 9999 0)).

(** ** The run as a trace of events

    The effects of the engine on the state are of four kinds.  A run is
    characterised by the list of events it performs; the properties of runs
    below are read off that list. *)

Inductive event : Type :=
  | EvLog (dir : MessageDirection) (text : string) (data : json) (ty : LogType)
  | EvSleep (ms : Z)
  | EvRunning (v : option nat)
  | EvVerdict (scenario_title : string) (allPassed : bool).

Definition do_event (gid : nat -> string) (e : event) : M unit :=
  match e with
  | EvLog dir text data ty => addLog gid dir text data ty
  | EvSleep ms => sleep ms
  | EvRunning v => modify (set_runningStep v)
  | EvVerdict t p => push_result t p
  end.

Definition replay (gid : nat -> string) (es : list event) (st : State) : State :=
  fold_left (fun st e => exec (do_event gid e) st) es st.

Definition outcome_ok (o : StepOutcome) : bool :=
  match o with
  | Acknowledged _ | NoReplyRequired => true
  | TimedOut | MalformedTemplate | NoOracleEntry => false
  end.

Definition is_malformed (o : StepOutcome) : bool :=
  match o with MalformedTemplate => true | _ => false end.

Definition timeoutMs (step : TestStep) : Z :=
  match timeout step with Some t => t | None => 10000 end.

Definition simulateDelayMs (step : TestStep) : Z :=
  match simulateDelay step with Some d => d | None => 600 end.

Definition sent_entry (step : TestStep) (msgBody : json) : event :=
  let msg := messageToSend step in
  EvLog HOST_TO_EQP
        (sxfy_of msg ++ " " ++ msg_name msg ++ " "
         ++ (if waitBit msg then "[W]" else ""))
        msgBody info.

Definition timeout_entry (step : TestStep) : event :=
  EvLog ERROR
        ("T3 Timeout: No response received within " ++ num (timeoutMs step)
         ++ "ms (Simulated Delay: " ++ num (simulateDelayMs step) ++ "ms)")
        empty_object error.

Definition malformed_entry (step : TestStep) (e : string) : event :=
  EvLog ERROR ("Failed to parse message body for " ++ step_name step)
        (JObj [("error", JStr e)]) error.

Definition no_mock_entry (step : TestStep) : event :=
  EvLog ERROR ("No Mock Response defined for " ++ sxfy_of (messageToSend step))
        empty_object error.

Definition fallback_ack : json := JObj [("ACK", JInt 0)].

(** What the equipment side of a step that did not time out amounts to. *)
Definition reply_trace (step : TestStep) : StepOutcome * list event :=
  let no_reply :=
    if waitBit (messageToSend step)
    then (NoOracleEntry, [no_mock_entry step])
    else (NoReplyRequired, []) in
  match expectedResponseSxFy step with
  | Some expectedResponse =>
      if negb (is_empty expectedResponse) then
        match obj_get expectedResponse MOCK_RESPONSES with
        | Some reply =>
            if truthy reply
            then (Acknowledged reply,
                  [EvLog EQP_TO_HOST (expectedResponse ++ " Response") reply success])
            else (Acknowledged fallback_ack,
                  [EvLog EQP_TO_HOST (expectedResponse ++ " Ack") fallback_ack success])
        | None =>
            (Acknowledged fallback_ack,
             [EvLog EQP_TO_HOST (expectedResponse ++ " Ack") fallback_ack success])
        end
      else no_reply
  | None => no_reply
  end.

(** The outcome and the events of one iteration of the loop. *)
Definition step_trace (etext : string -> string) (pv : js_obj string)
  (step : TestStep) : StepOutcome * list event :=
  match resolveBody etext pv (body (messageToSend step)) with
  | Throw e => (MalformedTemplate, [malformed_entry step e])
  | Normal msgBody =>
      if waitBit (messageToSend step) && (simulateDelayMs step >? timeoutMs step)
      then (TimedOut,
            [sent_entry step msgBody; EvSleep (timeoutMs step);
             timeout_entry step; EvSleep 500])
      else (fst (reply_trace step),
            [sent_entry step msgBody; EvSleep (simulateDelayMs step)]
              ++ snd (reply_trace step) ++ [EvSleep 800])%list
  end.

Definition step_outcome (etext : string -> string) (pv : js_obj string)
  (step : TestStep) : StepOutcome :=
  fst (step_trace etext pv step).

(** The outcomes, the final [allPassed] and the events of the loop from
    index [i] on. *)
Fixpoint steps_trace (etext : string -> string) (pv : js_obj string) (i : nat)
  (steps : list TestStep) (allPassed : bool)
  : list StepOutcome * bool * list event :=
  match steps with
  | [] => ([], allPassed, [])
  | step :: rest =>
      let (o, es) := step_trace etext pv step in
      let allPassed' := allPassed && outcome_ok o in
      if is_malformed o then ([o], allPassed', EvRunning (Some i) :: es)
      else
        let '(os, p, es') := steps_trace etext pv (S i) rest allPassed' in
        (o :: os, p, (EvRunning (Some i) :: es ++ es')%list)
  end.

Definition blocked_entry (errors : js_obj string) : event :=
  EvLog ERROR "Execution Blocked: Fix invalid parameters." (record_json errors) error.

Definition starting_entry (scenario : TestScenario) : event :=
  EvLog INFO ("Starting Scenario: " ++ title scenario) empty_object info.

Definition complete_entry (allPassed : bool) : event :=
  EvLog INFO ("Scenario Complete: " ++ (if allPassed then "PASSED" else "FAILED"))
        empty_object (if allPassed then success else error).

(** The outcomes and the events of [runScenario] from a given state. *)
Definition run_trace (etext : string -> string) (scenario : TestScenario)
  (st : State) : list StepOutcome * list event :=
  match runningStep st with
  | Some _ => ([], [])
  | None =>
      if negb (is_nil (validationErrors st)) then
        ([], [blocked_entry (validationErrors st)])
      else
        let '(os, p, es) :=
          steps_trace etext (paramValues st) 0 (steps scenario) true in
        (os,
         (EvRunning (Some O) :: starting_entry scenario :: es
          ++ [EvRunning None; EvVerdict (title scenario) p; complete_entry p])%list)
  end.

(** *** What a list of events does to each part of the state *)

Definition mk_entry (gid : nat -> string) (n : nat) (t : Z)
  (dir : MessageDirection) (text : string) (data : json) (ty : LogType)
  : LogEntry :=
  {| log_id := gid n; log_timestamp := t; direction := dir; summary := text;
     detail := JSON_stringify data; log_type := ty |}.

(** The entries appended by the events, from draw count [n] and time [t]. *)
Fixpoint entries (gid : nat -> string) (n : nat) (t : Z) (es : list event)
  : list LogEntry :=
  match es with
  | [] => []
  | EvLog dir text data ty :: r =>
      mk_entry gid n t dir text data ty :: entries gid (S n) t r
  | EvSleep ms :: r => entries gid n (t + timer_delay ms) r
  | _ :: r => entries gid n t r
  end.

Fixpoint sleeps (es : list event) : list Z :=
  match es with
  | [] => []
  | EvSleep ms :: r => ms :: sleeps r
  | _ :: r => sleeps r
  end.

Fixpoint log_dirs (es : list event) : list MessageDirection :=
  match es with
  | [] => []
  | EvLog dir _ _ _ :: r => dir :: log_dirs r
  | _ :: r => log_dirs r
  end.

Definition elapsed (es : list event) : Z :=
  fold_right (fun ms acc => timer_delay ms + acc) 0 (sleeps es).

(** The history after the events, from time [t] and history [acc]. *)
Fixpoint verdicts (t : Z) (es : list event) (acc : list TestResult)
  : list TestResult :=
  match es with
  | [] => acc
  | EvVerdict ti p :: r =>
      verdicts t r
        ({| scenarioId := ti; timestamp := t; passed := p;
            notes := if p then "All steps completed successfully."
                     else "Scenario failed due to errors or timeouts." |} :: acc)
  | EvSleep ms :: r => verdicts (t + timer_delay ms) r acc
  | _ :: r => verdicts t r acc
  end.

Fixpoint no_verdict (es : list event) : bool :=
  match es with
  | [] => true
  | EvVerdict _ _ :: _ => false
  | _ :: r => no_verdict r
  end.

(** *** A run that starts *)

Definition can_start (st : State) : Prop :=
  runningStep st = None /\ validationErrors st = [].

(** The outcomes of the steps executed: those of the steps in order, up to
    and including the first malformed template. *)
Fixpoint through_break (os : list StepOutcome) : list StepOutcome :=
  match os with
  | [] => []
  | o :: r => if is_malformed o then [o] else o :: through_break r
  end.

(** ** The catalog as stored values, and the state [App] starts in *)

Definition optional_field {A : Type} (k : string) (f : A -> json) (v : option A)
  : list (string * json) :=
  match v with Some a => [(k, f a)] | None => [] end.

Definition json_of_SecsMessage (m : SecsMessage) : json :=
  JObj [("stream", JInt (stream m)); ("function", JInt (function m));
        ("waitBit", JBool (waitBit m)); ("name", JStr (msg_name m));
        ("body", body m)].

Definition json_of_TestStep (s : TestStep) : json :=
  JObj ([("name", JStr (step_name s)); ("description", JStr (step_description s));
         ("messageToSend", json_of_SecsMessage (messageToSend s))]
        ++ optional_field "expectedResponseSxFy" JStr (expectedResponseSxFy s)
        ++ optional_field "simulateDelay" JInt (simulateDelay s)
        ++ optional_field "timeout" JInt (timeout s))%list.

Definition ParameterType_text (t : ParameterType) : string :=
  match t with STRING => "STRING" | NUMBER => "NUMBER" | ENUM => "ENUM" end.

Definition StandardType_text (t : StandardType) : string :=
  match t with
  | E9 => "E9 (System Control)"
  | E142 => "E142 (Substrate Mapping)"
  | GENERIC => "Generic SECS"
  end.

Definition json_of_ScenarioParameter (p : ScenarioParameter) : json :=
  JObj ([("key", JStr (key p)); ("label", JStr (label p));
         ("defaultValue", JStr (defaultValue p))]
        ++ optional_field "description" JStr (param_description p)
        ++ optional_field "type" (fun t => JStr (ParameterType_text t)) (param_type p)
        ++ optional_field "options" (fun l => JArr (map JStr l)) (options p)
        ++ optional_field "min" JNum (min p)
        ++ optional_field "max" JNum (max p))%list.

Definition json_of_TestScenario (s : TestScenario) : json :=
  JObj ([("id", JStr (id s)); ("title", JStr (title s));
         ("standard", JStr (StandardType_text (standard s)));
         ("description", JStr (description s))]
        ++ optional_field "parameters"
             (fun l => JArr (map json_of_ScenarioParameter l)) (parameters s)
        ++ [("steps", JArr (map json_of_TestStep (steps s)))])%list.

Definition initial_state : State :=
  {| scenarios := map json_of_TestScenario TEST_SCENARIOS;
     selectedScenario := None;
     logs := [];
     results := [];
     runningStep := None;
     paramValues := [];
     validationErrors := [];
     clock := 0;
     draws := O;
     timers := [] |}.

(** Sample instances of what the runtime leaves open. *)
Definition sample_id (n : nat) : string := "id" ++ num (Z.of_nat n).
Definition sample_error (text : string) : string :=
  "SyntaxError: Unexpected token in JSON".

Definition slow_step : TestStep :=
  mkStep "Slow Response (Fail)"
    "Equipment takes 8s to respond, but Timeout is set to 2s. Should Fail."
    (mkMsg 1 13 "Establish Comm" (JObj [("COMMACK", JInt 0)]))
    "S1F14" (Some 8000) 2000.

(** ** Steps that resolve, and scenarios cut short *)

Definition not_malformed (etext : string -> string) (pv : js_obj string)
  (s : TestStep) : bool :=
  negb (is_malformed (step_outcome etext pv s)).


(** ** Parameters that validate and still break the body *)

Definition OBJID : ScenarioParameter :=
  mkParam "OBJID" "Object ID" "WaferMap_01" "Target Object Identifier"
    STRING None None None.

Definition quote_value : string := String "a" (String dquote "b").
Definition backslash_value : string := String "a" (String backslash "").

(** The state after selecting "E142: Trace Data Setup" and typing [value]
    into its Object ID field. *)
Definition trace_setup_with (value : string) : State :=
  handleParamChange OBJID value
    (setSelectedScenario (Some e142_trace_setup) initial_state).

Definition trace_setup_step : TestStep :=
  mkStep "Get Attr Names (S14F11)"
    "Retrieve available attributes for the object to setup trace."
    (mkMsg 14 11 "GetAttrNames"
       (JObj [("OBJID", JStr "{{OBJID}}"); ("OBJTYPE", JStr "{{OBJTYPE}}")]))
    "S14F12" None 5000.

(** The text handed to [JSON.parse] for the body of that step. *)
Definition substituted_text (value : string) : string :=
  fold_left (fun str kv => replace_placeholder (fst kv) (snd kv) str)
            (paramValues (trace_setup_with value))
            (JSON_stringify (body (messageToSend trace_setup_step))).

Definition log_view (e : LogEntry) : MessageDirection * string :=
  (direction e, summary e).

(** ** The operations of the application *)

Inductive Action : Type :=
  | SelectScenario (s : option TestScenario)
  | ParamChange (param : ScenarioParameter) (value : string)
  | RunScenario (scenario : TestScenario)
  | ClearLogs
  | ExportScenarios
  | ImportScenarios (file : option string).

Definition perform (gid : nat -> string) (etext : string -> string)
  (a : Action) (st : State) : State :=
  match a with
  | SelectScenario s => setSelectedScenario s st
  | ParamChange p v => handleParamChange p v st
  | RunScenario sc => runScenario gid etext sc st
  | ClearLogs => clearLogs st
  | ExportScenarios => handleExportScenarios gid st
  | ImportScenarios file => handleImportScenarios gid etext file st
  end.

(** ** Well-formed catalog entries *)

(** The shapes of the type declarations, as checks on stored values. *)
Definition field_is (p : json -> bool) (k : string) (o : list (string * json)) : bool :=
  match obj_get k o with Some v => p v | None => false end.

Definition optional_is (p : json -> bool) (k : string) (o : list (string * json))
  : bool :=
  match obj_get k o with Some v => p v | None => true end.

Definition is_JStr (j : json) : bool := match j with JStr _ => true | _ => false end.
Definition is_JNum (j : json) : bool := match j with JNum _ => true | _ => false end.
Definition is_JBool (j : json) : bool := match j with JBool _ => true | _ => false end.

Definition is_array_of (p : json -> bool) (j : json) : bool :=
  match j with JArr l => forallb p l | _ => false end.

Definition is_one_of (texts : list string) (j : json) : bool :=
  match j with
  | JStr s => existsb (String.eqb s) texts
  | _ => false
  end.

Definition is_SecsMessage (j : json) : bool :=
  match j with
  | JObj o =>
      field_is is_JNum "stream" o && field_is is_JNum "function" o
      && field_is is_JBool "waitBit" o && field_is is_JStr "name" o
  | _ => false
  end.

Definition is_TestStep (j : json) : bool :=
  match j with
  | JObj o =>
      field_is is_JStr "name" o && field_is is_JStr "description" o
      && field_is is_SecsMessage "messageToSend" o
      && optional_is is_JStr "expectedResponseSxFy" o
      && optional_is is_JNum "simulateDelay" o
      && optional_is is_JNum "timeout" o
  | _ => false
  end.

Definition is_ScenarioParameter (j : json) : bool :=
  match j with
  | JObj o =>
      field_is is_JStr "key" o && field_is is_JStr "label" o
      && field_is is_JStr "defaultValue" o
      && optional_is is_JStr "description" o
      && optional_is (is_one_of ["STRING"; "NUMBER"; "ENUM"]) "type" o
      && optional_is (is_array_of is_JStr) "options" o
      && optional_is is_JNum "min" o && optional_is is_JNum "max" o
  | _ => false
  end.

Definition is_TestScenario (j : json) : bool :=
  match j with
  | JObj o =>
      field_is is_JStr "id" o && field_is is_JStr "title" o
      && field_is (is_one_of (map StandardType_text [E9; E142; GENERIC])) "standard" o
      && field_is is_JStr "description" o
      && optional_is (is_array_of is_ScenarioParameter) "parameters" o
      && field_is (is_array_of is_TestStep) "steps" o
  | _ => false
  end.

(** ** Values and the texts that print them *)

(** What may follow a value inside a text: nothing, or one of [,] []] [}]. *)
Definition delimited (rest : string) : bool :=
  match rest with
  | "" => true
  | String c _ => Ascii.eqb c "," || Ascii.eqb c "]" || Ascii.eqb c "}"
  end.

Section JsonInduction.
Variable P : json -> Prop.
Hypothesis Hnull : P JNull.
Hypothesis Hbool : forall b, P (JBool b).
Hypothesis Hnum : forall n, P (JNum n).
Hypothesis Hstr : forall s, P (JStr s).
Hypothesis Harr : forall l, Forall P l -> P (JArr l).
Hypothesis Hobj : forall o, Forall (fun kv => P (snd kv)) o -> P (JObj o).

(** Induction over a value and the values nested in it. *)
Fixpoint json_induction (j : json) : P j :=
  match j with
  | JNull => Hnull
  | JBool b => Hbool b
  | JNum n => Hnum n
  | JStr s => Hstr s
  | JArr l =>
      Harr l ((fix all (l : list json) : Forall P l :=
                 match l with
                 | [] => Forall_nil P
                 | x :: r => Forall_cons x (json_induction x) (all r)
                 end) l)
  | JObj o =>
      Hobj o ((fix all (o : list (string * json))
                 : Forall (fun kv => P (snd kv)) o :=
                 match o with
                 | [] => Forall_nil _
                 | kv :: r =>
                     Forall_cons (P := fun kv => P (snd kv)) kv
                       (json_induction (snd kv)) (all r)
                 end) o)
  end.
End JsonInduction.

(** The values a JSON text carries back unchanged: integers below 10^21 as
    numbers, and objects whose entries are in enumeration order. *)
Inductive plain_json : json -> Prop :=
  | plain_null : plain_json JNull
  | plain_bool (b : bool) : plain_json (JBool b)
  | plain_int (z : Z) : Z.abs z < 10 ^ 21 -> plain_json (JNum (Fin z 0))
  | plain_str (s : string) : plain_json (JStr s)
  | plain_arr (l : list json) : Forall plain_json l -> plain_json (JArr l)
  | plain_obj (o : list (string * json)) :
      is_entries o -> Forall (fun kv => plain_json (snd kv)) o ->
      plain_json (JObj o).

Fixpoint size (j : json) : nat :=
  match j with
  | JArr l => S (list_sum (map (fun x => S (size x)) l))
  | JObj o => S (list_sum (map (fun kv => S (size (snd kv))) o))
  | _ => 1
  end.

Definition value_start (c : ascii) : bool :=
  is_digit c || Ascii.eqb c "-" || Ascii.eqb c dquote || Ascii.eqb c "["
  || Ascii.eqb c "{" || Ascii.eqb c "t" || Ascii.eqb c "f" || Ascii.eqb c "n".

(** Printing [j] and parsing the text gives [j']. *)
Definition reads_as (j j' : json) : Prop :=
  forall fuel rest,
    (size j <= fuel)%nat -> delimited rest = true ->
    parse_value fuel (JSON_stringify j ++ rest) = Some (j', rest).

Definition member_reads (kv kv' : string * json) : Prop :=
  fst kv' = fst kv /\ reads_as (snd kv) (snd kv').

Definition all_digits (s : string) : bool := string_forallb is_digit s.

Definition no_digit_start (s : string) : bool :=
  match s with
  | "" => true
  | String c _ => negb (is_digit c)
  end.

(** Integer digits as a number token has them: a single 0, or digits that do
    not start with 0. *)
Definition int_digits (s : string) : bool :=
  match s with
  | "" => false
  | String c r => all_digits s && (is_empty r || negb (Ascii.eqb c "0"))
  end.

Definition frac_text (f : option string) : string :=
  match f with Some d => "." ++ d | None => "" end.

Definition frac_digits (f : option string) : string :=
  match f with Some d => d | None => "" end.

Definition exp_text (e : option (bool * string)) : string :=
  match e with
  | Some (neg, d) => "e" ++ (if neg : bool then "-" else "+") ++ d
  | None => ""
  end.

Definition exp_value (e : option (bool * string)) : Z :=
  match e with
  | Some (neg, d) =>
      if neg : bool then - Z.of_N (digits_value d) else Z.of_N (digits_value d)
  | None => 0
  end.

Definition part_ok (d : option string) : bool :=
  match d with Some s => all_digits s && negb (is_empty s) | None => true end.

Definition member_text (kv : string * json) : string :=
  QuoteJSONString (fst kv) ++ ":" ++ JSON_stringify (snd kv).

(** ** Placeholders without an entry *)

(** [pat] occurs in [s]. *)
Fixpoint occurs (pat s : string) : bool :=
  match s with
  | "" => String.prefix pat ""
  | String _ s' => String.prefix pat s || occurs pat s'
  end.

Definition template_OBJID : json := JObj [("OBJID", JStr "{{OBJID}}")].

(** ** The entries of a run without parameters *)

Definition has_oracle_entry (step : TestStep) : Prop :=
  exists r reply,
    expectedResponseSxFy step = Some r /\ obj_get r MOCK_RESPONSES = Some reply.

Definition no_parameters (scenario : TestScenario) : Prop :=
  parameters scenario = None \/ parameters scenario = Some [].

Definition scenario_of (steps : list TestStep) : TestScenario :=
  {| id := "custom"; title := "Custom"; standard := GENERIC;
     description := ""; parameters := None; steps := steps |}.

Definition step_of (wait : bool) (expected : option string)
  (delay budget : option Z) : TestStep :=
  {| step_name := "Get Attribute"; step_description := "";
     messageToSend :=
       {| stream := 14; function := 1; waitBit := wait; msg_name := "GetAttr";
          body := JObj [] |};
     expectedResponseSxFy := expected; simulateDelay := delay; timeout := budget |}.

Definition directions_of_run (scenario : TestScenario) : list MessageDirection :=
  map direction
    (logs (runScenario sample_id sample_error scenario
             (setSelectedScenario (Some scenario) initial_state))).

(** ** What the views read off the state *)

(** The badge of a scenario card in the list:
    [results.find(r => r.scenarioId === scenario.title)?.passed]. *)
Definition lastResult (results : list TestResult) (scenario_title : string)
  : option bool :=
  option_map passed
    (find (fun r => String.eqb (scenarioId r) scenario_title) results).

(** The Execute button:
    [disabled={runningStep !== null || Object.keys(validationErrors).length > 0}]. *)
Definition execute_disabled (st : State) : bool :=
  match runningStep st with
  | Some _ => true
  | None => negb (is_nil (validationErrors st))
  end.

(** The two counts of the report panel and the data of its chart. *)
Definition passedCount (results : list TestResult) : nat :=
  List.length (filter (fun r => passed r) results).

Definition failedCount (results : list TestResult) : nat :=
  List.length (filter (fun r => negb (passed r)) results).

Definition chart_data (results : list TestResult) : list (string * nat) :=
  [("Passed", passedCount results); ("Failed", failedCount results)].

(** ** The waits and the entries of a step *)

(** The durations a step that resolves hands to [setTimeout], in order. *)
Definition step_timers (step : TestStep) : list Z :=
  if waitBit (messageToSend step) && (simulateDelayMs step >? timeoutMs step)
  then [timeoutMs step; 500]
  else [simulateDelayMs step; 800].

(** The number of entries the branch of an outcome logs. *)
Definition entries_of_outcome (o : StepOutcome) : nat :=
  match o with
  | MalformedTemplate | NoReplyRequired => 1
  | Acknowledged _ | TimedOut | NoOracleEntry => 2
  end.

(** The payload of the reply to an expected response: the entry of the reply
    table, or the fallback acknowledgement. *)
Definition reply_payload (expectedResponse : string) : json :=
  match obj_get expectedResponse MOCK_RESPONSES with
  | Some reply => reply
  | None => fallback_ack
  end.

(** ** The operations the page offers in a state *)

(** Cards select a scenario, the inputs shown are those of the parameters of
    the selected scenario, and Execute runs the selected scenario. *)
Inductive offered (st : State) : Action -> Prop :=
  | offered_select (s : option TestScenario) : offered st (SelectScenario s)
  | offered_change (sc : TestScenario) (ps : list ScenarioParameter)
      (p : ScenarioParameter) (v : string) :
      selectedScenario st = Some sc -> parameters sc = Some ps -> In p ps ->
      offered st (ParamChange p v)
  | offered_run (sc : TestScenario) :
      selectedScenario st = Some sc -> offered st (RunScenario sc)
  | offered_clear : offered st ClearLogs
  | offered_export : offered st ExportScenarios
  | offered_import (file : option string) : offered st (ImportScenarios file).

(** The states of a session: from the initial state, by offered operations. *)
Inductive session (gid : nat -> string) (etext : string -> string) : State -> Prop :=
  | session_start : session gid etext initial_state
  | session_step (st : State) (a : Action) :
      session gid etext st -> offered st a ->
      session gid etext (perform gid etext a st).

(** The enumerated parameter of "E142: Trace Data Setup". *)
Definition OBJTYPE : ScenarioParameter :=
  mkParam "OBJTYPE" "Object Type" "SubstrateMap" "Type of the object" ENUM
    (Some ["SubstrateMap"; "Equipment"; "Port"; "Carrier"]) None None.

(** A scenario with one numeric parameter whose default is empty. *)
Definition blank_default : ScenarioParameter :=
  {| key := "COUNT"; label := "Count"; defaultValue := "";
     param_description := None; param_type := Some NUMBER; options := None;
     min := Some (Fin 1 0); max := None |}.

Definition blank_scenario : TestScenario :=
  {| id := "blank"; title := "Blank default"; standard := GENERIC;
     description := ""; parameters := Some [blank_default];
     steps := [step_of true (Some "S1F2") None None] |}.

(** The invariant of a session: every key with a value, and every key with
    an error, is the key of a parameter of the selected scenario, and an
    error is the verdict of [validateParameter] on the value the key holds. *)
Definition declared (st : State) (k : string) (p : ScenarioParameter) : Prop :=
  exists sc ps,
    selectedScenario st = Some sc /\ parameters sc = Some ps
    /\ In p ps /\ key p = k.

Definition errors_sound (st : State) : Prop :=
  forall k e,
    obj_get k (validationErrors st) = Some e ->
    exists p v,
      declared st k p /\ obj_get k (paramValues st) = Some v
      /\ validateParameter p v = Some e.

Definition values_declared (st : State) : Prop :=
  forall k v, obj_get k (paramValues st) = Some v -> exists p, declared st k p.


(** ** [JSON.stringify(value, null, 2)] *)

Definition newline : string := String "010"%char "".

Fixpoint spaces (n : nat) : string :=
  match n with
  | O => ""
  | S n' => String " " (spaces n')
  end.

(** The text of a value at the current indentation [indent], the gap being
    two spaces: the members of a non-empty array or object stand on lines of
    their own, two spaces further in, and a key is followed by a colon and a
    space. *)
Fixpoint JSON_stringify_indented (indent : nat) (j : json) : string :=
  match j with
  | JArr l =>
      match l with
      | [] => "[]"
      | _ =>
          "[" ++ newline ++ spaces (2 + indent)
          ++ String.concat ("," ++ newline ++ spaces (2 + indent))
               (map (JSON_stringify_indented (2 + indent)) l)
          ++ newline ++ spaces indent ++ "]"
      end
  | JObj o =>
      match o with
      | [] => "{}"
      | _ =>
          "{" ++ newline ++ spaces (2 + indent)
          ++ String.concat ("," ++ newline ++ spaces (2 + indent))
               (map (fun kv => QuoteJSONString (fst kv) ++ ": "
                               ++ JSON_stringify_indented (2 + indent) (snd kv)) o)
          ++ newline ++ spaces indent ++ "}"
      end
  | _ => JSON_stringify j
  end.

Definition JSON_stringify_2 (j : json) : string := JSON_stringify_indented 0 j.

(** What may follow a number inside a text: nothing, or a character that
    continues neither its digits nor a fraction or an exponent. *)
Definition stops (rest : string) : bool :=
  match rest with
  | "" => true
  | String c _ =>
      negb (is_digit c) && negb (Ascii.eqb c ".") && negb (Ascii.eqb c "e")
      && negb (Ascii.eqb c "E")
  end.

(** What follows a value inside an indented text: nothing, one of [,] []]
    [}], or the line break before the next line. *)
Definition delimited_line (rest : string) : bool :=
  match rest with
  | "" => true
  | String c _ =>
      Ascii.eqb c "," || Ascii.eqb c "]" || Ascii.eqb c "}"
      || Ascii.eqb c "010"
  end.

(** Printing [j] with indentation and parsing the text gives [j] back. *)
Definition reads_indented (j : json) : Prop :=
  forall indent fuel rest,
    (size j <= fuel)%nat -> delimited_line rest = true ->
    parse_value fuel (JSON_stringify_indented indent j ++ rest) = Some (j, rest).

Definition member_indented (indent : nat) (kv : string * json) : string :=
  QuoteJSONString (fst kv) ++ ": " ++ JSON_stringify_indented indent (snd kv).

Definition separator (indent : nat) : string := "," ++ newline ++ spaces indent.

(** ** The log viewer: [formatSML] *)

(** The longest prefix without a double quote, and what follows it. *)
Fixpoint span_unquoted (s : string) : string * string :=
  match s with
  | String c s' =>
      if Ascii.eqb c dquote then ("", s)
      else let (run, rest) := span_unquoted s' in (String c run, rest)
  | "" => ("", "")
  end.

(** The first [replace] of [formatSML], whose pattern is a double quote, one
    or more characters other than a double quote (the group), a double quote
    and a colon, and whose replacement is the group and a colon: at each
    match, leftmost first, the two quotes are dropped, and the search goes on
    after the colon.  [skip] is the number of characters of the current match
    still to pass. *)
Fixpoint unquote_keys_go (s : string) (skip : nat) : string :=
  match s with
  | "" => ""
  | String c s' =>
      match skip with
      | S k => unquote_keys_go s' k
      | O =>
          if Ascii.eqb c dquote then
            let (run, rest) := span_unquoted s' in
            if negb (is_empty run) && String.prefix (String dquote ":") rest
            then run ++ ":" ++ unquote_keys_go s' (String.length run + 2)
            else String c (unquote_keys_go s' 0)
          else String c (unquote_keys_go s' 0)
      end
  end.

Definition unquote_keys (s : string) : string := unquote_keys_go s 0.

Definition is_brace (c : ascii) : bool := Ascii.eqb c "{" || Ascii.eqb c "}".

(** [str.replace(/[\{\}]/g, '')] *)
Fixpoint remove_braces (s : string) : string :=
  match s with
  | String c s' =>
      if is_brace c then remove_braces s' else String c (remove_braces s')
  | "" => ""
  end.

(** [formatSML(jsonBody)] for a value [JSON.parse] returned; on such a value
    none of the calls in its [try] block throws. *)
Definition formatSML (jsonBody : json) : string :=
  trim (remove_braces (unquote_keys (JSON_stringify_2 jsonBody))).


(** ** Bodies and values on which substitution is structural *)

(** Characters that stand for themselves inside a quoted string. *)
Definition safe_char (c : ascii) : bool :=
  negb (code c <? 32)%N && negb (Ascii.eqb c dquote)
  && negb (Ascii.eqb c backslash).

Definition safe_string (s : string) : bool := string_forallb safe_char s.

Definition no_dollar (s : string) : bool :=
  string_forallb (fun c => negb (Ascii.eqb c "$")) s.

Definition no_open_brace (s : string) : bool :=
  string_forallb (fun c => negb (Ascii.eqb c "{")) s.

(** Values all of whose strings print as they are, and whose object keys
    hold no opening brace. *)
Fixpoint benign (j : json) : bool :=
  match j with
  | JStr s => safe_string s
  | JArr l => forallb benign l
  | JObj o =>
      forallb (fun kv => safe_string (fst kv) && no_open_brace (fst kv)
                         && benign (snd kv)) o
  | _ => true
  end.

(** The placeholder of [k] replaced by [v] in every string value. *)
Fixpoint subst_json (k v : string) (j : json) : json :=
  match j with
  | JStr s => JStr (replace_placeholder k v s)
  | JArr l => JArr (map (subst_json k v) l)
  | JObj o => JObj (map (fun kv => (fst kv, subst_json k v (snd kv))) o)
  | _ => j
  end.

Definition subst_all (pv : js_obj string) (j : json) : json :=
  fold_left (fun j kv => subst_json (fst kv) (snd kv) j) pv j.

(** Replacing in the text of [j], whatever follows it, is replacing in the
    strings of [j]. *)
Definition replaces (k v : string) (j : json) : Prop :=
  forall s,
    replace_placeholder k v (JSON_stringify j ++ s)
    = JSON_stringify (subst_json k v j) ++ replace_placeholder k v s.

(** Texts of white space, as [Number] and [trim] see it. *)
Definition all_ws (s : string) : bool := string_forallb is_StrWhiteSpaceChar s.

Definition no_ws (s : string) : bool :=
  string_forallb (fun c => negb (is_StrWhiteSpaceChar c)) s.


Definition not_brace (c : ascii) : bool := negb (is_brace c).

(** ** Export: the text of the file and the link that carries it *)

Definition is_uri_unreserved (c : ascii) : bool :=
  let n := code c in
  (is_digit c || ((65 <=? n) && (n <=? 90)) || ((97 <=? n) && (n <=? 122))
   || (n =? 45) || (n =? 95) || (n =? 46) || (n =? 33) || (n =? 126)
   || (n =? 42) || (n =? 39) || (n =? 40) || (n =? 41))%N.

Definition hex_upper (n : N) : ascii :=
  (if n <? 10 then ascii_of_N (48 + n) else ascii_of_N (55 + n))%N.

(** The escape [%XX] of an octet. *)
Definition percent (b : N) : string :=
  String "%" (String (hex_upper (b / 16)) (String (hex_upper (b mod 16)) "")).

(** A code unit below 128 is one octet of UTF-8, a code unit from 128 to 255
    two octets. *)
Definition encode_unit (c : ascii) : string :=
  let n := code c in
  if is_uri_unreserved c then String c ""
  else if (n <? 128)%N then percent n
  else percent (192 + n / 64) ++ percent (128 + n mod 64).

Fixpoint encodeURIComponent (s : string) : string :=
  match s with
  | String c s' => encode_unit c ++ encodeURIComponent s'
  | "" => ""
  end.

(** The text [handleExportScenarios] serialises, and the [href] of the
    download link it clicks. *)
Definition exported_text (st : State) : string :=
  JSON_stringify_2 (JArr (scenarios st)).

Definition dataStr (st : State) : string :=
  "data:text/json;charset=utf-8," ++ encodeURIComponent (exported_text st).

(** The characters of an escaped text. *)
Definition uri_safe (c : ascii) : bool := is_uri_unreserved c || Ascii.eqb c "%".

(** Reading one escaped code unit back. *)
Definition hex_upper_val (c : ascii) : option N :=
  let n := code c in
  (if (48 <=? n) && (n <=? 57) then Some (n - 48)
   else if (65 <=? n) && (n <=? 70) then Some (n - 55)
   else None)%N.

Definition read_percent (s : string) : option (N * string) :=
  match s with
  | String p (String h (String l r)) =>
      if Ascii.eqb p "%" then
        match hex_upper_val h, hex_upper_val l with
        | Some a, Some b => Some (a * 16 + b, r)%N
        | _, _ => None
        end
      else None
  | _ => None
  end.

Definition decode_unit (s : string) : option (ascii * string) :=
  match s with
  | "" => None
  | String c r =>
      if is_uri_unreserved c then Some (c, r)
      else
        match read_percent s with
        | Some (b, r1) =>
            if (b <? 128)%N then Some (ascii_of_N b, r1)
            else
              match read_percent r1 with
              | Some (b2, r2) =>
                  Some (ascii_of_N ((b - 192) * 64 + (b2 - 128)), r2)
              | None => None
              end
        | None => None
        end
  end.

(** ** The report service and the report panel *)

Definition MessageDirection_text (d : MessageDirection) : string :=
  match d with
  | HOST_TO_EQP => "H->E"
  | EQP_TO_HOST => "E->H"
  | INFO => "INFO"
  | ERROR => "ERROR"
  end.

(** [list.slice(-n)] *)
Definition slice_last {A : Type} (n : nat) (l : list A) : list A :=
  skipn (List.length l - n) l.

Definition fallback_report : json :=
  JObj [("summary", JStr "Failed to generate AI report.");
        ("anomalies", JArr [JStr "API connection failed"]);
        ("recommendations", JArr [JStr "Check network settings"])].

Record ReportState : Type := {
  report : json;
  loading : bool
}.

Section Report.

(** What lies outside the program: the rendering of a time by
    [Date.prototype.toISOString], the construction of the client for an API
    key, and the answer of the model to a prompt (the [text] of the response,
    if it has one). *)
Variable toISOString : Z -> string.
Variable GoogleGenAI : string -> completion unit.
Variable generateContent : string -> completion (option string).

Definition recentLogs (logs : list LogEntry) : string :=
  String.concat newline
    (map (fun l => "[" ++ toISOString (log_timestamp l) ++ "] "
                   ++ MessageDirection_text (direction l) ++ ": " ++ summary l)
         (slice_last 20 logs)).

Definition resultsSummary (results : list TestResult) : string :=
  String.concat newline
    (map (fun r => "Scenario: " ++ scenarioId r ++ ", Passed: "
                   ++ (if passed r then "true" else "false"))
         results).

Definition quoted (s : string) : string := String dquote (s ++ String dquote "").

Definition prompt (logs : list LogEntry) (results : list TestResult) : string :=
  String.concat newline
    [ "";
      "    You are a Senior Semiconductor Automation Engineer. ";
      "    Analyze the following SECS/GEM test session for a host simulator interacting with a tool.";
      "    ";
      "    Test Results:";
      "    " ++ resultsSummary results;
      "";
      "    Recent Communication Logs:";
      "    " ++ recentLogs logs;
      "";
      "    Please provide a structured report in JSON format containing:";
      "    1. " ++ quoted "summary"
        ++ ": A brief executive summary of the test session.";
      "    2. " ++ quoted "anomalies"
        ++ ": Any potential issues or timing irregularities seen in the logs.";
      "    3. " ++ quoted "recommendations"
        ++ ": What to check next based on E9 (Control) or E142 (Map) standards.";
      "    ";
      "    Output strictly valid JSON.";
      "  " ].

(** [generateTestReport(logs, results)], given [process.env.API_KEY]. *)
Definition generateTestReport (API_KEY : option string) (logs : list LogEntry)
  (results : list TestResult) : completion json :=
  match API_KEY with
  | None => Throw "API Key not found"
  | Some apiKey =>
      if is_empty apiKey then Throw "API Key not found"
      else
        match GoogleGenAI apiKey with
        | Throw e => Throw e
        | Normal _ =>
            match generateContent (prompt logs results) with
            | Throw _ => Normal fallback_report
            | Normal text =>
                let answer :=
                  match text with
                  | Some t => if is_empty t then "{}" else t
                  | None => "{}"
                  end in
                match JSON_parse answer with
                | Some v => Normal v
                | None => Normal fallback_report
                end
            end
        end
  end.

(** [handleGenerateAI] of the panel, from its click to its end. *)
Definition handleGenerateAI (API_KEY : option string) (logs : list LogEntry)
  (results : list TestResult) (rs : ReportState) : ReportState :=
  match generateTestReport API_KEY logs results with
  | Normal result => {| report := result; loading := false |}
  | Throw _ => {| report := report rs; loading := false |}
  end.

End Report.

(** Sample instances of what lies outside the program. *)
Definition sample_time (t : Z) : string := "T" ++ num t.
Definition sample_client (apiKey : string) : completion unit := Normal tt.
Definition failing_call (prompt : string) : completion (option string) :=
  Throw "network".

(** The panel before any report was asked for. *)
Definition initial_report : ReportState := {| report := JNull; loading := false |}.

(** ** Flat records in the log viewer *)







(** ** The names an object literal inherits *)

(** The properties that every object literal inherits from
    [Object.prototype].  The lookup [MOCK_RESPONSES[name]] under one of these
    names finds the inherited member; under any other name it finds the own
    entry of the table, if there is one, as [obj_get] does. *)
Definition Object_prototype_names : list string :=
  [ "constructor"; "__defineGetter__"; "__defineSetter__"; "hasOwnProperty";
    "__lookupGetter__"; "__lookupSetter__"; "isPrototypeOf";
    "propertyIsEnumerable"; "toString"; "valueOf"; "__proto__";
    "toLocaleString" ].

Definition inherited (name : string) : bool :=
  existsb (String.eqb name) Object_prototype_names.



(** * Properties *)

(** ** Numbers and objects *)

Lemma num_le_not_lt (a b : number) :
  num_isNaN a = false -> num_isNaN b = false ->
  num_le a b = negb (num_lt b a).
Proof.
  destruct a as [| | |m1 e1], b as [| | |m2 e2]; simpl; try reflexivity;
    try discriminate.
  intros _ _. rewrite (Z.min_comm e2 e1). apply Z.leb_antisym.
Qed.

Lemma is_empty_true (s : string) : is_empty s = true <-> s = "".
Proof. destruct s; simpl; split; congruence. Qed.

Lemma is_empty_false (s : string) : is_empty s = false <-> s <> "".
Proof. destruct s; simpl; split; congruence. Qed.

Section ObjectFacts.
Context {A : Type}.

Lemma obj_get_update_same (k : string) (v : A) (o : js_obj A) :
  obj_has k o = true -> obj_get k (obj_update k v o) = Some v.
Proof.
  unfold obj_has. induction o as [|[k' v'] o IH]; simpl; [discriminate|].
  destruct (String.eqb k k') eqn:E; simpl; rewrite E; auto.
Qed.

Lemma obj_get_insert_index_same (i : N) (k : string) (v : A) (o : js_obj A) :
  obj_get k o = None -> obj_get k (obj_insert_index i k v o) = Some v.
Proof.
  induction o as [|[k' v'] o IH]; simpl.
  - now rewrite String.eqb_refl.
  - destruct (String.eqb k k') eqn:E; [discriminate|]. intros H.
    destruct (array_index k') as [j|]; [destruct (j <? i)%N|]; simpl;
      rewrite ?E, ?String.eqb_refl; auto.
Qed.

Lemma obj_get_app_same (k : string) (v : A) (o : js_obj A) :
  obj_get k o = None -> obj_get k (o ++ [(k, v)])%list = Some v.
Proof.
  induction o as [|[k' v'] o IH]; simpl.
  - now rewrite String.eqb_refl.
  - destruct (String.eqb k k'); [discriminate|auto].
Qed.

(** Reading back a property that was just written. *)
Lemma obj_get_set_same (k : string) (v : A) (o : js_obj A) :
  obj_get k (obj_set k v o) = Some v.
Proof.
  unfold obj_set. destruct (obj_has k o) eqn:H.
  - now apply obj_get_update_same.
  - assert (obj_get k o = None) as Hn
      by (unfold obj_has in H; destruct (obj_get k o); congruence).
    destruct (array_index k).
    + now apply obj_get_insert_index_same.
    + now apply obj_get_app_same.
Qed.

(** A deleted property is gone. *)
Lemma obj_get_delete_same (k : string) (o : js_obj A) :
  obj_get k (obj_delete k o) = None.
Proof.
  unfold obj_delete. induction o as [|[k' v'] o IH]; simpl; [reflexivity|].
  destruct (String.eqb k k') eqn:E; simpl; rewrite ?E; auto.
Qed.
End ObjectFacts.

(** ** Validation *)

Lemma NEWVAL_declared :
  parameters e142_obj_services = Some
    [ mkParam "OBJID" "Object ID" "WaferMap_01" "Target Object Identifier"
        STRING None None None;
      mkParam "ATTRID" "Attribute ID" "BinMap" "Attribute to query/set"
        STRING None None None;
      NEWVAL ].
Proof. reflexivity. Qed.

(** The entry of the validation-error map for a parameter after an edit is
    the verdict of [validateParameter] on the new value. *)
Lemma handleParamChange_keyed (p : ScenarioParameter) (v : string) (st : State) :
  obj_get (key p) (validationErrors (handleParamChange p v st))
  = validateParameter p v.
Proof.
  unfold handleParamChange. destruct (validateParameter p v); simpl.
  - apply obj_get_set_same.
  - apply obj_get_delete_same.
Qed.

(** C6. A numeric parameter with both bounds declared: a value is accepted
    exactly when it is non-empty, converts to a number and lies in
    [min, max] inclusive; a value below [min] is reported as "Min value: min",
    one above [max] as "Max value: max", and the report is stored under the
    parameter's key.  For NEWVAL (0 to 9999), "-1" is reported against the
    lower bound and "100" is accepted. *)
Theorem validateParameter_numeric_bounds :
  (forall (p : ScenarioParameter) (v : string) (lo hi : number),
      param_type p = Some NUMBER ->
      min p = Some lo -> max p = Some hi ->
      num_isNaN lo = false -> num_isNaN hi = false ->
      (validateParameter p v = None <->
         v <> "" /\ num_isNaN (Number v) = false
         /\ num_le lo (Number v) = true /\ num_le (Number v) hi = true)
      /\ (v <> "" -> num_isNaN (Number v) = false ->
          num_lt (Number v) lo = true ->
          validateParameter p v = Some ("Min value: " ++ numToString lo))
      /\ (v <> "" -> num_isNaN (Number v) = false ->
          num_le lo (Number v) = true -> num_gt (Number v) hi = true ->
          validateParameter p v = Some ("Max value: " ++ numToString hi))
      /\ (forall st,
          obj_get (key p) (validationErrors (handleParamChange p v st))
          = validateParameter p v))
  /\ validateParameter NEWVAL "-1" = Some "Min value: 0"
  /\ validateParameter NEWVAL "100" = None
  /\ (forall st,
      obj_get "NEWVAL" (validationErrors (handleParamChange NEWVAL "-1" st))
      = Some "Min value: 0")
  /\ (forall st,
      obj_get "NEWVAL" (validationErrors (handleParamChange NEWVAL "100" st))
      = None).
Proof.
  split; [|repeat split; try reflexivity; intros st;
           exact (handleParamChange_keyed NEWVAL _ st)].
  intros p v lo hi Hty Hlo Hhi Nlo Nhi.
  assert (Hv : is_empty v && negb (String.eqb v "0") = is_empty v).
  { destruct v; simpl; reflexivity. }
  assert (Hk : forall st,
             obj_get (key p) (validationErrors (handleParamChange p v st))
             = validateParameter p v)
    by (intros st; apply handleParamChange_keyed).
  revert Hk. generalize (fun st => obj_get (key p)
                           (validationErrors (handleParamChange p v st))).
  intros g Hk.
  unfold validateParameter in *. rewrite Hv, Hty, Hlo, Hhi in *. unfold num_gt in *.
  split; [split|split; [|split]].
  - intros H. destruct (is_empty v) eqn:E; [discriminate|].
    destruct (num_isNaN (Number v)) eqn:En; [discriminate|].
    rewrite (num_le_not_lt lo (Number v)), (num_le_not_lt (Number v) hi)
      by assumption.
    destruct (num_lt (Number v) lo); [discriminate|].
    destruct (num_lt hi (Number v)); [discriminate|].
    repeat split. now apply is_empty_false.
  - intros (Hne & Hn & Hl & Hh).
    apply is_empty_false in Hne. rewrite Hne, Hn.
    rewrite num_le_not_lt in Hl, Hh by assumption.
    destruct (num_lt (Number v) lo); [discriminate|].
    destruct (num_lt hi (Number v)); [discriminate|reflexivity].
  - intros Hne Hn Hl. apply is_empty_false in Hne. now rewrite Hne, Hn, Hl.
  - intros Hne Hn Hl Hh. apply is_empty_false in Hne.
    rewrite num_le_not_lt in Hl by assumption.
    rewrite Hne, Hn, Hh. destruct (num_lt (Number v) lo); [discriminate|reflexivity].
  - exact Hk.
Qed.

Lemma validateParameter_numeric_bounds_witness :
  validateParameter NEWVAL "42" = None <->
    "42" <> "" /\ num_isNaN (Number "42") = false
    /\ num_le (Fin 0 0) (Number "42") = true
    /\ num_le (Number "42") (Fin 9999 0) = true.
Proof.
  exact (proj1 (proj1 validateParameter_numeric_bounds NEWVAL "42"
                  (Fin 0 0) (Fin 9999 0)
                  eq_refl eq_refl eq_refl eq_refl eq_refl)).
Defined.

(** ** The run as a trace of events *)

Lemma replay_app gid (es1 es2 : list event) (st : State) :
  replay gid (es1 ++ es2)%list st = replay gid es2 (replay gid es1 st).
Proof. apply fold_left_app. Qed.

Lemma replay_cons gid (e : event) (es : list event) (st : State) :
  replay gid (e :: es) st = replay gid es (exec (do_event gid e) st).
Proof. reflexivity. Qed.

(** Evaluation of the monadic operations, the rest left folded. *)
Ltac step_eval :=
  cbv [bind ret replay fold_left exec do_event fst snd addLog sleep modify
       app andb outcome_ok is_malformed];
  cbv beta iota.

(** One iteration of the loop performs the events of [step_trace]. *)
Lemma run_step_trace gid etext pv step allPassed st :
  run_step gid etext pv step allPassed st
  = (step_outcome etext pv step,
     allPassed && outcome_ok (step_outcome etext pv step),
     (if is_malformed (step_outcome etext pv step) then Break else Continue),
     replay gid (snd (step_trace etext pv step)) st).
Proof.
  unfold step_outcome, step_trace, run_step, timeoutMs, simulateDelayMs,
    sent_entry, timeout_entry, malformed_entry.
  destruct (resolveBody etext pv (body (messageToSend step))) as [b|e];
    [|destruct allPassed; reflexivity].
  destruct (waitBit (messageToSend step) && _) eqn:Ew.
  - destruct allPassed; step_eval; reflexivity.
  - unfold reply_trace, no_mock_entry.
    destruct (expectedResponseSxFy step) as [r|].
    + destruct (negb (is_empty r)).
      * destruct (obj_get r MOCK_RESPONSES) as [reply|].
        -- destruct (truthy reply); destruct allPassed; step_eval; reflexivity.
        -- destruct allPassed; step_eval; reflexivity.
      * destruct (waitBit (messageToSend step)); destruct allPassed;
          step_eval; reflexivity.
    + destruct (waitBit (messageToSend step)); destruct allPassed;
        step_eval; reflexivity.
Qed.

(** The loop performs the events of [steps_trace]. *)
Lemma run_steps_trace gid etext pv steps : forall i allPassed st,
  run_steps gid etext pv i steps allPassed st
  = (fst (fst (steps_trace etext pv i steps allPassed)),
     snd (fst (steps_trace etext pv i steps allPassed)),
     replay gid (snd (steps_trace etext pv i steps allPassed)) st).
Proof.
  induction steps as [|step rest IH]; intros i allPassed st; [reflexivity|].
  cbn [run_steps steps_trace]. unfold bind at 1. cbn [modify].
  unfold bind at 1. rewrite run_step_trace. unfold step_outcome.
  destruct (step_trace etext pv step) as [o es]. cbn [fst snd].
  destruct (is_malformed o) eqn:Em.
  - reflexivity.
  - unfold bind. rewrite IH.
    destruct (steps_trace etext pv (S i) rest (allPassed && outcome_ok o))
      as [[os p] es'].
    cbn [fst snd ret]. rewrite replay_cons, replay_app. reflexivity.
Qed.

Lemma run_eq_trace gid etext scenario st :
  run gid etext scenario st
  = (fst (run_trace etext scenario st),
     replay gid (snd (run_trace etext scenario st)) st).
Proof.
  unfold run, run_trace.
  destruct (runningStep st); [reflexivity|].
  destruct (negb (is_nil (validationErrors st))); [reflexivity|].
  unfold bind at 1. cbn [modify]. unfold bind at 1.
  unfold addLog at 1. cbn [modify]. unfold bind at 1.
  rewrite run_steps_trace.
  destruct (steps_trace etext (paramValues st) 0 (steps scenario) true)
    as [[os p] es].
  cbn [fst snd]. rewrite 2 replay_cons, replay_app. reflexivity.
Qed.

Lemma runScenario_replay gid etext scenario st :
  runScenario gid etext scenario st
  = replay gid (snd (run_trace etext scenario st)) st.
Proof. unfold runScenario, exec. now rewrite run_eq_trace. Qed.

Lemma logs_replay gid es : forall st,
  logs (replay gid es st) = (logs st ++ entries gid (draws st) (clock st) es)%list.
Proof.
  induction es as [|e es IH]; intros st.
  - simpl. now rewrite app_nil_r.
  - rewrite replay_cons, IH. destruct e; cbn; try reflexivity.
    now rewrite <- app_assoc.
Qed.

Lemma timers_replay gid es : forall st,
  timers (replay gid es st) = (timers st ++ sleeps es)%list.
Proof.
  induction es as [|e es IH]; intros st.
  - simpl. now rewrite app_nil_r.
  - rewrite replay_cons, IH. destruct e; cbn; try reflexivity.
    now rewrite <- app_assoc.
Qed.

Lemma clock_replay gid es : forall st,
  clock (replay gid es st) = clock st + elapsed es.
Proof.
  unfold elapsed. induction es as [|e es IH]; intros st.
  - simpl. lia.
  - rewrite replay_cons, IH.
    destruct e; cbn [sleeps fold_right];
      cbv [exec do_event addLog sleep push_result modify snd];
      cbn [clock set_clock set_timers set_draws set_logs set_results
           set_runningStep]; ring.
Qed.

Lemma results_replay gid es : forall st,
  results (replay gid es st) = verdicts (clock st) es (results st).
Proof.
  induction es as [|e es IH]; intros st; [reflexivity|].
  rewrite replay_cons, IH. destruct e; reflexivity.
Qed.

Lemma frame_replay gid es : forall st,
  scenarios (replay gid es st) = scenarios st
  /\ selectedScenario (replay gid es st) = selectedScenario st
  /\ paramValues (replay gid es st) = paramValues st
  /\ validationErrors (replay gid es st) = validationErrors st.
Proof.
  induction es as [|e es IH]; intros st; [now repeat split|].
  rewrite replay_cons. destruct (IH (exec (do_event gid e) st)) as (A & B & C & D).
  rewrite A, B, C, D. destruct e; now repeat split.
Qed.

Lemma entries_app gid es1 : forall es2 n t,
  entries gid n t (es1 ++ es2)
  = (entries gid n t es1
     ++ entries gid (n + List.length (log_dirs es1)) (t + elapsed es1) es2)%list.
Proof.
  unfold elapsed.
  induction es1 as [|e es1 IH]; intros es2 n t.
  - cbn [app entries log_dirs sleeps fold_right List.length].
    now rewrite Nat.add_0_r, Z.add_0_r.
  - destruct e; cbn [app entries log_dirs sleeps fold_right List.length];
      rewrite IH; cbn [app];
      rewrite ?Nat.add_succ_r, ?Z.add_assoc; reflexivity.
Qed.

Lemma log_dirs_entries gid es : forall n t,
  map direction (entries gid n t es) = log_dirs es.
Proof.
  induction es as [|e es IH]; intros n t; [reflexivity|].
  destruct e; cbn; now rewrite ?IH.
Qed.

Lemma log_dirs_app es1 es2 :
  log_dirs (es1 ++ es2) = (log_dirs es1 ++ log_dirs es2)%list.
Proof.
  induction es1 as [|e es1 IH]; [reflexivity|].
  destruct e; cbn; now rewrite IH.
Qed.

Lemma sleeps_app es1 es2 : sleeps (es1 ++ es2) = (sleeps es1 ++ sleeps es2)%list.
Proof.
  induction es1 as [|e es1 IH]; [reflexivity|].
  destruct e; cbn; now rewrite IH.
Qed.

Lemma verdicts_app es1 : forall es2 t acc,
  verdicts t (es1 ++ es2) acc
  = verdicts (t + elapsed es1) es2 (verdicts t es1 acc).
Proof.
  unfold elapsed.
  induction es1 as [|e es1 IH]; intros es2 t acc.
  - cbn [app verdicts sleeps fold_right]. now rewrite Z.add_0_r.
  - destruct e; cbn [app verdicts sleeps fold_right]; rewrite IH;
      rewrite ?Z.add_assoc; reflexivity.
Qed.

Lemma verdicts_none es : forall t acc,
  no_verdict es = true -> verdicts t es acc = acc.
Proof.
  induction es as [|e es IH]; intros t acc H; [reflexivity|].
  destruct e; cbn in *; auto; discriminate.
Qed.

Lemma no_verdict_app es1 es2 :
  no_verdict (es1 ++ es2) = no_verdict es1 && no_verdict es2.
Proof.
  induction es1 as [|e es1 IH]; [reflexivity|]. destruct e; cbn; auto.
Qed.

Lemma step_trace_no_verdict etext pv step :
  no_verdict (snd (step_trace etext pv step)) = true.
Proof.
  unfold step_trace, reply_trace.
  destruct (resolveBody _ _ _); [|reflexivity].
  destruct (waitBit (messageToSend step) && _); [reflexivity|].
  destruct (waitBit (messageToSend step)), (expectedResponseSxFy step) as [r|];
    try reflexivity;
    destruct (negb (is_empty r)); try reflexivity;
    destruct (obj_get r MOCK_RESPONSES) as [reply|]; try reflexivity;
    destruct (truthy reply); reflexivity.
Qed.

Lemma steps_trace_no_verdict etext pv steps : forall i allPassed,
  no_verdict (snd (steps_trace etext pv i steps allPassed)) = true.
Proof.
  induction steps as [|step rest IH]; intros i allPassed; [reflexivity|].
  cbn [steps_trace].
  pose proof (step_trace_no_verdict etext pv step) as Hs.
  destruct (step_trace etext pv step) as [o es]. cbn [snd] in Hs.
  destruct (is_malformed o); [exact Hs|].
  specialize (IH (S i) (allPassed && outcome_ok o)).
  destruct (steps_trace etext pv (S i) rest (allPassed && outcome_ok o))
    as [[os p] es'].
  cbn [snd] in *. cbn [no_verdict]. now rewrite no_verdict_app, Hs, IH.
Qed.

Lemma run_trace_started etext scenario st :
  can_start st ->
  run_trace etext scenario st
  = (fst (fst (steps_trace etext (paramValues st) 0 (steps scenario) true)),
     (EvRunning (Some O) :: starting_entry scenario
      :: snd (steps_trace etext (paramValues st) 0 (steps scenario) true)
      ++ [EvRunning None;
          EvVerdict (title scenario)
            (snd (fst (steps_trace etext (paramValues st) 0 (steps scenario) true)));
          complete_entry
            (snd (fst (steps_trace etext (paramValues st) 0 (steps scenario) true)))])%list).
Proof.
  intros [Hr Hv]. unfold run_trace. rewrite Hr, Hv. cbn [is_nil negb].
  now destruct (steps_trace _ _ _ _ _) as [[os p] es].
Qed.

(** The verdict of a run that starts is pushed on the history; it carries the
    scenario's title, the time at the end of the last step and the final
    [allPassed]. *)
Lemma results_runScenario gid etext scenario st :
  can_start st ->
  results (runScenario gid etext scenario st)
  = {| scenarioId := title scenario;
       timestamp :=
         clock st
         + elapsed (snd (steps_trace etext (paramValues st) 0 (steps scenario) true));
       passed := snd (fst (steps_trace etext (paramValues st) 0 (steps scenario) true));
       notes :=
         if snd (fst (steps_trace etext (paramValues st) 0 (steps scenario) true))
         then "All steps completed successfully."
         else "Scenario failed due to errors or timeouts." |}
    :: results st.
Proof.
  intros H. rewrite runScenario_replay, results_replay, run_trace_started by exact H.
  cbn [snd verdicts]. rewrite verdicts_app.
  rewrite (verdicts_none (snd (steps_trace _ _ _ _ _)))
    by apply steps_trace_no_verdict.
  reflexivity.
Qed.

Lemma steps_trace_outcomes etext pv steps : forall i allPassed,
  fst (fst (steps_trace etext pv i steps allPassed))
  = through_break (map (step_outcome etext pv) steps).
Proof.
  induction steps as [|step rest IH]; intros i allPassed; [reflexivity|].
  cbn [steps_trace map through_break].
  change (step_outcome etext pv step) with (fst (step_trace etext pv step)).
  destruct (step_trace etext pv step) as [o es]. cbn [fst].
  destruct (is_malformed o); [reflexivity|].
  specialize (IH (S i) (allPassed && outcome_ok o)).
  destruct (steps_trace etext pv (S i) rest (allPassed && outcome_ok o))
    as [[os p] es'].
  cbn [fst] in *. rewrite IH. reflexivity.
Qed.

Lemma steps_trace_passed etext pv steps : forall i allPassed,
  snd (fst (steps_trace etext pv i steps allPassed))
  = allPassed
    && forallb outcome_ok (fst (fst (steps_trace etext pv i steps allPassed))).
Proof.
  induction steps as [|step rest IH]; intros i allPassed.
  - cbn. now rewrite andb_true_r.
  - cbn [steps_trace].
    destruct (step_trace etext pv step) as [o es].
    destruct (is_malformed o).
    + cbn. now rewrite andb_true_r.
    + specialize (IH (S i) (allPassed && outcome_ok o)).
      destruct (steps_trace etext pv (S i) rest (allPassed && outcome_ok o))
        as [[os p] es'].
      cbn [fst snd forallb] in *. rewrite IH. now rewrite andb_assoc.
Qed.

Lemma run_outcomes gid etext scenario st :
  can_start st ->
  fst (run gid etext scenario st)
  = through_break (map (step_outcome etext (paramValues st)) (steps scenario)).
Proof.
  intros H. rewrite run_eq_trace, run_trace_started by exact H.
  cbn [fst]. apply steps_trace_outcomes.
Qed.

(** ** Timeouts *)

Lemma timer_delay_in_range (ms : Z) :
  0 <= ms < 2 ^ 31 -> timer_delay ms = ms.
Proof.
  intros H. unfold timer_delay, to_int32.
  rewrite Z.mod_small by lia. lia.
Qed.

Lemma step_trace_timed_out etext pv step msgBody :
  waitBit (messageToSend step) = true ->
  simulateDelayMs step > timeoutMs step ->
  resolveBody etext pv (body (messageToSend step)) = Normal msgBody ->
  step_trace etext pv step
  = (TimedOut,
     [sent_entry step msgBody; EvSleep (timeoutMs step);
      timeout_entry step; EvSleep 500]).
Proof.
  intros Hw Hd Hr. unfold step_trace. rewrite Hr, Hw.
  apply Z.gt_lt, Z.ltb_lt in Hd. rewrite Z.gtb_ltb, Hd. reflexivity.
Qed.

Lemma through_break_reached (pre : list StepOutcome) (o : StepOutcome)
  (post : list StepOutcome) :
  forallb (fun x => negb (is_malformed x)) pre = true ->
  exists tail, through_break (pre ++ o :: post) = (pre ++ o :: tail)%list.
Proof.
  induction pre as [|x pre IH]; cbn [forallb app through_break]; intros H.
  - destruct (is_malformed o); eauto.
  - apply andb_prop in H as [Hx Hp]. destruct (is_malformed x); [discriminate|].
    destruct (IH Hp) as [tail Ht]. exists tail. now rewrite Ht.
Qed.

Lemma forallb_map_eq {A B : Type} (f : A -> B) (p : B -> bool) (l : list A) :
  forallb p (map f l) = forallb (fun x => p (f x)) l.
Proof. induction l as [|x l IH]; cbn; now rewrite ?IH. Qed.

(** C1. A step that expects a reply and whose simulated delay exceeds its
    timeout budget, once its message is resolved and sent: the engine waits
    on a timer armed with the timeout budget (not the simulated delay), then
    logs the T3-timeout error, then pauses 500 ms; the error entry is stamped
    [timer_delay (timeoutMs step)] after the sent entry, which is the budget
    itself for a budget a timer can hold; the outcome is TimedOut, [allPassed]
    becomes false, and the verdict of every run that reaches the step is a
    failure. *)
Theorem timed_out_step gid etext pv step allPassed st msgBody :
  waitBit (messageToSend step) = true ->
  simulateDelayMs step > timeoutMs step ->
  resolveBody etext pv (body (messageToSend step)) = Normal msgBody ->
  let r := run_step gid etext pv step allPassed st in
  fst r = (TimedOut, false, Continue)
  /\ timers (snd r) = (timers st ++ [timeoutMs step; 500])%list
  /\ logs (snd r)
     = (logs st
        ++ [ mk_entry gid (draws st) (clock st) HOST_TO_EQP
               (sxfy_of (messageToSend step) ++ " "
                ++ msg_name (messageToSend step) ++ " [W]")
               msgBody info;
             mk_entry gid (S (draws st))
               (clock st + timer_delay (timeoutMs step)) ERROR
               ("T3 Timeout: No response received within "
                ++ num (timeoutMs step) ++ "ms (Simulated Delay: "
                ++ num (simulateDelayMs step) ++ "ms)")
               empty_object error ])%list
  /\ (0 <= timeoutMs step < 2 ^ 31 -> timer_delay (timeoutMs step) = timeoutMs step)
  /\ (forall scenario st0 pre post,
        can_start st0 -> paramValues st0 = pv ->
        steps scenario = (pre ++ step :: post)%list ->
        forallb (fun s => negb (is_malformed (step_outcome etext pv s))) pre = true ->
        In TimedOut (fst (run gid etext scenario st0))
        /\ exists v, results (runScenario gid etext scenario st0) = v :: results st0
                     /\ passed v = false).
Proof.
  intros Hw Hd Hr r. subst r. rewrite run_step_trace.
  unfold step_outcome. rewrite (step_trace_timed_out _ _ _ _ Hw Hd Hr).
  cbn [fst snd outcome_ok is_malformed]. rewrite andb_false_r.
  split; [reflexivity|]. split; [now rewrite timers_replay|].
  split.
  { rewrite logs_replay. unfold sent_entry, timeout_entry. rewrite Hw.
    reflexivity. }
  split; [apply timer_delay_in_range|].
  intros scenario st0 pre post Hs Hpv Hsteps Hpre.
  assert (Ho : step_outcome etext pv step = TimedOut)
    by (unfold step_outcome; now rewrite (step_trace_timed_out _ _ _ _ Hw Hd Hr)).
  destruct (through_break_reached (map (step_outcome etext pv) pre) TimedOut
              (map (step_outcome etext pv) post)) as [tail Ht].
  { rewrite forallb_map_eq. exact Hpre. }
  assert (Hos : fst (run gid etext scenario st0)
                = (map (step_outcome etext pv) pre ++ TimedOut :: tail)%list).
  { rewrite run_outcomes, Hpv, Hsteps, map_app by exact Hs. cbn [map].
    now rewrite Ho. }
  split.
  - rewrite Hos. apply in_or_app. right. now left.
  - rewrite results_runScenario by exact Hs. eexists. split; [reflexivity|].
    cbn [passed]. rewrite steps_trace_passed, steps_trace_outcomes.
    rewrite <- Hpv in Hos. rewrite <- run_outcomes with (gid := gid) by exact Hs.
    rewrite Hos, forallb_app. cbn. now rewrite andb_false_r.
Qed.

Lemma timed_out_step_witness :
  fst (run_step sample_id sample_error [] slow_step true initial_state)
  = (TimedOut, false, Continue).
Proof.
  exact (proj1 (timed_out_step sample_id sample_error [] slow_step true
                  initial_state (JObj [("COMMACK", JInt 0)])
                  eq_refl eq_refl eq_refl)).
Defined.

(** ** Aggregation and abort policy *)

(** The loop over a list of steps none of which is malformed goes on with
    what follows them. *)
Lemma steps_trace_app etext pv pre rest : forall i allPassed,
  forallb (not_malformed etext pv) pre = true ->
  steps_trace etext pv i (pre ++ rest) allPassed
  = (let '(os1, p1, es1) := steps_trace etext pv i pre allPassed in
     let '(os2, p2, es2) := steps_trace etext pv (i + List.length pre) rest p1 in
     (os1 ++ os2, p2, es1 ++ es2))%list.
Proof.
  induction pre as [|s pre IH]; intros i allPassed H.
  - cbn [app steps_trace List.length]. rewrite Nat.add_0_r.
    now destruct (steps_trace etext pv i rest allPassed) as [[os p] es].
  - cbn [forallb] in H. apply andb_prop in H as [Hs Hp].
    unfold not_malformed, step_outcome in Hs.
    cbn [app steps_trace List.length].
    destruct (step_trace etext pv s) as [o es]. cbn [fst] in Hs.
    destruct (is_malformed o); [discriminate|].
    rewrite (IH (S i) _ Hp). rewrite Nat.add_succ_r. cbn [Nat.add].
    destruct (steps_trace etext pv (S i) pre (allPassed && outcome_ok o))
      as [[os1 p1] es1].
    destruct (steps_trace etext pv (S (i + List.length pre)) rest p1)
      as [[os2 p2] es2].
    cbn [app]. now rewrite <- app_assoc.
Qed.

Lemma step_trace_malformed etext pv step e :
  resolveBody etext pv (body (messageToSend step)) = Throw e ->
  step_trace etext pv step = (MalformedTemplate, [malformed_entry step e]).
Proof. intros H. unfold step_trace. now rewrite H. Qed.

Lemma steps_trace_malformed etext pv step e post i allPassed :
  resolveBody etext pv (body (messageToSend step)) = Throw e ->
  steps_trace etext pv i (step :: post) allPassed
  = ([MalformedTemplate], false, [EvRunning (Some i); malformed_entry step e]).
Proof.
  intros H. cbn [steps_trace]. rewrite (step_trace_malformed _ _ _ _ H).
  cbn. now rewrite andb_false_r.
Qed.





Lemma steps_trace_cut etext pv pre step e post allPassed :
  forallb (not_malformed etext pv) pre = true ->
  resolveBody etext pv (body (messageToSend step)) = Throw e ->
  steps_trace etext pv 0 (pre ++ step :: post) allPassed
  = ((fst (fst (steps_trace etext pv 0 pre allPassed)) ++ [MalformedTemplate])%list,
     false,
     (snd (steps_trace etext pv 0 pre allPassed)
      ++ [EvRunning (Some (List.length pre)); malformed_entry step e])%list).
Proof.
  intros Hpre He. rewrite steps_trace_app by exact Hpre.
  destruct (steps_trace etext pv 0 pre allPassed) as [[os1 p1] es1].
  now rewrite (steps_trace_malformed _ _ _ _ _ _ _ He).
Qed.



(** ** Parameters that validate and still break the body *)

(** C9. Validation does not guarantee resolution.  With the string parameter
    OBJID of "E142: Trace Data Setup" set to a value holding a double quote
    (or ending in a backslash), the value is reported valid and the
    validation-error map is empty, yet the substituted text is rejected by
    the parser at every fuel, [resolveBody] throws, and the run consists of
    the start entry, the parse error for the step and the failed completion,
    with a failed verdict. *)
Theorem valid_parameters_may_not_resolve :
  forall value, value = quote_value \/ value = backslash_value ->
    param_type OBJID = Some STRING
    /\ validateParameter OBJID value = None
    /\ validationErrors (trace_setup_with value) = []
    /\ (forall fuel, parse_value fuel (substituted_text value) = None)
    /\ (forall etext,
          resolveBody etext (paramValues (trace_setup_with value))
            (body (messageToSend trace_setup_step))
          = Throw (etext (substituted_text value)))
    /\ (forall gid etext,
          map log_view
            (logs (runScenario gid etext e142_trace_setup (trace_setup_with value)))
          = [ (INFO, "Starting Scenario: E142: Trace Data Setup (S14F11)");
              (ERROR, "Failed to parse message body for Get Attr Names (S14F11)");
              (INFO, "Scenario Complete: FAILED") ]
          /\ map passed
               (results (runScenario gid etext e142_trace_setup
                           (trace_setup_with value)))
             = [false]).
Proof.
  intros value [-> | ->].
  - split; [reflexivity|]. split; [reflexivity|]. split; [reflexivity|].
    split.
    { intros fuel. do 4 (destruct fuel as [|fuel]; [reflexivity|]).
      reflexivity. }
    split.
    { intros etext. reflexivity. }
    intros gid etext. split; reflexivity.
  - split; [reflexivity|]. split; [reflexivity|]. split; [reflexivity|].
    split.
    { intros fuel. do 4 (destruct fuel as [|fuel]; [reflexivity|]).
      reflexivity. }
    split.
    { intros etext. reflexivity. }
    intros gid etext. split; reflexivity.
Qed.

Lemma valid_parameters_may_not_resolve_witness :
  validateParameter OBJID quote_value = None
  /\ forall fuel, parse_value fuel (substituted_text quote_value) = None.
Proof.
  destruct (valid_parameters_may_not_resolve quote_value (or_introl eq_refl))
    as (_ & Hv & _ & Hp & _).
  exact (conj Hv Hp).
Defined.

(** ** The verdict record *)

(** C8, as stated, fails: the verdict of a run of "E9: Establish
    Communications" carries the scenario's title, which differs from its
    [id]. *)
Lemma verdict_scenarioId_is_not_id :
  exists v rest,
    results (runScenario sample_id sample_error e9_comm_est initial_state)
    = v :: rest
    /\ scenarioId v = "E9: Establish Communications"
    /\ id e9_comm_est = "e9-comm-est"
    /\ scenarioId v <> id e9_comm_est.
Proof.
  rewrite results_runScenario by (split; reflexivity).
  eexists _, _. split; [reflexivity|]. cbn [scenarioId].
  repeat split. discriminate.
Qed.

(** C8, amended.  The verdict a run pushes on the history carries the
    executed scenario's [title] in its [scenarioId] field, the time at which
    the loop ended, the final [allPassed] and the note that goes with it; the
    earlier verdicts are kept behind it. *)
Theorem verdict_carries_title gid etext scenario st :
  can_start st ->
  exists t p,
    results (runScenario gid etext scenario st)
    = {| scenarioId := title scenario;
         timestamp := t;
         passed := p;
         notes := if p then "All steps completed successfully."
                  else "Scenario failed due to errors or timeouts." |}
      :: results st
    /\ clock st <= t
    /\ p = forallb outcome_ok (fst (run gid etext scenario st)).
Proof.
  intros Hs. rewrite results_runScenario by exact Hs.
  eexists _, _. split; [reflexivity|]. split.
  - assert (H : forall es, 0 <= elapsed es).
    { unfold elapsed. intros es.
      induction (sleeps es) as [|ms l IH]; cbn [fold_right]; [lia|].
      assert (Hm : 0 <= timer_delay ms) by apply Z.le_max_l.
      revert IH Hm. generalize (fold_right (fun ms acc => timer_delay ms + acc) 0 l).
      generalize (timer_delay ms). intros; lia. }
    specialize (H (snd (steps_trace etext (paramValues st) 0 (steps scenario) true))).
    revert H. generalize (elapsed (snd (steps_trace etext (paramValues st) 0
                                          (steps scenario) true))).
    generalize (clock st). intros; lia.
  - rewrite steps_trace_passed, run_outcomes, steps_trace_outcomes by exact Hs.
    reflexivity.
Qed.

Lemma verdict_carries_title_witness :
  exists t p,
    results (runScenario sample_id sample_error e9_comm_est initial_state)
    = {| scenarioId := "E9: Establish Communications";
         timestamp := t;
         passed := p;
         notes := if p then "All steps completed successfully."
                  else "Scenario failed due to errors or timeouts." |}
      :: [].
Proof.
  destruct (verdict_carries_title sample_id sample_error e9_comm_est initial_state
              (conj eq_refl eq_refl)) as (t & p & H & _).
  exists t, p. exact H.
Defined.

(** ** Clearing the session *)

Lemma logs_addLog gid dir text data ty st :
  logs (exec (addLog gid dir text data ty) st)
  = (logs st ++ [mk_entry gid (draws st) (clock st) dir text data ty])%list.
Proof. reflexivity. Qed.

Lemma logs_handleImportScenarios gid etext file st :
  exists l, logs (handleImportScenarios gid etext file st) = (logs st ++ l)%list.
Proof.
  unfold handleImportScenarios. destruct file as [text|].
  - destruct (JSON_parse text) as [[| | | |imported|]|];
      try (eexists; apply logs_addLog).
    rewrite logs_addLog. destruct (selectedScenario _); eexists; reflexivity.
  - exists []. now rewrite app_nil_r.
Qed.

Lemma verdicts_extend es : forall t acc, exists r, verdicts t es acc = (r ++ acc)%list.
Proof.
  induction es as [|e es IH]; intros t acc; [now exists []|].
  destruct e; cbn [verdicts]; try apply IH.
  destruct (IH t ({| scenarioId := scenario_title; timestamp := t;
                     passed := allPassed;
                     notes := if allPassed
                              then "All steps completed successfully."
                              else "Scenario failed due to errors or timeouts." |}
                  :: acc)) as [r Hr].
  exists (r ++ [{| scenarioId := scenario_title; timestamp := t;
                   passed := allPassed;
                   notes := if allPassed
                            then "All steps completed successfully."
                            else "Scenario failed due to errors or timeouts." |}])%list.
  now rewrite Hr, <- app_assoc.
Qed.

Lemma results_handleImportScenarios gid etext file st :
  results (handleImportScenarios gid etext file st) = results st.
Proof.
  unfold handleImportScenarios. destruct file as [text|]; [|reflexivity].
  destruct (JSON_parse text) as [[| | | |imported|]|]; try reflexivity.
  cbn. now destruct (selectedScenario st).
Qed.

(** C10. [clearLogs] empties the transcript and the verdict history together
    and touches nothing else; and no operation of the application shortens
    the transcript otherwise: each of them either only appends to the
    transcript and only pushes on the history, or leaves both the transcript
    and the history empty. *)
Theorem clearLogs_clears_both gid etext (st : State) (a : Action) :
  (logs (clearLogs st) = [] /\ results (clearLogs st) = []
   /\ scenarios (clearLogs st) = scenarios st
   /\ selectedScenario (clearLogs st) = selectedScenario st
   /\ runningStep (clearLogs st) = runningStep st
   /\ paramValues (clearLogs st) = paramValues st
   /\ validationErrors (clearLogs st) = validationErrors st)
  /\ ((exists l r,
         logs (perform gid etext a st) = (logs st ++ l)%list
         /\ results (perform gid etext a st) = (r ++ results st)%list)
      \/ (a = ClearLogs
          /\ logs (perform gid etext a st) = []
          /\ results (perform gid etext a st) = [])).
Proof.
  split; [now repeat split|].
  destruct a as [s|p v|sc| | |file]; cbn [perform].
  - left. exists [], []. now rewrite app_nil_r.
  - left. exists [], []. rewrite app_nil_r. unfold handleParamChange.
    now destruct (validateParameter p v).
  - left. rewrite runScenario_replay, logs_replay, results_replay.
    destruct (verdicts_extend (snd (run_trace etext sc st)) (clock st) (results st))
      as [r Hr].
    rewrite Hr. eauto.
  - right. now repeat split.
  - left. eexists _, []. split; [apply logs_addLog|reflexivity].
  - left. destruct (logs_handleImportScenarios gid etext file st) as [l Hl].
    exists l, []. split; [exact Hl|]. apply results_handleImportScenarios.
Qed.

(** ** Catalog import *)

Lemma builtin_catalog_well_formed :
  forallb is_TestScenario (scenarios initial_state) = true.
Proof. vm_compute. reflexivity. Qed.

(** C5, as stated, fails: the payload [[1]] is accepted, and the catalog
    becomes a list whose only element is the number 1, which is no Scenario
    record. *)
Lemma import_accepts_non_scenarios :
  scenarios (handleImportScenarios sample_id sample_error (Some "[1]") initial_state)
  = [JInt 1]
  /\ forallb is_TestScenario
       (scenarios (handleImportScenarios sample_id sample_error (Some "[1]")
                     initial_state))
     = false
  /\ map log_view
       (logs (handleImportScenarios sample_id sample_error (Some "[1]")
                initial_state))
     = [(INFO, "Imported 1 scenarios successfully.")].
Proof. vm_compute. repeat split. Qed.

(** C5, amended.  Import accepts a payload exactly when it parses as an
    array, whatever its elements: the catalog then becomes the list of these
    elements, wholesale, the selection is dropped and a success entry is
    logged.  A payload that parses as anything else, or does not parse, is
    rejected with one error entry, and the catalog, the selection, the
    parameter values, the validation errors and the history are as before. *)
Theorem import_replaces_or_rejects gid etext text st :
  (forall imported,
      JSON_parse text = Some (JArr imported) ->
      let st' := handleImportScenarios gid etext (Some text) st in
      scenarios st' = imported
      /\ selectedScenario st' = None
      /\ results st' = results st
      /\ logs st'
         = (logs st
            ++ [mk_entry gid (draws st) (clock st) INFO
                  ("Imported " ++ num (Z.of_nat (List.length imported))
                   ++ " scenarios successfully.")
                  empty_object success])%list)
  /\ ((forall imported, JSON_parse text <> Some (JArr imported)) ->
      let st' := handleImportScenarios gid etext (Some text) st in
      scenarios st' = scenarios st
      /\ selectedScenario st' = selectedScenario st
      /\ paramValues st' = paramValues st
      /\ validationErrors st' = validationErrors st
      /\ results st' = results st
      /\ exists entry,
           logs st' = (logs st ++ [entry])%list
           /\ direction entry = ERROR /\ log_type entry = error
           /\ summary entry
              = match JSON_parse text with
                | Some _ => "Import failed: Invalid JSON format. Expected an array."
                | None => "Import failed: Could not parse JSON."
                end).
Proof.
  split.
  - intros imported H st'. subst st'. unfold handleImportScenarios. rewrite H.
    destruct (selectedScenario (set_scenarios imported st)) eqn:E;
      cbn in E; rewrite ?E; now repeat split.
  - intros H st'. subst st'. unfold handleImportScenarios.
    destruct (JSON_parse text) as [[| | | |imported|]|];
      try (repeat split; eexists; repeat split; reflexivity).
    exfalso. now apply (H imported).
Qed.

Lemma import_replaces_or_rejects_witness :
  scenarios (handleImportScenarios sample_id sample_error (Some "{}") initial_state)
  = scenarios initial_state
  /\ scenarios (handleImportScenarios sample_id sample_error (Some "[]") initial_state)
     = [].
Proof.
  split.
  - refine (proj1 (proj2 (import_replaces_or_rejects sample_id sample_error
                            "{}" initial_state) _)).
    intros imported H. vm_compute in H. discriminate H.
  - exact (proj1 (proj1 (import_replaces_or_rejects sample_id sample_error
                           "[]" initial_state) [] eq_refl)).
Defined.

(** ** [JSON.parse] after [JSON.stringify] *)

Lemma append_assoc (a b c : string) : (a ++ b) ++ c = a ++ (b ++ c).
Proof. induction a as [|x a IH]; cbn; now rewrite ?IH. Qed.

Lemma append_nil_r (a : string) : a ++ "" = a.
Proof. induction a as [|x a IH]; cbn; now rewrite ?IH. Qed.

Lemma length_append (a b : string) :
  String.length (a ++ b) = (String.length a + String.length b)%nat.
Proof. induction a as [|x a IH]; cbn; now rewrite ?IH. Qed.

(** Reading back one escaped character. *)
Lemma parse_escape_char (c : ascii) (tail : string) :
  parse_string_chars (escape_char c ++ tail)
  = cons_char c (parse_string_chars tail).
Proof.
  destruct c as [[] [] [] [] [] [] [] []]; reflexivity.
Qed.

Lemma parse_escape_string (s rest : string) :
  parse_string_chars (escape_string s ++ String dquote rest) = Some (s, rest).
Proof.
  induction s as [|c s IH]; [reflexivity|].
  cbn [escape_string]. now rewrite append_assoc, parse_escape_char, IH.
Qed.

Lemma parse_quoted (s rest : string) :
  exists tail,
    QuoteJSONString s ++ rest = String dquote tail
    /\ parse_string_chars tail = Some (s, rest).
Proof.
  exists (escape_string s ++ String dquote rest). split.
  - unfold QuoteJSONString. cbn [append]. now rewrite append_assoc.
  - apply parse_escape_string.
Qed.

Lemma delimited_cases (rest : string) :
  delimited rest = true ->
  rest = "" \/ exists c r, rest = String c r /\ (c = "," \/ c = "]" \/ c = "}")%char.
Proof.
  destruct rest as [|c r]; [now left|]. cbn. intros H. right. exists c, r.
  split; [reflexivity|].
  apply orb_prop in H as [H|H]; [apply orb_prop in H as [H|H]|];
    apply Ascii.eqb_eq in H; auto.
Qed.

Lemma read_digits_delimited (rest : string) :
  delimited rest = true -> read_digits rest = ("", rest).
Proof.
  intros H. destruct (delimited_cases rest H) as [->|(c & r & -> & [->|[->| ->]])];
    reflexivity.
Qed.

Lemma read_exponent_delimited (rest : string) :
  delimited rest = true -> read_exponent rest = (0, rest).
Proof.
  intros H. destruct (delimited_cases rest H) as [->|(c & r & -> & [->|[->| ->]])];
    reflexivity.
Qed.

Lemma read_digits_uint (d : Decimal.uint) (rest : string) :
  delimited rest = true ->
  read_digits (NilEmpty.string_of_uint d ++ rest)
  = (NilEmpty.string_of_uint d, rest).
Proof.
  intros H. induction d; cbn; rewrite ?IHd; try reflexivity.
  now apply read_digits_delimited.
Qed.

Lemma digits_value_uint (d : Decimal.uint) :
  digits_value (NilEmpty.string_of_uint d) = N.of_uint d.
Proof. unfold digits_value. now rewrite NilEmpty.usu. Qed.

(** The digits of a positive number start with a digit other than 0. *)
Lemma to_uint_head (p : positive) :
  exists c tail,
    NilZero.string_of_uint (Pos.to_uint p) = String c tail
    /\ NilEmpty.string_of_uint (Pos.to_uint p) = String c tail
    /\ is_digit c = true /\ Ascii.eqb c "0" = false.
Proof.
  pose proof (DecimalPos.Unsigned.to_of (Pos.to_uint p)) as H.
  rewrite DecimalPos.Unsigned.of_to in H. cbn [N.to_uint] in H.
  pose proof (DecimalPos.Unsigned.to_uint_nonzero p) as Hz.
  pose proof (DecimalPos.Unsigned.to_uint_nonnil p) as Hn.
  assert (Hh : Decimal.nzhead (Pos.to_uint p) = Pos.to_uint p).
  { unfold Decimal.unorm in H.
    destruct (Decimal.nzhead (Pos.to_uint p)) eqn:E; congruence. }
  pose proof (DecimalFacts.nzhead_nonzero (Pos.to_uint p)) as Hd.
  rewrite Hh in Hd.
  destruct (Pos.to_uint p) as [|u|u|u|u|u|u|u|u|u|u]; try congruence;
    try (eexists _, _; repeat split; reflexivity).
Qed.

Lemma N_digits_pos (p : positive) (rest : string) :
  delimited rest = true ->
  exists c tail,
    N_digits (Npos p) = String c tail
    /\ is_digit c = true /\ Ascii.eqb c "0" = false
    /\ read_digits (N_digits (Npos p) ++ rest) = (N_digits (Npos p), rest)
    /\ digits_value (N_digits (Npos p)) = Npos p.
Proof.
  intros H. unfold N_digits. cbn [N.to_uint].
  destruct (to_uint_head p) as (c & tail & E1 & E2 & Hc & H0).
  exists c, tail. rewrite E1 at 1. repeat split; try assumption.
  - rewrite E1, <- E2. now apply read_digits_uint.
  - rewrite E1, <- E2, digits_value_uint.
    change (N.of_uint (N.to_uint (Npos p)) = Npos p).
    apply DecimalN.Unsigned.of_to.
Qed.

Lemma mkFin_integer (m : Z) : mkFin m 0 = Fin m 0.
Proof.
  unfold mkFin. destruct (m =? 0) eqn:E.
  - apply Z.eqb_eq in E. now subst.
  - cbn. now rewrite Z.mul_1_r.
Qed.

Lemma digit_not_minus (c : ascii) : is_digit c = true -> Ascii.eqb c "-" = false.
Proof. destruct c as [[] [] [] [] [] [] [] []]; cbn; congruence. Qed.

Lemma fraction_delimited (rest : string) :
  delimited rest = true ->
  match rest with
  | String c r =>
      if Ascii.eqb c "." then
        let (f, r') := read_digits r in
        if is_empty f then ("", rest) else (f, r')
      else ("", rest)
  | "" => ("", rest)
  end = ("", rest).
Proof.
  intros H. destruct (delimited_cases rest H) as [->|(c & r & -> & [->|[->| ->]])];
    reflexivity.
Qed.

Lemma parse_number_digits (neg : bool) (c : ascii) (tail rest : string) :
  is_digit c = true -> Ascii.eqb c "0" = false ->
  read_digits (String c tail ++ rest) = (String c tail, rest) ->
  delimited rest = true ->
  parse_number ((if neg then "-" else "") ++ String c tail ++ rest)
  = Some (decimal_value neg (String c tail) "" 0, rest).
Proof.
  intros Hc H0 Hr H. unfold parse_number.
  destruct neg; cbn [append].
  - change (Ascii.eqb "-" "-") with true. cbv iota. rewrite H0.
    change (String c (tail ++ rest)) with (String c tail ++ rest).
    rewrite Hr. cbn [is_empty].
    now rewrite (fraction_delimited rest H), (read_exponent_delimited rest H).
  - rewrite (digit_not_minus c Hc). rewrite H0.
    change (String c (tail ++ rest)) with (String c tail ++ rest).
    rewrite Hr. cbn [is_empty].
    now rewrite (fraction_delimited rest H), (read_exponent_delimited rest H).
Qed.

(** Reading back the digits of an integer. *)
Lemma parse_number_integer (z : Z) (rest : string) :
  delimited rest = true ->
  parse_number (Z_digits z ++ rest) = Some (Fin z 0, rest).
Proof.
  intros H. unfold Z_digits. destruct z as [|p|p].
  - cbn. unfold parse_number. cbn.
    now rewrite (fraction_delimited rest H), (read_exponent_delimited rest H).
  - destruct (N_digits_pos p rest H) as (c & tail & E & Hc & H0 & Hr & Hv).
    cbn [Z.ltb Z.compare Z.abs_N Z.abs Z.to_N]. rewrite E in *.
    pose proof (parse_number_digits false c tail rest Hc H0 Hr H) as Hp.
    cbn [append] in Hp |- *. rewrite Hp.
    unfold decimal_value. rewrite append_nil_r, Hv.
    cbn [String.length Z.of_nat Z.sub Z.opp Z.add]. now rewrite mkFin_integer.
  - destruct (N_digits_pos p rest H) as (c & tail & E & Hc & H0 & Hr & Hv).
    cbn [Z.ltb Z.compare Z.abs_N Z.abs Z.to_N]. rewrite E in *.
    pose proof (parse_number_digits true c tail rest Hc H0 Hr H) as Hp.
    cbn [append] in Hp |- *. rewrite Hp.
    unfold decimal_value. rewrite append_nil_r, Hv.
    cbn [String.length Z.of_nat Z.sub Z.opp Z.add]. now rewrite mkFin_integer.
Qed.

Lemma value_start_facts (c : ascii) :
  value_start c = true ->
  is_json_ws c = false /\ Ascii.eqb c "]" = false /\ Ascii.eqb c "}" = false.
Proof. destruct c as [[] [] [] [] [] [] [] []]; cbn; intros H; auto; discriminate. Qed.

Lemma number_start_facts (c : ascii) :
  is_digit c = true \/ c = "-"%char ->
  value_start c = true
  /\ Ascii.eqb c "{" = false /\ Ascii.eqb c "[" = false
  /\ Ascii.eqb c dquote = false /\ Ascii.eqb c "t" = false
  /\ Ascii.eqb c "f" = false /\ Ascii.eqb c "n" = false.
Proof.
  intros [H| ->]; [|now repeat split].
  destruct c as [[] [] [] [] [] [] [] []]; cbn in *; try discriminate;
    now repeat split.
Qed.

Lemma Z_digits_head (z : Z) :
  exists c tail, Z_digits z = String c tail /\ (is_digit c = true \/ c = "-"%char).
Proof.
  unfold Z_digits. destruct z as [|p|p].
  - exists "0"%char, "". now split; [|left].
  - destruct (N_digits_pos p "" eq_refl) as (c & tail & E & Hc & _).
    exists c, tail. cbn [Z.ltb Z.compare Z.abs_N Z.abs Z.to_N append].
    split; [exact E|now left].
  - eexists _, _. cbn [Z.ltb Z.compare append]. split; [reflexivity|now right].
Qed.

Lemma stringify_integer (z : Z) :
  Z.abs z < 10 ^ 21 -> JSON_stringify (JNum (Fin z 0)) = Z_digits z.
Proof.
  intros H. cbn [JSON_stringify numToString]. destruct (z =? 0) eqn:E.
  - apply Z.eqb_eq in E. now subst.
  - apply Z.ltb_lt in H. now rewrite Z.eqb_refl, H.
Qed.

(** *** Every printed number is a number token *)

Lemma all_digits_app (a b : string) :
  all_digits (a ++ b) = all_digits a && all_digits b.
Proof.
  unfold all_digits.
  induction a as [|c a IH]; cbn [append string_forallb]; [reflexivity|].
  now rewrite IH, andb_assoc.
Qed.

Lemma read_digits_all (ds rest : string) :
  all_digits ds = true -> no_digit_start rest = true ->
  read_digits (ds ++ rest) = (ds, rest).
Proof.
  unfold all_digits.
  induction ds as [|c ds IH]; cbn [append string_forallb read_digits];
    intros H Hr.
  - destruct rest as [|c r]; [reflexivity|].
    cbn [no_digit_start read_digits] in *. now destruct (is_digit c).
  - apply andb_prop in H as [Hc Hd]. now rewrite Hc, IH.
Qed.

Lemma delimited_no_digit (rest : string) :
  delimited rest = true -> no_digit_start rest = true.
Proof.
  intros H. destruct (delimited_cases rest H) as [->|(c & r & -> & [->|[->| ->]])];
    reflexivity.
Qed.

Lemma read_exponent_text (e : option (bool * string)) (rest : string) :
  part_ok (option_map snd e) = true -> delimited rest = true ->
  read_exponent (exp_text e ++ rest) = (exp_value e, rest).
Proof.
  intros He Hr.
  destruct e as [[neg d]|]; cbn [exp_text exp_value option_map snd part_ok] in *.
  - apply andb_prop in He as [Hd Hn].
    assert (Hrd : read_digits (d ++ rest) = (d, rest))
      by (apply read_digits_all; [exact Hd|now apply delimited_no_digit]).
    destruct neg; rewrite !append_assoc; cbn [append read_exponent];
      cbn [Ascii.eqb Bool.eqb orb]; rewrite Hrd;
      destruct d; try discriminate; reflexivity.
  - now apply read_exponent_delimited.
Qed.

Lemma exp_text_start (e : option (bool * string)) (rest : string) :
  delimited rest = true ->
  no_digit_start (exp_text e ++ rest) = true
  /\ match exp_text e ++ rest with
     | String c _ => Ascii.eqb c "." = false
     | "" => True
     end.
Proof.
  intros Hr. destruct e as [[neg d]|]; cbn [exp_text].
  - rewrite append_assoc. cbn. auto.
  - cbn [append]. split; [now apply delimited_no_digit|].
    destruct (delimited_cases rest Hr) as [->|(c & r & -> & [->|[->| ->]])];
      cbn; auto.
Qed.

(** A text of the shape [-]? int (. digits+)? (e [+-] digits+)? is read as a
    number, up to the delimiter that follows it. *)
Lemma parse_number_text (neg : bool) (ip : string) (f : option string)
  (e : option (bool * string)) (rest : string) :
  int_digits ip = true -> part_ok f = true -> part_ok (option_map snd e) = true ->
  delimited rest = true ->
  parse_number ((if neg then "-" else "") ++ ip ++ frac_text f ++ exp_text e ++ rest)
  = Some (decimal_value neg ip (frac_digits f) (exp_value e), rest).
Proof.
  intros Hi Hf He Hr.
  destruct ip as [|c tail]; [discriminate|]. cbn [int_digits] in Hi.
  apply andb_prop in Hi as [Hd Hz].
  assert (Hc : is_digit c = true).
  { unfold all_digits in Hd. cbn in Hd. now apply andb_prop in Hd as [Hc _]. }
  pose proof (read_exponent_text e rest He Hr) as Hex.
  destruct (exp_text_start e rest Hr) as (Hnd & Hdot).
  assert (Hfrac : forall ip',
             (let '(fp, r2) :=
                match frac_text f ++ exp_text e ++ rest with
                | String c0 r =>
                    if Ascii.eqb c0 "." then
                      let (fd, r') := read_digits r in
                      if is_empty fd then ("", frac_text f ++ exp_text e ++ rest)
                      else (fd, r')
                    else ("", frac_text f ++ exp_text e ++ rest)
                | "" => ("", frac_text f ++ exp_text e ++ rest)
                end in
              let (ex, r3) := read_exponent r2 in
              Some (decimal_value neg ip' fp ex, r3))
             = Some (decimal_value neg ip' (frac_digits f) (exp_value e), rest)).
  { intros ip'. destruct f as [d|]; cbn [frac_text frac_digits part_ok] in *.
    - apply andb_prop in Hf as [Hfd Hfn]. rewrite append_assoc.
      cbn [append]. cbn [Ascii.eqb Bool.eqb].
      rewrite (read_digits_all d _ Hfd Hnd).
      destruct d; [discriminate|]. cbn [is_empty]. now rewrite Hex.
    - cbn [append]. revert Hex Hdot.
      destruct (exp_text e ++ rest) as [|c0 r]; intros Hex Hdot.
      + now rewrite Hex.
      + now rewrite Hdot, Hex. }
  unfold parse_number.
  assert (Hint :
            (if Ascii.eqb c "0"
             then ("0", tail ++ frac_text f ++ exp_text e ++ rest)
             else read_digits (String c (tail ++ frac_text f ++ exp_text e ++ rest)))
            = (String c tail, frac_text f ++ exp_text e ++ rest)).
  { destruct (Ascii.eqb c "0") eqn:E0.
    - apply Ascii.eqb_eq in E0. subst c. cbn [negb orb] in Hz.
      rewrite orb_false_r in Hz. apply is_empty_true in Hz. now subst tail.
    - change (String c (tail ++ frac_text f ++ exp_text e ++ rest))
        with (String c tail ++ frac_text f ++ exp_text e ++ rest).
      apply read_digits_all; [exact Hd|].
      destruct f as [d|]; cbn [frac_text]; [now rewrite append_assoc|].
      exact Hnd. }
  destruct neg; cbn [append].
  - change (Ascii.eqb "-" "-") with true. cbv iota.
    rewrite Hint. cbn [is_empty]. apply Hfrac.
  - rewrite (digit_not_minus c Hc).
    rewrite Hint. cbn [is_empty]. apply Hfrac.
Qed.

Lemma all_digits_uint (d : Decimal.uint) :
  all_digits (NilEmpty.string_of_uint d) = true.
Proof. induction d; cbn; auto. Qed.

Lemma all_digits_N (n : N) : all_digits (N_digits n) = true.
Proof.
  unfold N_digits, NilZero.string_of_uint.
  destruct (N.to_uint n) eqn:E; try (rewrite <- E; apply all_digits_uint).
  reflexivity.
Qed.

Lemma N_digits_nonempty (n : N) : is_empty (N_digits n) = false.
Proof.
  unfold N_digits, NilZero.string_of_uint. destruct (N.to_uint n); reflexivity.
Qed.

Lemma all_digits_zeros (n : nat) : all_digits (zeros n) = true.
Proof. induction n as [|n IH]; [reflexivity|]. exact IH. Qed.

Lemma all_digits_substring (s : string) : forall i j,
  all_digits s = true -> all_digits (substring i j s) = true.
Proof.
  unfold all_digits.
  induction s as [|c s IH]; intros i j H.
  - destruct i, j; reflexivity.
  - cbn [string_forallb] in H. apply andb_prop in H as [Hc Hs].
    destruct i as [|i]; [destruct j as [|j]|]; cbn [substring string_forallb].
    + reflexivity.
    + now rewrite Hc, IH.
    + now apply IH.
Qed.

Lemma substring_nonempty (s : string) : forall i j,
  (i < String.length s)%nat -> (0 < j)%nat -> is_empty (substring i j s) = false.
Proof.
  induction s as [|c s IH]; intros i j Hi Hj; cbn [String.length] in Hi; [lia|].
  destruct i as [|i]; [destruct j as [|j]; [lia|reflexivity]|].
  cbn [substring]. apply IH; lia.
Qed.

Lemma strip_zeros_end_digits (s : string) :
  all_digits s = true -> all_digits (strip_zeros_end s) = true.
Proof.
  unfold all_digits. induction s as [|c s IH]; intros H; [reflexivity|].
  cbn [string_forallb] in H. apply andb_prop in H as [Hc Hs].
  cbn [strip_zeros_end].
  destruct (is_empty (strip_zeros_end s) && Ascii.eqb c "0"); [reflexivity|].
  cbn [string_forallb]. now rewrite Hc, IH.
Qed.

Lemma strip_zeros_end_head (c : ascii) (tail : string) :
  Ascii.eqb c "0" = false ->
  strip_zeros_end (String c tail) = String c (strip_zeros_end tail).
Proof. intros H. cbn [strip_zeros_end]. now rewrite H, andb_false_r. Qed.

Lemma int_digits_head (c : ascii) (tail : string) :
  all_digits (String c tail) = true -> Ascii.eqb c "0" = false ->
  int_digits (String c tail) = true.
Proof. intros H H0. cbn [int_digits]. now rewrite H, H0, orb_true_r. Qed.

(** The rendering of a positive decimal has the shape of a number token. *)
Lemma render_decimal_shape (c : ascii) (tail : string) (n : Z) :
  all_digits (String c tail) = true -> Ascii.eqb c "0" = false ->
  exists ip f e,
    render_decimal (String c tail) n = ip ++ frac_text f ++ exp_text e
    /\ int_digits ip = true /\ part_ok f = true
    /\ part_ok (option_map snd e) = true.
Proof.
  intros Hd H0. unfold render_decimal.
  assert (Hi : int_digits (String c tail) = true) by now apply int_digits_head.
  assert (Hsub : forall j, substring 0 (S j) (String c tail)
                           = String c (substring 0 j tail)) by reflexivity.
  assert (Hk : 1 <= Z.of_nat (String.length (String c tail)))
    by (cbn [String.length]; lia).
  remember (String c tail) as s eqn:Es.
  remember (Z.of_nat (String.length s)) as k eqn:Ek.
  destruct ((k <=? n) && (n <=? 21)) eqn:Ea.
  { exists (s ++ zeros (Z.to_nat (n - k))), None, None.
    cbn [frac_text exp_text option_map part_ok append].
    rewrite append_nil_r. repeat split.
    rewrite Es. cbn [append]. apply int_digits_head; [|exact H0].
    change (String c (tail ++ zeros (Z.to_nat (n - k))))
      with (String c tail ++ zeros (Z.to_nat (n - k))).
    rewrite <- Es. now rewrite all_digits_app, Hd, all_digits_zeros. }
  destruct ((0 <? n) && (n <=? 21)) eqn:Eb.
  { apply andb_prop in Eb as [Hn0 Hn21].
    apply Z.ltb_lt in Hn0. rewrite Hn21, andb_true_r in Ea.
    apply Z.leb_gt in Ea.
    exists (substring 0 (Z.to_nat n) s),
           (Some (substring (Z.to_nat n) (Z.to_nat (k - n)) s)), None.
    cbn [frac_text exp_text option_map part_ok].
    rewrite !append_nil_r. split; [reflexivity|]. split; [|split; [|reflexivity]].
    - destruct (Z.to_nat n) as [|j] eqn:Ej; [lia|].
      rewrite Hsub. apply int_digits_head; [|exact H0].
      rewrite <- Hsub. now apply all_digits_substring.
    - rewrite all_digits_substring by exact Hd.
      rewrite substring_nonempty; [reflexivity| |]; lia. }
  destruct ((-6 <? n) && (n <=? 0)) eqn:Ec.
  { exists "0", (Some (zeros (Z.to_nat (- n)) ++ s)), None.
    cbn [frac_text exp_text option_map part_ok append].
    rewrite !append_nil_r. split; [reflexivity|]. split; [reflexivity|].
    split; [|reflexivity].
    rewrite all_digits_app, all_digits_zeros, Hd. rewrite Es.
    destruct (zeros (Z.to_nat (- n))); reflexivity. }
  set (ex := n - 1).
  assert (He : part_ok (Some (N_digits (Z.abs_N ex))) = true).
  { cbn [part_ok]. now rewrite all_digits_N, N_digits_nonempty. }
  destruct (k =? 1) eqn:E1.
  { exists s, None, (Some (ex <? 0, N_digits (Z.abs_N ex))).
    cbn [frac_text exp_text option_map snd append].
    split; [reflexivity|]. split; [exact Hi|].
    split; [reflexivity|exact He]. }
  apply Z.eqb_neq in E1.
  exists (substring 0 1 s), (Some (substring 1 (Z.to_nat (k - 1)) s)),
         (Some (ex <? 0, N_digits (Z.abs_N ex))).
  cbn [frac_text exp_text option_map snd].
  split; [now rewrite !append_assoc|]. split; [|split; [|exact He]].
  - rewrite Hsub. apply int_digits_head; [|exact H0].
    rewrite <- Hsub. now apply all_digits_substring.
  - cbn [part_ok]. rewrite all_digits_substring by exact Hd.
    rewrite substring_nonempty; [reflexivity| |]; lia.
Qed.

(** Every printed number reads back as a number, and starts as one. *)
Lemma numToString_accepted (m e : Z) :
  exists n,
    (forall rest, delimited rest = true ->
                  parse_number (numToString (Fin m e) ++ rest) = Some (n, rest))
    /\ exists c tail,
         numToString (Fin m e) = String c tail
         /\ (is_digit c = true \/ c = "-"%char).
Proof.
  cbn [numToString].
  destruct (m =? 0) eqn:Em.
  { eexists. split; [|exists "0"%char, ""; split; [reflexivity|now left]].
    intros rest Hr.
    exact (parse_number_text false "0" None None rest eq_refl eq_refl eq_refl Hr). }
  destruct ((e =? 0) && (Z.abs m <? 10 ^ 21)) eqn:Ei.
  { eexists. split; [intros rest Hr; now apply parse_number_integer|].
    apply Z_digits_head. }
  apply Z.eqb_neq in Em.
  destruct (Z.abs_N m) as [|p] eqn:Ep; [lia|].
  destruct (N_digits_pos p "" eq_refl) as (c & tail & E & Hc & H0 & _).
  pose proof (all_digits_N (Npos p)) as Hd. rewrite E in *.
  rewrite (strip_zeros_end_head c tail H0).
  assert (Hs : all_digits (String c (strip_zeros_end tail)) = true).
  { rewrite <- (strip_zeros_end_head c tail H0). now apply strip_zeros_end_digits. }
  destruct (render_decimal_shape c (strip_zeros_end tail)
              (Z.of_nat (String.length (String c tail)) + e) Hs H0)
    as (ip & f & ex & Er & Hi & Hf & He).
  rewrite Er. eexists. split.
  - intros rest Hr.
    rewrite <- (parse_number_text (m <? 0) ip f ex rest Hi Hf He Hr).
    now rewrite !append_assoc.
  - destruct (m <? 0); cbn [append]; [eexists _, _; split; [reflexivity|now right]|].
    destruct ip as [|c' r']; [discriminate|]. cbn [int_digits] in Hi.
    apply andb_prop in Hi as [Hi _]. unfold all_digits in Hi.
    cbn [string_forallb] in Hi. apply andb_prop in Hi as [Hi _].
    cbn [append]. eexists _, _. split; [reflexivity|now left].
Qed.

(** *** Values *)

(** A printed value starts with a character that begins a value. *)
Lemma stringify_head (j : json) :
  exists c tail, JSON_stringify j = String c tail /\ value_start c = true.
Proof.
  destruct j as [|b|n|s|l|o]; try (now eexists _, _).
  - destruct b; now eexists _, _.
  - destruct n as [| | |m e]; try (now eexists _, _).
    destruct (numToString_accepted m e) as (n & _ & c & tail & E & Hc).
    exists c, tail. split; [exact E|]. now apply number_start_facts.
Qed.

Lemma next_is_value (c : ascii) (j : json) (rest : string) :
  (c = "]" \/ c = "}")%char ->
  next_is c (JSON_stringify j ++ rest) = None.
Proof.
  intros Hc. destruct (stringify_head j) as (d & tail & E & Hd).
  destruct (value_start_facts d Hd) as (Hw & H1 & H2).
  rewrite E. unfold next_is. cbn [append skip_ws]. rewrite Hw.
  destruct Hc as [-> | ->]; now rewrite ?H1, ?H2.
Qed.

(** Arithmetic on fuel, with the sums over nested values taken as atoms. *)
Ltac fuel_lia :=
  cbn [map snd size] in *; unfold list_sum in *;
  cbn [map fold_right snd] in *;
  repeat match goal with
         | H : context [fold_right ?f ?z ?t] |- _ =>
             let n := fresh "n" in
             set (n := fold_right f z t) in *; clearbody n
         | |- context [fold_right ?f ?z ?t] =>
             let n := fresh "n" in
             set (n := fold_right f z t) in *; clearbody n
         end;
  lia.

Lemma concat_cons2 (f : string) (x y : string) (l : list string) :
  String.concat f (x :: y :: l) = x ++ f ++ String.concat f (y :: l).
Proof. reflexivity. Qed.

Lemma parse_elements_reads (l : list json) : forall l',
  Forall2 reads_as l l' -> l <> [] ->
  forall fuel rest,
    (list_sum (map (fun x => S (size x)) l) <= fuel)%nat ->
    parse_elements fuel
      (String.concat "," (map JSON_stringify l) ++ String "]" rest)
    = Some (l', rest).
Proof.
  induction l as [|x l IH]; intros l' HR Hne fuel rest Hf; [congruence|].
  inversion HR as [|? x' ? l2 Rx Rl]; subst.
  destruct fuel as [|f]; [fuel_lia|]. cbn [parse_elements].
  destruct l as [|y l1].
  - inversion Rl; subst. cbn [map String.concat].
    rewrite (Rx f (String "]" rest)) by (try reflexivity; fuel_lia).
    reflexivity.
  - cbn [map]. rewrite concat_cons2, append_assoc. cbn [append].
    rewrite (Rx f) by (try reflexivity; fuel_lia).
    change (next_is "," (String "," ?t)) with (Some t). cbv iota beta.
    change (JSON_stringify y :: map JSON_stringify l1)
      with (map JSON_stringify (y :: l1)).
    rewrite (IH l2 Rl) by (try discriminate; fuel_lia).
    reflexivity.
Qed.

Lemma member_text_shape (k : string) (v : json) (tail : string) :
  member_text (k, v) ++ tail
  = String dquote (escape_string k
                   ++ String dquote (String ":" (JSON_stringify v ++ tail))).
Proof.
  unfold member_text, QuoteJSONString. cbn [fst snd append].
  now rewrite !append_assoc.
Qed.

Lemma parse_members_reads (o : list (string * json)) : forall o',
  Forall2 member_reads o o' -> o <> [] ->
  forall fuel rest,
    (list_sum (map (fun kv => S (size (snd kv))) o) <= fuel)%nat ->
    parse_members fuel
      (String.concat "," (map member_text o) ++ String "}" rest)
    = Some (o', rest).
Proof.
  induction o as [|[k v] o IH]; intros o' HR Hne fuel rest Hf; [congruence|].
  inversion HR as [|? [k' v'] ? o2 [Hk Rv] Ro]; subst.
  cbn [fst snd] in Hk, Rv. subst k'.
  destruct fuel as [|f]; [fuel_lia|]. cbn [parse_members].
  destruct o as [|y o1].
  - inversion Ro; subst. cbn [map String.concat]. rewrite member_text_shape.
    change (next_is dquote (String dquote ?t)) with (Some t).
    cbv iota beta. rewrite parse_escape_string.
    change (next_is ":" (String ":" ?t)) with (Some t).
    cbv iota beta.
    rewrite (Rv f (String "}" rest)) by (try reflexivity; fuel_lia).
    reflexivity.
  - cbn [map]. rewrite concat_cons2, append_assoc, member_text_shape.
    cbn [append].
    change (next_is dquote (String dquote ?t)) with (Some t).
    cbv iota beta. rewrite parse_escape_string.
    change (next_is ":" (String ":" ?t)) with (Some t).
    cbv iota beta.
    rewrite (Rv f) by (try reflexivity; fuel_lia).
    change (next_is "," (String "," ?t)) with (Some t).
    cbv iota beta.
    change (member_text y :: map member_text o1) with (map member_text (y :: o1)).
    rewrite (IH o2 Ro) by (try discriminate; fuel_lia).
    reflexivity.
Qed.

Lemma parse_value_string (f : nat) (tail : string) :
  parse_value (S f) (String dquote tail)
  = match parse_string_chars tail with
    | Some (str, r') => Some (JStr str, r')
    | None => None
    end.
Proof. reflexivity. Qed.

Lemma parse_value_array (f : nat) (r : string) :
  parse_value (S f) (String "[" r)
  = match next_is "]" r with
    | Some r' => Some (JArr [], r')
    | None =>
        match parse_elements f r with
        | Some (vs, r') => Some (JArr vs, r')
        | None => None
        end
    end.
Proof. reflexivity. Qed.

Lemma parse_value_object (f : nat) (r : string) :
  parse_value (S f) (String "{" r)
  = match next_is "}" r with
    | Some r' => Some (JObj [], r')
    | None =>
        match parse_members f r with
        | Some (kvs, r') => Some (JObj (from_entries kvs), r')
        | None => None
        end
    end.
Proof. reflexivity. Qed.

Lemma parse_value_number (text : string) (n : number) (fuel : nat) (rest : string) :
  (exists c tail, text = String c tail /\ (is_digit c = true \/ c = "-"%char)) ->
  parse_number (text ++ rest) = Some (n, rest) ->
  parse_value (S fuel) (text ++ rest) = Some (JNum n, rest).
Proof.
  intros (c & tail & -> & Hc) Hp. cbn [append] in *.
  destruct (number_start_facts c Hc) as (Hv & H1 & H2 & H3 & H4 & H5 & H6).
  destruct (value_start_facts c Hv) as (Hw & _).
  cbn [parse_value skip_ws]. now rewrite Hw, H1, H2, H3, H4, H5, H6, Hp.
Qed.

Lemma reads_as_null : reads_as JNull JNull.
Proof. intros [|f] rest Hf Hd; [cbn in Hf; lia|reflexivity]. Qed.

Lemma reads_as_bool (b : bool) : reads_as (JBool b) (JBool b).
Proof. intros [|f] rest Hf Hd; [cbn in Hf; lia|]. destruct b; reflexivity. Qed.

Lemma reads_as_string (s : string) : reads_as (JStr s) (JStr s).
Proof.
  intros [|f] rest Hf Hd; [cbn in Hf; lia|].
  destruct (parse_quoted s rest) as (tail & E & Ht).
  cbn [JSON_stringify]. now rewrite E, parse_value_string, Ht.
Qed.

Lemma reads_as_integer (z : Z) :
  Z.abs z < 10 ^ 21 -> reads_as (JNum (Fin z 0)) (JNum (Fin z 0)).
Proof.
  intros Hz [|f] rest Hf Hd; [cbn in Hf; lia|].
  rewrite (stringify_integer z Hz).
  apply parse_value_number; [apply Z_digits_head|now apply parse_number_integer].
Qed.

Lemma reads_as_number (n : number) : exists j', reads_as (JNum n) j'.
Proof.
  destruct n as [| | |m e]; try (exists JNull; exact reads_as_null).
  destruct (numToString_accepted m e) as (n & Hp & Hh).
  exists (JNum n). intros [|f] rest Hf Hd; [cbn in Hf; lia|].
  cbn [JSON_stringify]. apply parse_value_number; [exact Hh|now apply Hp].
Qed.

Lemma reads_as_array (l l' : list json) :
  Forall2 reads_as l l' -> reads_as (JArr l) (JArr l').
Proof.
  intros HR [|f] rest Hf Hd; [cbn in Hf; lia|].
  destruct l as [|x l].
  - inversion HR; subst. reflexivity.
  - cbn [JSON_stringify]. rewrite append_assoc. cbn [append].
    rewrite parse_value_array, append_assoc.
    change ("]" ++ rest) with (String "]" rest).
    assert (Hn : next_is "]"
                   (String.concat "," (map JSON_stringify (x :: l))
                    ++ String "]" rest) = None).
    { destruct l as [|y l1].
      - cbn [map String.concat]. apply next_is_value; auto.
      - cbn [map]. rewrite concat_cons2, append_assoc.
        apply next_is_value; auto. }
    rewrite Hn.
    rewrite (parse_elements_reads (x :: l) l' HR)
      by (try discriminate; fuel_lia).
    reflexivity.
Qed.

Lemma reads_as_object (o o' : list (string * json)) :
  Forall2 member_reads o o' -> reads_as (JObj o) (JObj (from_entries o')).
Proof.
  intros HR [|f] rest Hf Hd; [cbn in Hf; lia|].
  destruct o as [|[k v] o].
  - inversion HR; subst. reflexivity.
  - cbn [JSON_stringify].
    change (map (fun kv => QuoteJSONString (fst kv) ++ ":" ++ JSON_stringify (snd kv))
                ((k, v) :: o))
      with (map member_text ((k, v) :: o)).
    rewrite append_assoc. cbn [append]. rewrite parse_value_object, append_assoc.
    change ("}" ++ rest) with (String "}" rest).
    assert (Hn : next_is "}"
                   (String.concat "," (map member_text ((k, v) :: o))
                    ++ String "}" rest) = None).
    { destruct o as [|y o1].
      - cbn [map String.concat]. now rewrite member_text_shape.
      - cbn [map]. now rewrite concat_cons2, append_assoc, member_text_shape. }
    rewrite Hn.
    rewrite (parse_members_reads ((k, v) :: o) o' HR)
      by (try discriminate; fuel_lia).
    reflexivity.
Qed.

(** Parsing what [JSON.stringify] printed gives a plain value back, whatever
    delimiter follows and with any fuel that covers the size of the value. *)
Lemma reads_as_plain (j : json) : plain_json j -> reads_as j j.
Proof.
  induction j as [|b|n|s|l IH|o IH] using json_induction; intros Hp.
  - exact reads_as_null.
  - apply reads_as_bool.
  - inversion Hp as [| |z Hz| | |]; subst. now apply reads_as_integer.
  - apply reads_as_string.
  - inversion Hp as [| | | |? Hl|]; subst. apply reads_as_array.
    clear Hp. induction l as [|x l IHl]; [constructor|].
    inversion IH; inversion Hl; subst. constructor; auto.
  - inversion Hp as [| | | | |? He Ho]; subst.
    rewrite <- He at 2. apply reads_as_object.
    clear Hp He. induction o as [|[k v] o IHo]; [constructor|].
    inversion IH; inversion Ho; subst. constructor; [split; auto|auto].
Qed.

(** Parsing what [JSON.stringify] printed never fails. *)
Lemma reads_as_total (j : json) : exists j', reads_as j j'.
Proof.
  induction j as [|b|n|s|l IH|o IH] using json_induction.
  - exists JNull. exact reads_as_null.
  - exists (JBool b). apply reads_as_bool.
  - apply reads_as_number.
  - exists (JStr s). apply reads_as_string.
  - assert (H : exists l', Forall2 reads_as l l').
    { induction IH as [|x l [x' Hx] _ [l' Hl]]; [exists []; constructor|].
      exists (x' :: l'). now constructor. }
    destruct H as [l' H]. exists (JArr l'). now apply reads_as_array.
  - assert (H : exists o', Forall2 member_reads o o').
    { induction IH as [|[k v] o [v' Hv] _ [o' Ho]]; [exists []; constructor|].
      exists ((k, v') :: o'). constructor; [now split|exact Ho]. }
    destruct H as [o' H]. exists (JObj (from_entries o')).
    now apply reads_as_object.
Qed.

Lemma concat_length (f : json -> string) (w : json -> nat) (l : list json) :
  Forall (fun x => (w x <= String.length (f x))%nat) l ->
  (list_sum (map (fun x => S (w x)) l)
   <= String.length (String.concat "," (map f l)) + 1)%nat.
Proof.
  induction l as [|x l IH]; intros H; [cbn; lia|].
  inversion H as [|? ? Hx Hl]; subst. specialize (IH Hl).
  destruct l as [|y l'].
  - cbn [map list_sum fold_right String.concat]. unfold list_sum. cbn. lia.
  - change (String.concat "," (map f (x :: y :: l')))
      with (f x ++ "," ++ String.concat "," (map f (y :: l'))).
    rewrite !length_append. revert IH.
    unfold list_sum. cbn [map fold_right].
    generalize (fold_right Nat.add 0%nat (map (fun x0 => S (w x0)) l')).
    generalize (String.length (String.concat "," (map f (y :: l')))).
    cbn [String.length]. intros; lia.
Qed.

(** The length of the printed text covers the size of the value. *)
Lemma size_le_length (j : json) :
  (size j <= String.length (JSON_stringify j))%nat.
Proof.
  induction j as [|b|n|s|l IH|o IH] using json_induction.
  - cbn. lia.
  - destruct b; cbn; lia.
  - destruct (stringify_head (JNum n)) as (c & tail & E & _). rewrite E.
    cbn [size String.length]. lia.
  - cbn. lia.
  - pose proof (concat_length JSON_stringify size l IH) as Hc.
    cbn [size JSON_stringify]. rewrite !length_append. revert Hc.
    generalize (list_sum (map (fun x => S (size x)) l)).
    generalize (String.length (String.concat "," (map JSON_stringify l))).
    cbn [String.length]. intros; lia.
  - cbn [size JSON_stringify]. rewrite !length_append. cbn [String.length].
    assert (Hc : (list_sum (map (fun kv => S (size (snd kv))) o)
                  <= String.length
                       (String.concat ","
                          (map (fun kv => QuoteJSONString (fst kv) ++ ":"
                                          ++ JSON_stringify (snd kv)) o)) + 1)%nat).
    { induction o as [|[k v] o IHo]; [cbn; lia|].
      inversion IH as [|? ? Hv IH']; subst.
      specialize (IHo IH'). cbn [snd] in Hv.
      destruct o as [|y o'].
      - cbn [map String.concat fst snd]. unfold list_sum. cbn [fold_right].
        rewrite !length_append. revert Hv.
        generalize (size v), (String.length (JSON_stringify v)).
        intros; lia.
      - set (g := fun kv : string * json =>
                    QuoteJSONString (fst kv) ++ ":" ++ JSON_stringify (snd kv)) in *.
        change (String.concat "," (map g ((k, v) :: y :: o')))
          with (g (k, v) ++ "," ++ String.concat "," (map g (y :: o'))).
        rewrite !length_append. unfold g at 1. cbn [fst snd].
        rewrite !length_append. revert IHo Hv.
        unfold list_sum. cbn [map fold_right snd].
        generalize (fold_right Nat.add 0%nat
                      (map (fun kv => S (size (snd kv))) o')).
        generalize (String.length (String.concat "," (map g (y :: o')))).
        generalize (size v), (String.length (JSON_stringify v)), (size (snd y)).
        cbn [String.length]. intros; lia. }
    revert Hc.
    generalize (list_sum (map (fun kv => S (size (snd kv))) o)).
    generalize (String.length
                  (String.concat ","
                     (map (fun kv => QuoteJSONString (fst kv) ++ ":"
                                     ++ JSON_stringify (snd kv)) o))).
    intros; lia.
Qed.

Lemma JSON_parse_reads (j j' : json) :
  reads_as j j' -> JSON_parse (JSON_stringify j) = Some j'.
Proof.
  intros H. unfold JSON_parse.
  pose proof (H (S (String.length (JSON_stringify j))) "") as Hp.
  rewrite append_nil_r in Hp. rewrite Hp.
  - reflexivity.
  - pose proof (size_le_length j). lia.
  - reflexivity.
Qed.

(** [JSON.parse(JSON.stringify(v))] is [v], for a plain value [v]. *)
Theorem JSON_parse_stringify (j : json) :
  plain_json j -> JSON_parse (JSON_stringify j) = Some j.
Proof. intros Hp. apply JSON_parse_reads. now apply reads_as_plain. Qed.

(** [JSON.parse(JSON.stringify(v))] does not throw. *)
Theorem JSON_parse_stringify_total (j : json) :
  exists j', JSON_parse (JSON_stringify j) = Some j'.
Proof.
  destruct (reads_as_total j) as [j' H]. exists j'. now apply JSON_parse_reads.
Qed.

(** ** Placeholders without an entry *)

Lemma replace_go_no_match (pat tpl : string) (s : string) : forall before,
  occurs pat s = false -> replace_go pat tpl before s 0 = s.
Proof.
  induction s as [|c s IH]; intros before H; [reflexivity|].
  cbn [occurs] in H. apply orb_false_elim in H as [Hp Ho].
  cbn [replace_go]. rewrite Hp. now rewrite IH.
Qed.

Lemma substitute_no_match (pv : js_obj string) (str : string) :
  (forall k v, In (k, v) pv -> occurs (placeholder k) str = false) ->
  fold_left (fun str kv => replace_placeholder (fst kv) (snd kv) str) pv str = str.
Proof.
  induction pv as [|[k v] pv IH]; intros H; [reflexivity|].
  cbn [fold_left fst snd]. unfold replace_placeholder at 2.
  rewrite replace_go_no_match by (apply (H k v); now left).
  apply IH. intros k' v' Hin. apply (H k' v'). now right.
Qed.

(** Without parameters a body of JSON values resolves to itself. *)
Lemma resolveBody_no_parameters etext (b : json) :
  plain_json b -> resolveBody etext [] b = Normal b.
Proof.
  intros H. unfold resolveBody. destruct (truthy b); [|reflexivity].
  cbn [negb fold_left]. now rewrite JSON_parse_stringify.
Qed.

(** Without parameters resolution does not throw, whatever the body. *)
Lemma resolveBody_no_parameters_total etext (b : json) :
  exists b', resolveBody etext [] b = Normal b'.
Proof.
  unfold resolveBody. destruct (truthy b); [|now exists b].
  cbn [negb fold_left]. destruct (JSON_parse_stringify_total b) as [b' H].
  exists b'. now rewrite H.
Qed.

(** C4, as stated, fails.  The template [{"OBJID":"{{OBJID}}"}] resolved with
    a map that has no entry for OBJID does not fail: it comes back with the
    placeholder in it.  And with OBJID set to the text "{{X}}", which passes
    validation, the resolved body of the trace-setup step holds "{{X}}". *)
Lemma resolveBody_keeps_placeholders :
  obj_get "OBJID" [("ATTRID", "BinMap")] = None
  /\ occurs (placeholder "OBJID") (JSON_stringify template_OBJID) = true
  /\ resolveBody sample_error [("ATTRID", "BinMap")] template_OBJID
     = Normal template_OBJID
  /\ validateParameter OBJID "{{X}}" = None
  /\ validationErrors (trace_setup_with "{{X}}") = []
  /\ resolveBody sample_error (paramValues (trace_setup_with "{{X}}"))
       (body (messageToSend trace_setup_step))
     = Normal (JObj [("OBJID", JStr "{{X}}"); ("OBJTYPE", JStr "SubstrateMap")]).
Proof. vm_compute. repeat split. Qed.

(** C4, amended.  Resolution does not look for placeholders that lack an
    entry.  For a parameter map whose keys are made of word characters, not
    all of them digits, so that the pattern built from a key matches the
    text of its placeholder and nothing else: when the template is made of
    plain values and none of the keys of the map occurs as a placeholder in
    the serialised template, so that every placeholder of the template is
    without an entry, resolution succeeds and returns the template as it is,
    placeholders included; and, whatever the template, resolution throws
    only when the template is truthy and the substituted text does not
    parse. *)
Theorem resolveBody_leaves_unmatched etext (pv : js_obj string) (b : json) :
  (forall k v, In (k, v) pv -> literal_key k = true) ->
  (plain_json b ->
   (forall k v, In (k, v) pv -> occurs (placeholder k) (JSON_stringify b) = false) ->
   resolveBody etext pv b = Normal b)
  /\ ((exists e, resolveBody etext pv b = Throw e)
      <-> truthy b = true
          /\ JSON_parse
               (fold_left (fun str kv => replace_placeholder (fst kv) (snd kv) str)
                          pv (JSON_stringify b)) = None).
Proof.
  intros _. split.
  - intros Hb Hpv.
    unfold resolveBody. destruct (truthy b); [|reflexivity]. cbn [negb].
    rewrite substitute_no_match by (intros k v Hin; now apply (Hpv k v)).
    now rewrite JSON_parse_stringify.
  - unfold resolveBody. destruct (truthy b); cbn [negb].
    + destruct (JSON_parse _); split.
      * intros [e He]. discriminate.
      * intros [_ H]. discriminate.
      * now intros _.
      * intros _. eexists. reflexivity.
    + split; [intros [e He]; discriminate|intros [H _]; discriminate].
Qed.

Lemma resolveBody_leaves_unmatched_witness :
  resolveBody sample_error [("ATTRID", "BinMap")] template_OBJID
  = Normal template_OBJID.
Proof.
  refine (proj1 (resolveBody_leaves_unmatched sample_error
                   [("ATTRID", "BinMap")] template_OBJID _) _ _).
  - intros k v [H|[]]. injection H as <- <-. reflexivity.
  - apply plain_obj; [reflexivity|]. repeat constructor.
  - intros k v [H|[]]. injection H as <- <-. reflexivity.
Defined.

(** ** The entries of a run without parameters *)

(** The entries of the events of the loop, step by step. *)
Lemma entries_per_step gid etext pv steps : forall i allPassed n t,
  forallb (not_malformed etext pv) steps = true ->
  exists chunks,
    entries gid n t (snd (steps_trace etext pv i steps allPassed)) = List.concat chunks
    /\ Forall2 (fun step chunk =>
                  map direction chunk = log_dirs (snd (step_trace etext pv step)))
               steps chunks.
Proof.
  induction steps as [|step rest IH]; intros i allPassed n t H.
  - exists []. split; [reflexivity|constructor].
  - cbn [forallb] in H. apply andb_prop in H as [Hs Hr].
    unfold not_malformed, step_outcome in Hs. cbn [steps_trace].
    destruct (step_trace etext pv step) as [o es] eqn:E. cbn [fst] in Hs.
    destruct (is_malformed o); [discriminate|].
    specialize (IH (S i) (allPassed && outcome_ok o)
                  (n + List.length (log_dirs es))%nat (t + elapsed es) Hr).
    destruct IH as (chunks & Hc & Hf).
    destruct (steps_trace etext pv (S i) rest (allPassed && outcome_ok o))
      as [[os p] es'].
    cbn [snd] in *. cbn [entries]. rewrite entries_app, Hc.
    exists (entries gid n t es :: chunks). split; [reflexivity|].
    constructor; [rewrite E; apply log_dirs_entries|exact Hf].
Qed.

Lemma step_trace_without_parameters etext step :
  is_malformed (step_outcome etext [] step) = false
  /\ (waitBit (messageToSend step) = true -> has_oracle_entry step ->
      simulateDelayMs step <= timeoutMs step ->
      log_dirs (snd (step_trace etext [] step)) = [HOST_TO_EQP; EQP_TO_HOST])
  /\ (waitBit (messageToSend step) = false ->
      expectedResponseSxFy step = None ->
      log_dirs (snd (step_trace etext [] step)) = [HOST_TO_EQP]).
Proof.
  unfold step_outcome, step_trace.
  destruct (resolveBody_no_parameters_total etext (body (messageToSend step)))
    as [msgBody ->].
  split; [|split].
  - destruct (waitBit (messageToSend step) && _); [reflexivity|].
    unfold reply_trace.
    destruct (expectedResponseSxFy step) as [r|];
      [destruct (negb (is_empty r));
       [destruct (obj_get r MOCK_RESPONSES) as [reply|];
        [destruct (truthy reply)|]|]|];
      try reflexivity; destruct (waitBit (messageToSend step)); reflexivity.
  - intros Hw (r & reply & Hr & Hg) Hd. rewrite Hw.
    apply Z.leb_le in Hd. rewrite Z.gtb_ltb, Z.ltb_antisym, Hd. cbn [negb andb].
    unfold reply_trace. rewrite Hr.
    assert (Hne : negb (is_empty r) = true).
    { destruct r; [discriminate Hg|reflexivity]. }
    rewrite Hne, Hg. destruct (truthy reply); reflexivity.
  - intros Hw Hr. rewrite Hw. cbn [andb]. unfold reply_trace. now rewrite Hr, Hw.
Qed.

(** C7, amended.  A scenario without parameters, once selected and run: the
    transcript grows by the start entry, the entries of the steps in order
    and the completion entry.  A step that expects a reply, has a reply-table
    entry and whose simulated delay does not exceed its timeout contributes
    exactly one host-to-equipment entry followed by one equipment-to-host
    entry; a step that expects no reply and declares no expected response
    contributes exactly one entry, host to equipment. *)
Theorem entries_without_parameters gid etext scenario st :
  no_parameters scenario ->
  runningStep st = None ->
  let st' := runScenario gid etext scenario (setSelectedScenario (Some scenario) st) in
  exists starting per_step complete,
    logs st' = (logs st ++ starting :: List.concat per_step ++ [complete])%list
    /\ direction starting = INFO /\ direction complete = INFO
    /\ Forall2
         (fun step entries =>
            (waitBit (messageToSend step) = true -> has_oracle_entry step ->
             simulateDelayMs step <= timeoutMs step ->
             map direction entries = [HOST_TO_EQP; EQP_TO_HOST])
            /\ (waitBit (messageToSend step) = false ->
                expectedResponseSxFy step = None ->
                map direction entries = [HOST_TO_EQP]))
         (steps scenario) per_step.
Proof.
  intros Hnp Hrun st'. subst st'.
  set (st1 := setSelectedScenario (Some scenario) st).
  assert (Hpv : paramValues st1 = []).
  { unfold st1, setSelectedScenario, default_paramValues. cbn.
    destruct Hnp as [-> | ->]; reflexivity. }
  assert (Hs : can_start st1) by (split; [exact Hrun|reflexivity]).
  assert (Hok : forallb (not_malformed etext []) (steps scenario) = true).
  { apply forallb_forall. intros step Hin. unfold not_malformed.
    now rewrite (proj1 (step_trace_without_parameters etext step)). }
  rewrite runScenario_replay, logs_replay, run_trace_started by exact Hs.
  rewrite Hpv. cbn [snd entries starting_entry].
  rewrite entries_app.
  destruct (entries_per_step gid etext [] (steps scenario) 0 true
              (S (draws st1)) (clock st1) Hok) as (chunks & Hc & Hf).
  rewrite Hc. cbn [entries complete_entry].
  eexists _, chunks, _. split; [reflexivity|]. split; [reflexivity|].
  split; [reflexivity|].
  clear Hc Hok. induction Hf as [|step chunk steps' chunks' Hd Hf IH];
    [constructor|].
  constructor; [|exact IH].
  rewrite Hd. destruct (step_trace_without_parameters etext step) as (_ & H1 & H2).
  split; assumption.
Qed.

(** C7, as stated, fails twice.  A step that expects a reply and has a reply
    entry ("S14F2") but a budget of 100 ms against the default delay of
    600 ms logs a host-to-equipment entry and an error, no equipment-to-host
    entry.  A step that expects no reply but declares "S14F2" as expected
    response logs two entries, not one. *)
Lemma entries_counterexamples :
  obj_has "S14F2" MOCK_RESPONSES = true
  /\ directions_of_run (scenario_of [step_of true (Some "S14F2") None (Some 100)])
     = [INFO; HOST_TO_EQP; ERROR; INFO]
  /\ directions_of_run (scenario_of [step_of false (Some "S14F2") None None])
     = [INFO; HOST_TO_EQP; EQP_TO_HOST; INFO].
Proof. vm_compute. repeat split. Qed.

Lemma entries_without_parameters_witness :
  exists starting per_step complete,
    logs (runScenario sample_id sample_error
            (scenario_of [step_of true (Some "S14F2") None None;
                          step_of false None None None])
            (setSelectedScenario
               (Some (scenario_of [step_of true (Some "S14F2") None None;
                                   step_of false None None None]))
               initial_state))
    = (logs initial_state ++ starting :: List.concat per_step ++ [complete])%list
    /\ direction starting = INFO /\ direction complete = INFO
    /\ Forall2
         (fun step entries =>
            (waitBit (messageToSend step) = true -> has_oracle_entry step ->
             simulateDelayMs step <= timeoutMs step ->
             map direction entries = [HOST_TO_EQP; EQP_TO_HOST])
            /\ (waitBit (messageToSend step) = false ->
                expectedResponseSxFy step = None ->
                map direction entries = [HOST_TO_EQP]))
         [step_of true (Some "S14F2") None None; step_of false None None None]
         per_step.
Proof.
  apply (entries_without_parameters sample_id sample_error
           (scenario_of [step_of true (Some "S14F2") None None;
                         step_of false None None None])
           initial_state (or_introl eq_refl) eq_refl).
Defined.

(** ** Editing parameters *)

Section ObjectFrame.
Context {A : Type}.

Lemma obj_get_update_other (k k' : string) (v : A) (o : js_obj A) :
  String.eqb k k' = false -> obj_get k (obj_update k' v o) = obj_get k o.
Proof.
  intros Hk. induction o as [|[k0 v0] o IH]; [reflexivity|].
  cbn [obj_update]. destruct (String.eqb k' k0) eqn:E; cbn [obj_get].
  - apply String.eqb_eq in E. subst k0. now rewrite Hk.
  - now rewrite IH.
Qed.

Lemma obj_get_insert_index_other (i : N) (k k' : string) (v : A) (o : js_obj A) :
  String.eqb k k' = false -> obj_get k (obj_insert_index i k' v o) = obj_get k o.
Proof.
  intros Hk. induction o as [|[k0 v0] o IH]; cbn [obj_insert_index obj_get].
  - now rewrite Hk.
  - destruct (array_index k0) as [j|]; [destruct (j <? i)%N|];
      cbn [obj_get]; rewrite ?Hk, ?IH; reflexivity.
Qed.

Lemma obj_get_app_other (k k' : string) (v : A) (o : js_obj A) :
  String.eqb k k' = false -> obj_get k (o ++ [(k', v)])%list = obj_get k o.
Proof.
  intros Hk. induction o as [|[k0 v0] o IH]; cbn [app obj_get].
  - now rewrite Hk.
  - now rewrite IH.
Qed.

(** Writing a property leaves the others as they were. *)
Lemma obj_get_set_other (k k' : string) (v : A) (o : js_obj A) :
  String.eqb k k' = false -> obj_get k (obj_set k' v o) = obj_get k o.
Proof.
  intros Hk. unfold obj_set. destruct (obj_has k' o).
  - now apply obj_get_update_other.
  - destruct (array_index k').
    + now apply obj_get_insert_index_other.
    + now apply obj_get_app_other.
Qed.

Lemma obj_get_delete_other (k k' : string) (o : js_obj A) :
  String.eqb k k' = false -> obj_get k (obj_delete k' o) = obj_get k o.
Proof.
  intros Hk. unfold obj_delete. induction o as [|[k0 v0] o IH]; [reflexivity|].
  cbn [filter fst]. destruct (String.eqb k' k0) eqn:E; cbn [negb obj_get].
  - apply String.eqb_eq in E. subst k0. now rewrite Hk.
  - now rewrite IH.
Qed.

Lemma obj_set_not_nil (k : string) (v : A) (o : js_obj A) :
  is_nil (obj_set k v o) = false.
Proof.
  unfold obj_set, obj_has. destruct o as [|[k0 v0] o].
  - cbn. now destruct (array_index k).
  - destruct (obj_get k ((k0, v0) :: o)).
    + cbn [obj_update]. now destruct (String.eqb k k0).
    + destruct (array_index k) as [i|]; [|reflexivity].
      cbn [obj_insert_index]. destruct (array_index k0) as [j|]; [|reflexivity].
      now destruct (j <? i)%N.
Qed.

(** Deleting the only key an object has leaves it empty. *)
Lemma obj_delete_only (k : string) (o : js_obj A) :
  (forall k', obj_has k' o = true -> k' = k) -> obj_delete k o = [].
Proof.
  unfold obj_delete, obj_has.
  induction o as [|[k0 v0] o IH]; intros H; [reflexivity|].
  cbn [filter fst].
  assert (E : k0 = k).
  { apply H. cbn [obj_get]. now rewrite String.eqb_refl. }
  subst k0. rewrite String.eqb_refl. cbn [negb]. apply IH.
  intros k' Hk'. destruct (String.eqb k' k) eqn:E.
  - now apply String.eqb_eq.
  - apply H. cbn [obj_get]. now rewrite E.
Qed.
End ObjectFrame.

Lemma eqb_neq_false (a b : string) : a <> b -> String.eqb a b = false.
Proof. intros H. now apply String.eqb_neq. Qed.

(** X1. An edit of a parameter stores the value typed under the parameter's
    key and the verdict of [validateParameter] on it in the error map (an
    entry for a rejected value, none for an accepted one); the values and the
    errors of all other keys, and the rest of the state, are as before. *)
Theorem handleParamChange_touches_one_key (p : ScenarioParameter) (v : string)
  (st : State) :
  let st' := handleParamChange p v st in
  obj_get (key p) (paramValues st') = Some v
  /\ obj_get (key p) (validationErrors st') = validateParameter p v
  /\ (forall k, k <> key p ->
        obj_get k (paramValues st') = obj_get k (paramValues st)
        /\ obj_get k (validationErrors st') = obj_get k (validationErrors st))
  /\ scenarios st' = scenarios st
  /\ selectedScenario st' = selectedScenario st
  /\ logs st' = logs st
  /\ results st' = results st
  /\ runningStep st' = runningStep st.
Proof.
  intros st'. subst st'. unfold handleParamChange.
  destruct (validateParameter p v) as [e|];
    cbn [paramValues validationErrors set_validationErrors set_paramValues
         scenarios selectedScenario logs results runningStep].
  - split; [apply obj_get_set_same|]. split; [apply obj_get_set_same|].
    split; [|now repeat split].
    intros k Hk. apply eqb_neq_false in Hk.
    split; now apply obj_get_set_other.
  - split; [apply obj_get_set_same|]. split; [apply obj_get_delete_same|].
    split; [|now repeat split].
    intros k Hk. apply eqb_neq_false in Hk.
    split; [now apply obj_get_set_other|now apply obj_get_delete_other].
Qed.

(** X2. Validation of the parameters that are not numeric.  A parameter of
    type STRING or ENUM, or without a type, is valid exactly when its value
    is not empty: an ENUM parameter accepts any text, also one that is not
    among its options, and the bounds [min] and [max] play no part.  The
    empty value is rejected as "Value is required" for every parameter,
    numeric ones included. *)
Theorem validateParameter_text_types (p : ScenarioParameter) (v : string) :
  param_type p <> Some NUMBER ->
  (validateParameter p v = None <-> v <> "")
  /\ (forall opts, options p = Some opts -> ~ In v opts -> v <> "" ->
                   validateParameter p v = None)
  /\ (forall q : ScenarioParameter, validateParameter q "" = Some "Value is required").
Proof.
  intros Hty.
  assert (H : v <> "" -> validateParameter p v = None).
  { intros Hne. apply is_empty_false in Hne. unfold validateParameter.
    rewrite Hne. cbn [andb].
    destruct (param_type p) as [[| |]|]; try reflexivity. congruence. }
  split; [split|split].
  - intros Hv ->. discriminate Hv.
  - exact H.
  - intros opts _ _. exact H.
  - reflexivity.
Qed.

Lemma validateParameter_text_types_witness :
  param_type OBJTYPE = Some ENUM
  /\ ~ In "Wafer" ["SubstrateMap"; "Equipment"; "Port"; "Carrier"]
  /\ validateParameter OBJTYPE "Wafer" = None.
Proof.
  split; [reflexivity|].
  assert (Hn : ~ In "Wafer" ["SubstrateMap"; "Equipment"; "Port"; "Carrier"]).
  { cbn. intuition discriminate. }
  split; [exact Hn|].
  refine (proj1 (proj2 (validateParameter_text_types OBJTYPE "Wafer" _))
            ["SubstrateMap"; "Equipment"; "Port"; "Carrier"] eq_refl Hn _);
    discriminate.
Defined.

(** ** Selecting a scenario *)

Lemma find_app_first {A : Type} (f : A -> bool) (l1 l2 : list A) :
  find f (l1 ++ l2)
  = match find f l1 with Some x => Some x | None => find f l2 end.
Proof.
  induction l1 as [|x l1 IH]; [reflexivity|].
  cbn [app find]. now destruct (f x).
Qed.

Lemma defaults_fold (k : string) (ps : list ScenarioParameter) :
  forall acc : js_obj string,
    obj_get k (fold_left (fun acc p => obj_set (key p) (defaultValue p) acc) ps acc)
    = match find (fun p => String.eqb k (key p)) (rev ps) with
      | Some p => Some (defaultValue p)
      | None => obj_get k acc
      end.
Proof.
  induction ps as [|p ps IH]; intros acc; [reflexivity|].
  cbn [fold_left rev]. rewrite IH, find_app_first.
  destruct (find (fun p0 => String.eqb k (key p0)) (rev ps)); [reflexivity|].
  cbn [find]. destruct (String.eqb k (key p)) eqn:E.
  - apply String.eqb_eq in E. subst k. apply obj_get_set_same.
  - now apply obj_get_set_other.
Qed.

(** X3. A change of the selection replaces the parameter values by the
    declared defaults and empties the error map: when the selection becomes
    another one than it was, the value under a key is the default of the last
    parameter that declares the key, a key no parameter declares has no
    value, and a scenario without parameters (or no scenario) leaves no value
    at all.  The catalog, the transcript and the history are untouched. *)
Theorem selection_installs_defaults (s : option TestScenario) (st : State) :
  selectedScenario st <> s ->
  let st' := setSelectedScenario s st in
  selectedScenario st' = s
  /\ validationErrors st' = []
  /\ (forall k,
        obj_get k (paramValues st')
        = match s with
          | Some sc =>
              match parameters sc with
              | Some ps =>
                  option_map defaultValue
                    (find (fun p => String.eqb k (key p)) (rev ps))
              | None => None
              end
          | None => None
          end)
  /\ (forall sc p ps,
        s = Some sc -> parameters sc = Some ps -> NoDup (map key ps) -> In p ps ->
        obj_get (key p) (paramValues st') = Some (defaultValue p))
  /\ scenarios st' = scenarios st /\ logs st' = logs st /\ results st' = results st.
Proof.
  intros _ st'. subst st'.
  assert (Hall : forall k,
    obj_get k (paramValues (setSelectedScenario s st))
    = match s with
      | Some sc =>
          match parameters sc with
          | Some ps =>
              option_map defaultValue
                (find (fun p => String.eqb k (key p)) (rev ps))
          | None => None
          end
      | None => None
      end).
  { intros k. cbn. unfold default_paramValues.
    destruct s as [sc|]; [|reflexivity].
    destruct (parameters sc) as [ps|]; [|reflexivity].
    rewrite defaults_fold. now destruct (find _ (rev ps)). }
  split; [reflexivity|]. split; [reflexivity|]. split; [exact Hall|].
  split; [|now repeat split].
  intros sc p ps -> Hps Hnd Hin. rewrite Hall, Hps.
  assert (H : find (fun q => String.eqb (key p) (key q)) (rev ps) = Some p);
    [|now rewrite H].
  apply in_rev in Hin. apply NoDup_rev in Hnd. rewrite <- map_rev in Hnd.
  induction (rev ps) as [|q l IH]; [destruct Hin|].
  cbn [find]. cbn [map] in Hnd. inversion Hnd as [|? ? Hq Hl]; subst.
  destruct Hin as [->|Hin]; [now rewrite String.eqb_refl|].
  destruct (String.eqb (key p) (key q)) eqn:E; [|now apply IH].
  apply String.eqb_eq in E. exfalso. apply Hq. rewrite <- E.
  now apply in_map.
Qed.

Lemma selection_installs_defaults_witness :
  selectedScenario initial_state <> Some e142_obj_services
  /\ obj_get "NEWVAL"
       (paramValues (setSelectedScenario (Some e142_obj_services) initial_state))
     = Some "100".
Proof.
  assert (Hch : selectedScenario initial_state <> Some e142_obj_services)
    by discriminate.
  split; [exact Hch|].
  refine (proj1 (proj2 (proj2 (proj2
            (selection_installs_defaults (Some e142_obj_services) initial_state
               Hch))))
            e142_obj_services NEWVAL _ eq_refl eq_refl _ _).
  - cbn. repeat constructor; cbn; intuition discriminate.
  - cbn. auto.
Defined.

(** X4. The defaults installed by a selection are not validated: whatever
    the scenario declares, once the selection has changed to it the Execute
    button is enabled and a run starts, ending with a verdict for the
    scenario on the history. *)
Theorem run_after_selection_starts gid etext (s : TestScenario) (st : State) :
  runningStep st = None ->
  selectedScenario st <> Some s ->
  let st1 := setSelectedScenario (Some s) st in
  execute_disabled st1 = false
  /\ exists v,
       results (runScenario gid etext s st1) = v :: results st
       /\ scenarioId v = title s
       /\ passed v = forallb outcome_ok (fst (run gid etext s st1)).
Proof.
  intros Hr _ st1.
  assert (Hs : can_start st1) by (split; [exact Hr|reflexivity]).
  split.
  - unfold execute_disabled. now rewrite (proj1 Hs), (proj2 Hs).
  - rewrite results_runScenario by exact Hs. eexists. split; [reflexivity|].
    split; [reflexivity|]. cbn [passed].
    rewrite steps_trace_passed, run_outcomes, steps_trace_outcomes by exact Hs.
    reflexivity.
Qed.

Lemma run_after_selection_starts_witness :
  validateParameter blank_default (defaultValue blank_default)
  = Some "Value is required"
  /\ execute_disabled (setSelectedScenario (Some blank_scenario) initial_state)
     = false.
Proof.
  split; [reflexivity|].
  refine (proj1 (run_after_selection_starts sample_id sample_error blank_scenario
                   initial_state eq_refl _)).
  discriminate.
Defined.

(** ** Runs that do not start, and what a run leaves alone *)

(** X5. An edit that [validateParameter] rejects blocks execution: the error
    is stored under the parameter's key, the Execute button is disabled, and
    a call of [runScenario] executes no step; it appends the single entry
    "Execution Blocked: Fix invalid parameters." with the error map as its
    detail, and arms no timer, records no verdict and marks no step as
    running. *)
Theorem invalid_edit_blocks_run gid etext (p : ScenarioParameter) (v e : string)
  (sc : TestScenario) (st : State) :
  runningStep st = None ->
  validateParameter p v = Some e ->
  let st1 := handleParamChange p v st in
  let st2 := runScenario gid etext sc st1 in
  obj_get (key p) (validationErrors st1) = Some e
  /\ execute_disabled st1 = true
  /\ fst (run gid etext sc st1) = []
  /\ logs st2
     = (logs st
        ++ [mk_entry gid (draws st) (clock st) ERROR
              "Execution Blocked: Fix invalid parameters."
              (record_json (validationErrors st1)) error])%list
  /\ results st2 = results st
  /\ timers st2 = timers st
  /\ clock st2 = clock st
  /\ runningStep st2 = None.
Proof.
  intros Hr Hv st1 st2.
  assert (Hget : obj_get (key p) (validationErrors st1) = Some e).
  { unfold st1. now rewrite handleParamChange_keyed. }
  assert (Hnil : is_nil (validationErrors st1) = false).
  { destruct (validationErrors st1); [discriminate Hget|reflexivity]. }
  assert (Hr1 : runningStep st1 = None).
  { unfold st1, handleParamChange. now destruct (validateParameter p v). }
  assert (Hf : logs st1 = logs st /\ results st1 = results st
               /\ timers st1 = timers st /\ clock st1 = clock st
               /\ draws st1 = draws st).
  { unfold st1, handleParamChange. now destruct (validateParameter p v). }
  destruct Hf as (Hl & Hres & Ht & Hc & Hd).
  split; [exact Hget|].
  split; [unfold execute_disabled; now rewrite Hr1, Hnil|].
  assert (Hrun : run gid etext sc st1
                 = ([], replay gid [blocked_entry (validationErrors st1)] st1)).
  { rewrite run_eq_trace. unfold run_trace. now rewrite Hr1, Hnil. }
  split; [now rewrite Hrun|].
  unfold st2, runScenario, exec. rewrite Hrun. cbn [snd].
  rewrite logs_replay, results_replay, timers_replay, clock_replay.
  cbn [entries blocked_entry verdicts sleeps]. rewrite Hl, Hres, Ht, Hc, Hd.
  split; [reflexivity|]. split; [reflexivity|].
  split; [now rewrite app_nil_r|]. split; [unfold elapsed; cbn; lia|].
  exact Hr1.
Qed.

Lemma invalid_edit_blocks_run_witness :
  results (runScenario sample_id sample_error e142_obj_services
             (handleParamChange NEWVAL "-1"
                (setSelectedScenario (Some e142_obj_services) initial_state)))
  = [].
Proof.
  exact (proj1 (proj2 (proj2 (proj2 (proj2
           (invalid_edit_blocks_run sample_id sample_error NEWVAL "-1"
              "Min value: 0" e142_obj_services
              (setSelectedScenario (Some e142_obj_services) initial_state)
              eq_refl eq_refl)))))).
Defined.

(** X6. Correcting the one parameter that is in error unblocks execution:
    when the error map holds errors for no other key and the new value is
    accepted, the error map is empty after the edit, the Execute button is
    enabled, and a run starts and records a verdict. *)
Theorem valid_edit_unblocks_run gid etext (p : ScenarioParameter) (v : string)
  (sc : TestScenario) (st : State) :
  runningStep st = None ->
  validateParameter p v = None ->
  (forall k, obj_has k (validationErrors st) = true -> k = key p) ->
  let st1 := handleParamChange p v st in
  validationErrors st1 = []
  /\ execute_disabled st1 = false
  /\ exists verdict,
       results (runScenario gid etext sc st1) = verdict :: results st.
Proof.
  intros Hr Hv Honly st1.
  assert (He : validationErrors st1 = []).
  { unfold st1, handleParamChange. rewrite Hv.
    cbn [validationErrors set_validationErrors set_paramValues].
    now apply obj_delete_only. }
  assert (Hr1 : runningStep st1 = None).
  { unfold st1, handleParamChange. now rewrite Hv. }
  assert (Hres : results st1 = results st).
  { unfold st1, handleParamChange. now rewrite Hv. }
  split; [exact He|].
  split; [unfold execute_disabled; now rewrite Hr1, He|].
  rewrite results_runScenario by (split; assumption).
  rewrite Hres. eexists. reflexivity.
Qed.

Lemma valid_edit_unblocks_run_witness :
  validationErrors
    (handleParamChange NEWVAL "100"
       (handleParamChange NEWVAL "-1"
          (setSelectedScenario (Some e142_obj_services) initial_state)))
  = [].
Proof.
  refine (proj1 (valid_edit_unblocks_run sample_id sample_error NEWVAL "100"
                   e142_obj_services
                   (handleParamChange NEWVAL "-1"
                      (setSelectedScenario (Some e142_obj_services) initial_state))
                   eq_refl eq_refl _)).
  intros k H.
  change (obj_has k [("NEWVAL", "Min value: 0")] = true) in H.
  unfold obj_has in H. cbn [obj_get] in H.
  destruct (String.eqb k "NEWVAL") eqn:E; [|discriminate H].
  now apply String.eqb_eq.
Defined.

Lemma runningStep_replay_end gid (es : list event) (v : option nat)
  (t : string) (p : bool) (st : State) :
  runningStep (replay gid (es ++ [EvRunning v; EvVerdict t p; complete_entry p]) st)
  = v.
Proof. rewrite replay_app. reflexivity. Qed.

Lemma runningStep_runScenario gid etext (sc : TestScenario) (st : State) :
  runningStep (runScenario gid etext sc st) = runningStep st.
Proof.
  rewrite runScenario_replay. unfold run_trace.
  destruct (runningStep st) as [i|] eqn:Hr; [exact Hr|].
  destruct (negb (is_nil (validationErrors st))); [exact Hr|].
  destruct (steps_trace etext (paramValues st) 0 (steps sc) true)
    as [[os p] es].
  cbn [snd]. rewrite 2 app_comm_cons. apply runningStep_replay_end.
Qed.

(** X7. [runScenario] is a no-op while a run is marked as running, and in
    every case it leaves the catalog, the selection, the parameter values and
    the error map as they were; a run that was free to start, or was blocked,
    leaves no step marked as running, however its steps ended. *)
Theorem runScenario_frame gid etext (sc : TestScenario) (st : State) :
  let st' := runScenario gid etext sc st in
  scenarios st' = scenarios st
  /\ selectedScenario st' = selectedScenario st
  /\ paramValues st' = paramValues st
  /\ validationErrors st' = validationErrors st
  /\ runningStep st' = runningStep st
  /\ (forall i, runningStep st = Some i -> st' = st).
Proof.
  intros st'. subst st'.
  destruct (frame_replay gid (snd (run_trace etext sc st)) st) as (A & B & C & D).
  rewrite <- runScenario_replay in A, B, C, D.
  repeat (split; [assumption|]).
  split; [apply runningStep_runScenario|].
  intros i Hi. rewrite runScenario_replay. unfold run_trace. now rewrite Hi.
Qed.

(** ** The waits, the entries and the end of a run *)

Lemma malformed_throws etext pv step :
  not_malformed etext pv step = false ->
  exists e, resolveBody etext pv (body (messageToSend step)) = Throw e.
Proof.
  unfold not_malformed, step_outcome, step_trace, reply_trace.
  destruct (resolveBody etext pv (body (messageToSend step))) as [b|e];
    [|intros _; now exists e].
  destruct (waitBit (messageToSend step) && _); [discriminate|].
  destruct (waitBit (messageToSend step)), (expectedResponseSxFy step) as [r|];
    try discriminate;
    destruct (negb (is_empty r)); try discriminate;
    destruct (obj_get r MOCK_RESPONSES) as [reply|]; try discriminate;
    destruct (truthy reply); discriminate.
Qed.

Lemma sleeps_reply_trace step : sleeps (snd (reply_trace step)) = [].
Proof.
  unfold reply_trace.
  destruct (waitBit (messageToSend step)), (expectedResponseSxFy step) as [r|];
    try reflexivity;
    destruct (negb (is_empty r)); try reflexivity;
    destruct (obj_get r MOCK_RESPONSES) as [reply|]; try reflexivity;
    destruct (truthy reply); reflexivity.
Qed.

Lemma sleeps_step_trace etext pv step :
  not_malformed etext pv step = true ->
  sleeps (snd (step_trace etext pv step)) = step_timers step.
Proof.
  unfold not_malformed, step_outcome, step_trace, step_timers.
  destruct (resolveBody etext pv (body (messageToSend step))) as [b|e];
    [intros _|discriminate].
  destruct (waitBit (messageToSend step) && _); [reflexivity|].
  cbn [snd]. rewrite !sleeps_app, sleeps_reply_trace. reflexivity.
Qed.

Lemma sleeps_steps_trace etext pv steps : forall i allPassed,
  forallb (not_malformed etext pv) steps = true ->
  sleeps (snd (steps_trace etext pv i steps allPassed)) = flat_map step_timers steps.
Proof.
  induction steps as [|step rest IH]; intros i allPassed H; [reflexivity|].
  cbn [forallb] in H. apply andb_prop in H as [Hs Hr].
  pose proof (sleeps_step_trace etext pv step Hs) as Ht.
  unfold not_malformed, step_outcome in Hs. cbn [steps_trace flat_map].
  destruct (step_trace etext pv step) as [o es]. cbn [fst snd] in Hs, Ht.
  destruct (is_malformed o); [discriminate|].
  specialize (IH (S i) (allPassed && outcome_ok o) Hr).
  destruct (steps_trace etext pv (S i) rest (allPassed && outcome_ok o))
    as [[os p] es'].
  cbn [snd] in *. cbn [sleeps]. now rewrite sleeps_app, Ht, IH.
Qed.

Lemma elapsed_sum (l : list Z) :
  fold_right (fun ms acc => timer_delay ms + acc) 0 l
  = fold_right Z.add 0 (map timer_delay l).
Proof. induction l as [|x l IH]; [reflexivity|]. cbn. now rewrite IH. Qed.

(** The events of the loop over steps the first of which that does not
    resolve, if any, comes right after [pre]. *)
Lemma sleeps_run_trace etext sc st (pre rest : list TestStep) :
  can_start st ->
  steps sc = (pre ++ rest)%list ->
  forallb (not_malformed etext (paramValues st)) pre = true ->
  (forall step post, rest = step :: post ->
                     not_malformed etext (paramValues st) step = false) ->
  sleeps (snd (run_trace etext sc st)) = flat_map step_timers pre.
Proof.
  intros Hs Hsteps Hpre Hrest. rewrite run_trace_started by exact Hs.
  cbn [snd sleeps starting_entry]. rewrite sleeps_app.
  cbn [sleeps complete_entry]. rewrite app_nil_r, Hsteps.
  destruct rest as [|step post].
  - rewrite app_nil_r. now apply sleeps_steps_trace.
  - destruct (malformed_throws etext (paramValues st) step (Hrest step post eq_refl))
      as [e He].
    rewrite (steps_trace_cut etext (paramValues st) pre step e post true Hpre He).
    cbn [snd]. rewrite sleeps_app. cbn [sleeps malformed_entry].
    rewrite app_nil_r. now apply sleeps_steps_trace.
Qed.

(** X8. The timers of a run.  Let [pre] be the steps before the first one
    whose body does not resolve (all the steps, if every body resolves).  The
    run arms, for each step of [pre] in order, the timeout budget and then
    500 ms when the step expects a reply and its simulated delay exceeds the
    budget, and the simulated delay and then 800 ms otherwise; it arms no
    other timer, and the clock advances by the sum of what these timers
    wait. *)
Theorem run_timers gid etext (sc : TestScenario) (st : State)
  (pre rest : list TestStep) :
  can_start st ->
  steps sc = (pre ++ rest)%list ->
  forallb (not_malformed etext (paramValues st)) pre = true ->
  (forall step post, rest = step :: post ->
                     not_malformed etext (paramValues st) step = false) ->
  let st' := runScenario gid etext sc st in
  timers st' = (timers st ++ flat_map step_timers pre)%list
  /\ clock st'
     = clock st + fold_right Z.add 0 (map timer_delay (flat_map step_timers pre)).
Proof.
  intros Hs Hsteps Hpre Hrest st'. subst st'.
  rewrite runScenario_replay, timers_replay, clock_replay. unfold elapsed.
  rewrite (sleeps_run_trace etext sc st pre rest Hs Hsteps Hpre Hrest).
  now rewrite elapsed_sum.
Qed.

Lemma run_timers_witness :
  timers (runScenario sample_id sample_error e9_timeout initial_state)
  = [500; 800; 2000; 500]
  /\ clock (runScenario sample_id sample_error e9_timeout initial_state) = 3800.
Proof.
  refine (run_timers sample_id sample_error e9_timeout initial_state
            (steps e9_timeout) [] (conj eq_refl eq_refl) _ eq_refl _).
  - now rewrite app_nil_r.
  - intros step post H. discriminate H.
Defined.

Lemma entries_of_step_trace etext pv step :
  List.length (log_dirs (snd (step_trace etext pv step)))
  = entries_of_outcome (fst (step_trace etext pv step)).
Proof.
  unfold step_trace, reply_trace.
  destruct (resolveBody etext pv (body (messageToSend step))) as [b|e];
    [|reflexivity].
  destruct (waitBit (messageToSend step) && _); [reflexivity|].
  destruct (waitBit (messageToSend step)), (expectedResponseSxFy step) as [r|];
    try reflexivity;
    destruct (negb (is_empty r)); try reflexivity;
    destruct (obj_get r MOCK_RESPONSES) as [reply|]; try reflexivity;
    destruct (truthy reply); reflexivity.
Qed.

Lemma entries_of_steps_trace etext pv steps : forall i allPassed,
  List.length (log_dirs (snd (steps_trace etext pv i steps allPassed)))
  = list_sum (map entries_of_outcome
                (fst (fst (steps_trace etext pv i steps allPassed)))).
Proof.
  induction steps as [|step rest IH]; intros i allPassed; [reflexivity|].
  cbn [steps_trace].
  pose proof (entries_of_step_trace etext pv step) as Hs.
  destruct (step_trace etext pv step) as [o es]. cbn [fst snd] in Hs.
  destruct (is_malformed o).
  - cbn [fst snd log_dirs map list_sum fold_right]. unfold list_sum.
    cbn [fold_right]. rewrite Hs. now rewrite Nat.add_0_r.
  - specialize (IH (S i) (allPassed && outcome_ok o)).
    destruct (steps_trace etext pv (S i) rest (allPassed && outcome_ok o))
      as [[os p] es'].
    cbn [fst snd] in *. cbn [log_dirs map]. rewrite log_dirs_app, length_app.
    rewrite Hs, IH. reflexivity.
Qed.

Lemma through_break_length (l : list StepOutcome) :
  (List.length (through_break l) <= List.length l)%nat.
Proof.
  induction l as [|o l IH]; [apply Nat.le_refl|].
  cbn [through_break]. destruct (is_malformed o); cbn [List.length].
  - apply le_n_S, Nat.le_0_l.
  - now apply le_n_S.
Qed.

Lemma entries_sum_bounds (os : list StepOutcome) :
  (List.length os <= list_sum (map entries_of_outcome os)
   /\ list_sum (map entries_of_outcome os) <= 2 * List.length os)%nat.
Proof.
  induction os as [|o os [IH1 IH2]]; [cbn; lia|].
  cbn [map List.length]. unfold list_sum in *. cbn [fold_right].
  revert IH1 IH2.
  generalize (fold_right Nat.add 0%nat (map entries_of_outcome os)).
  generalize (List.length os). intros n m IH1 IH2.
  destruct o; cbn [entries_of_outcome]; lia.
Qed.

(** X9. The number of entries of a run.  A run that starts appends its start
    entry, then for each step it executes the entries of the step's outcome
    (one for a step that is not sent because its body does not resolve, or
    that neither expects nor gets a reply; two for a step that is
    acknowledged, times out or lacks a reply), then its completion entry.  So
    a run of a scenario with n steps appends between 2 and 2n + 2 entries. *)
Theorem run_entry_count gid etext (sc : TestScenario) (st : State) :
  can_start st ->
  let outcomes := fst (run gid etext sc st) in
  let st' := runScenario gid etext sc st in
  (List.length (logs st')
   = List.length (logs st) + 2 + list_sum (map entries_of_outcome outcomes)
   /\ List.length outcomes <= List.length (steps sc)
   /\ List.length (logs st) + 2 + List.length outcomes <= List.length (logs st')
   /\ List.length (logs st') <= List.length (logs st) + 2 + 2 * List.length (steps sc))%nat.
Proof.
  intros Hs outcomes st'.
  assert (Ho : outcomes
               = fst (fst (steps_trace etext (paramValues st) 0 (steps sc) true))).
  { unfold outcomes. rewrite run_eq_trace, run_trace_started by exact Hs.
    reflexivity. }
  assert (Hlen : (List.length (logs st')
                  = List.length (logs st) + 2
                    + list_sum (map entries_of_outcome outcomes))%nat).
  { unfold st'. rewrite runScenario_replay, logs_replay, length_app.
    rewrite <- (length_map direction
                  (entries gid (draws st) (clock st) (snd (run_trace etext sc st)))).
    rewrite log_dirs_entries.
    rewrite run_trace_started by exact Hs. cbn [snd log_dirs starting_entry].
    rewrite log_dirs_app. cbn [log_dirs complete_entry List.length].
    rewrite length_app, entries_of_steps_trace, <- Ho. cbn [List.length].
    generalize (list_sum (map entries_of_outcome outcomes)).
    generalize (List.length (logs st)). intros; lia. }
  assert (Hle : (List.length outcomes <= List.length (steps sc))%nat).
  { rewrite Ho, steps_trace_outcomes.
    rewrite <- (length_map (step_outcome etext (paramValues st)) (steps sc)).
    apply through_break_length. }
  destruct (entries_sum_bounds outcomes) as [H1 H2].
  split; [exact Hlen|]. split; [exact Hle|].
  rewrite Hlen. revert H1 H2 Hle.
  generalize (list_sum (map entries_of_outcome outcomes)).
  generalize (List.length outcomes), (List.length (steps sc)), (List.length (logs st)).
  intros; lia.
Qed.

Lemma run_entry_count_witness :
  (List.length (logs (runScenario sample_id sample_error e9_timeout initial_state))
   = 0 + 2 + 4)%nat.
Proof.
  exact (proj1 (run_entry_count sample_id sample_error e9_timeout initial_state
                  (conj eq_refl eq_refl))).
Defined.

Lemma elapsed_run_trace etext sc st :
  can_start st ->
  elapsed (snd (run_trace etext sc st))
  = elapsed (snd (steps_trace etext (paramValues st) 0 (steps sc) true)).
Proof.
  intros Hs. rewrite run_trace_started by exact Hs. unfold elapsed.
  cbn [snd sleeps starting_entry]. rewrite sleeps_app.
  cbn [sleeps complete_entry]. now rewrite app_nil_r.
Qed.

(** X10. The transcript and the history agree on a run.  A run that starts
    appends first the entry "Starting Scenario: <title>", stamped with the
    time of the call, and last the entry "Scenario Complete: PASSED" of type
    success when the verdict it pushes on the history is passed, and
    "Scenario Complete: FAILED" of type error when it is not; that entry and
    the verdict carry the same time, the time at which the run ends. *)
Theorem completion_matches_verdict gid etext (sc : TestScenario) (st : State) :
  can_start st ->
  let st' := runScenario gid etext sc st in
  exists v starting middle complete,
    results st' = v :: results st
    /\ logs st' = (logs st ++ starting :: middle ++ [complete])%list
    /\ direction starting = INFO
    /\ summary starting = "Starting Scenario: " ++ title sc
    /\ log_timestamp starting = clock st
    /\ direction complete = INFO
    /\ summary complete
       = "Scenario Complete: " ++ (if passed v then "PASSED" else "FAILED")
    /\ log_type complete = (if passed v then success else error)
    /\ log_timestamp complete = timestamp v
    /\ timestamp v = clock st'.
Proof.
  intros Hs st'. subst st'.
  rewrite results_runScenario by exact Hs.
  rewrite runScenario_replay, logs_replay, clock_replay.
  rewrite elapsed_run_trace by exact Hs.
  rewrite run_trace_started by exact Hs.
  cbn [snd entries starting_entry]. rewrite entries_app.
  cbn [entries complete_entry mk_entry].
  eexists _, _, _, _. split; [reflexivity|]. split; [reflexivity|].
  cbn [direction summary log_timestamp log_type passed timestamp].
  repeat split.
Qed.

Lemma completion_matches_verdict_witness :
  exists v starting middle complete,
    results (runScenario sample_id sample_error e9_timeout initial_state)
    = v :: results initial_state
    /\ logs (runScenario sample_id sample_error e9_timeout initial_state)
       = (logs initial_state ++ starting :: middle ++ [complete])%list
    /\ direction starting = INFO
    /\ summary starting = "Starting Scenario: " ++ title e9_timeout
    /\ log_timestamp starting = clock initial_state
    /\ direction complete = INFO
    /\ summary complete
       = "Scenario Complete: " ++ (if passed v then "PASSED" else "FAILED")
    /\ log_type complete = (if passed v then success else error)
    /\ log_timestamp complete = timestamp v
    /\ timestamp v
       = clock (runScenario sample_id sample_error e9_timeout initial_state).
Proof.
  exact (completion_matches_verdict sample_id sample_error e9_timeout
           initial_state (conj eq_refl eq_refl)).
Defined.

(** ** The reply of the equipment *)

Lemma MOCK_RESPONSES_truthy (r : string) (reply : json) :
  obj_get r MOCK_RESPONSES = Some reply -> truthy reply = true.
Proof.
  unfold MOCK_RESPONSES. cbn [obj_get].
  repeat (destruct (String.eqb r _);
          [intros H; injection H as <-; reflexivity|]).
  discriminate.
Qed.

(** X11. The reply to a step that declares an expected response, under a
    name that is not one every object inherits (toString, constructor and the
    like).  When the body resolves and the step does not time out, the
    equipment side always answers, whether or not the message asks for a
    reply: with the entry of the reply table under the expected response,
    logged as "<SxFy> Response", when there is one, and with the fallback
    acknowledgement [{"ACK":0}], logged as "<SxFy> Ack", when there is none.
    Either way the step is Acknowledged, [allPassed] is unchanged, and the
    step waits the simulated delay and then 800 ms. *)
Theorem reply_from_table_or_fallback gid etext pv (step : TestStep)
  (allPassed : bool) (st : State) (msgBody : json) (r : string) :
  resolveBody etext pv (body (messageToSend step)) = Normal msgBody ->
  waitBit (messageToSend step) && (simulateDelayMs step >? timeoutMs step) = false ->
  expectedResponseSxFy step = Some r ->
  r <> "" ->
  inherited r = false ->
  let res := run_step gid etext pv step allPassed st in
  fst res = (Acknowledged (reply_payload r), allPassed, Continue)
  /\ logs (snd res)
     = (logs st
        ++ [ mk_entry gid (draws st) (clock st) HOST_TO_EQP
               (sxfy_of (messageToSend step) ++ " "
                ++ msg_name (messageToSend step) ++ " "
                ++ (if waitBit (messageToSend step) then "[W]" else ""))
               msgBody info;
             mk_entry gid (S (draws st))
               (clock st + timer_delay (simulateDelayMs step)) EQP_TO_HOST
               (r ++ (if obj_has r MOCK_RESPONSES then " Response" else " Ack"))
               (reply_payload r) success ])%list
  /\ timers (snd res) = (timers st ++ [simulateDelayMs step; 800])%list.
Proof.
  intros Hb Hw Hr Hne _ res. subst res. rewrite run_step_trace.
  assert (Ht : step_trace etext pv step
               = (Acknowledged (reply_payload r),
                  [sent_entry step msgBody; EvSleep (simulateDelayMs step);
                   EvLog EQP_TO_HOST
                     (r ++ (if obj_has r MOCK_RESPONSES then " Response" else " Ack"))
                     (reply_payload r) success;
                   EvSleep 800])).
  { unfold step_trace, reply_trace, reply_payload, obj_has.
    rewrite Hb, Hw, Hr.
    assert (He : negb (is_empty r) = true) by (now destruct r).
    rewrite He.
    destruct (obj_get r MOCK_RESPONSES) as [reply|] eqn:Hg; [|reflexivity].
    now rewrite (MOCK_RESPONSES_truthy r reply Hg). }
  unfold step_outcome. rewrite Ht. cbn [fst snd outcome_ok is_malformed].
  rewrite andb_true_r.
  split; [reflexivity|]. split; [|now rewrite timers_replay].
  rewrite logs_replay. reflexivity.
Qed.

Lemma reply_from_table_or_fallback_witness :
  fst (run_step sample_id sample_error [] (step_of false (Some "S1F2") None None)
         true initial_state)
  = (Acknowledged fallback_ack, true, Continue).
Proof.
  refine (proj1 (reply_from_table_or_fallback sample_id sample_error []
                   (step_of false (Some "S1F2") None None) true initial_state
                   (JObj []) "S1F2" eq_refl eq_refl eq_refl _ eq_refl)).
  discriminate.
Defined.

(** ** The badge of a scenario and the counts of the report panel *)

(** X12. The badge a scenario card shows is the verdict of the latest run
    under the scenario's title.  After a run that starts, the lookup by the
    title of the scenario run gives the flag of that run (passed exactly when
    every outcome is Acknowledged or neutral), for any other title the badge
    is as before; after [clearLogs] no scenario has a badge. *)
Theorem lastResult_after_run gid etext (sc : TestScenario) (st : State) :
  can_start st ->
  let st' := runScenario gid etext sc st in
  lastResult (results st') (title sc)
  = Some (forallb outcome_ok (fst (run gid etext sc st)))
  /\ (forall t, t <> title sc ->
                lastResult (results st') t = lastResult (results st) t)
  /\ (forall t, lastResult (results (clearLogs st')) t = None).
Proof.
  intros Hs st'. subst st'. rewrite results_runScenario by exact Hs.
  unfold lastResult. cbn [find scenarioId].
  split; [|split].
  - rewrite String.eqb_refl. cbn [option_map passed].
    rewrite steps_trace_passed, run_outcomes, steps_trace_outcomes by exact Hs.
    reflexivity.
  - intros t Ht. assert (E : String.eqb (title sc) t = false).
    { apply String.eqb_neq. congruence. }
    now rewrite E.
  - reflexivity.
Qed.

Lemma lastResult_after_run_witness :
  lastResult
    (results (runScenario sample_id sample_error e9_timeout initial_state))
    (title e9_timeout)
  = Some false.
Proof.
  exact (proj1 (lastResult_after_run sample_id sample_error e9_timeout
                  initial_state (conj eq_refl eq_refl))).
Defined.

Lemma counts_partition (l : list TestResult) :
  (passedCount l + failedCount l = List.length l)%nat.
Proof.
  unfold passedCount, failedCount.
  induction l as [|r l IH]; [reflexivity|].
  cbn [filter]. destruct (passed r); cbn [negb List.length]; lia.
Qed.

(** X13. The two counts of the report panel split the history: every verdict
    is counted once, as passed or as failed.  A run that starts adds one to
    the passed count when every outcome is Acknowledged or neutral, and one
    to the failed count otherwise; [clearLogs] resets both to 0. *)
Theorem report_counts gid etext (sc : TestScenario) (st : State) :
  can_start st ->
  let st' := runScenario gid etext sc st in
  let ok := forallb outcome_ok (fst (run gid etext sc st)) in
  ((forall l, passedCount l + failedCount l = List.length l)
   /\ passedCount (results st') = passedCount (results st) + (if ok then 1 else 0)
   /\ failedCount (results st') = failedCount (results st) + (if ok then 0 else 1)
   /\ passedCount (results (clearLogs st')) = 0
   /\ failedCount (results (clearLogs st')) = 0)%nat.
Proof.
  intros Hs st' ok. split; [exact counts_partition|].
  assert (Hok : snd (fst (steps_trace etext (paramValues st) 0 (steps sc) true)) = ok).
  { unfold ok.
    rewrite steps_trace_passed, run_outcomes, steps_trace_outcomes by exact Hs.
    reflexivity. }
  unfold st'. rewrite results_runScenario by exact Hs. rewrite Hok.
  unfold passedCount, failedCount. cbn [filter passed].
  destruct ok; cbn [negb List.length]; repeat split; lia.
Qed.

Lemma report_counts_witness :
  (failedCount (results (runScenario sample_id sample_error e9_timeout initial_state))
   = 0 + 1)%nat.
Proof.
  exact (proj1 (proj2 (proj2
           (report_counts sample_id sample_error e9_timeout initial_state
              (conj eq_refl eq_refl))))).
Defined.

(** ** The invariant of a session *)

Lemma handleParamChange_fields (p : ScenarioParameter) (v : string) (st : State) :
  paramValues (handleParamChange p v st) = obj_set (key p) v (paramValues st)
  /\ selectedScenario (handleParamChange p v st) = selectedScenario st
  /\ runningStep (handleParamChange p v st) = runningStep st.
Proof. unfold handleParamChange. now destruct (validateParameter p v). Qed.

Lemma validationErrors_other (p : ScenarioParameter) (v k : string) (st : State) :
  String.eqb k (key p) = false ->
  obj_get k (validationErrors (handleParamChange p v st))
  = obj_get k (validationErrors st).
Proof.
  intros Hk. unfold handleParamChange. destruct (validateParameter p v); cbn.
  - now apply obj_get_set_other.
  - now apply obj_get_delete_other.
Qed.

Lemma addLog_fields gid dir text data ty (st : State) :
  let st' := exec (addLog gid dir text data ty) st in
  selectedScenario st' = selectedScenario st
  /\ paramValues st' = paramValues st
  /\ validationErrors st' = validationErrors st
  /\ runningStep st' = runningStep st.
Proof. now repeat split. Qed.

(** An import either leaves the selection, the values, the errors and the
    running mark alone, or drops a selection together with its values and
    errors. *)
Lemma handleImportScenarios_fields gid etext file (st : State) :
  let st' := handleImportScenarios gid etext file st in
  runningStep st' = runningStep st
  /\ ((selectedScenario st' = selectedScenario st
       /\ paramValues st' = paramValues st
       /\ validationErrors st' = validationErrors st)
      \/ (selectedScenario st' = None /\ paramValues st' = []
          /\ validationErrors st' = [])).
Proof.
  unfold handleImportScenarios. destruct file as [text|]; [|now split; [|left]].
  destruct (JSON_parse text) as [[| | | |imported|]|];
    try (split; [reflexivity|left; now repeat split]).
  cbn [selectedScenario set_scenarios].
  destruct (selectedScenario st) eqn:E.
  - split; [reflexivity|right; now repeat split].
  - split; [reflexivity|left]. cbn. now rewrite E.
Qed.

Lemma invariant_transfer (st st' : State) :
  selectedScenario st' = selectedScenario st ->
  paramValues st' = paramValues st ->
  validationErrors st' = validationErrors st ->
  errors_sound st /\ values_declared st ->
  errors_sound st' /\ values_declared st'.
Proof.
  intros Hs Hp He [H1 H2]. unfold errors_sound, values_declared, declared.
  rewrite Hs, Hp, He. split; assumption.
Qed.

Lemma invariant_of_defaults (s : option TestScenario) (st : State) :
  errors_sound (setSelectedScenario s st)
  /\ values_declared (setSelectedScenario s st).
Proof.
  split.
  - intros k e H. discriminate H.
  - intros k v H. cbn in H. unfold default_paramValues in H.
    destruct s as [sc|]; [|discriminate H].
    destruct (parameters sc) as [ps|] eqn:Hps; [|discriminate H].
    rewrite defaults_fold in H.
    destruct (find (fun p => String.eqb k (key p)) (rev ps)) as [p|] eqn:Hf;
      [|discriminate H].
    apply find_some in Hf as [Hin Hk]. apply String.eqb_eq in Hk.
    exists p, sc, ps. repeat split; [exact Hps|now apply in_rev|now symmetry].
Qed.

Lemma invariant_of_change (p : ScenarioParameter) (v : string) (st : State)
  (sc : TestScenario) (ps : list ScenarioParameter) :
  selectedScenario st = Some sc -> parameters sc = Some ps -> In p ps ->
  errors_sound st /\ values_declared st ->
  errors_sound (handleParamChange p v st)
  /\ values_declared (handleParamChange p v st).
Proof.
  intros Hsel Hps Hin [He Hv].
  destruct (handleParamChange_fields p v st) as (Fp & Fs & _).
  assert (Hd : forall k q, declared st k q -> declared (handleParamChange p v st) k q).
  { intros k q (sc0 & ps0 & H). exists sc0, ps0. now rewrite Fs. }
  assert (Hp : declared (handleParamChange p v st) (key p) p).
  { exists sc, ps. rewrite Fs. now repeat split. }
  split.
  - intros k e H. destruct (String.eqb k (key p)) eqn:E.
    + apply String.eqb_eq in E. subst k. rewrite handleParamChange_keyed in H.
      exists p, v. split; [exact Hp|]. split; [|exact H].
      rewrite Fp. apply obj_get_set_same.
    + rewrite validationErrors_other in H by exact E.
      destruct (He k e H) as (q & w & Hq & Hw & Hvq).
      exists q, w. split; [now apply Hd|]. split; [|exact Hvq].
      rewrite Fp. now rewrite obj_get_set_other.
  - intros k w H. destruct (String.eqb k (key p)) eqn:E.
    + apply String.eqb_eq in E. subst k. now exists p.
    + rewrite Fp, obj_get_set_other in H by exact E.
      destruct (Hv k w H) as [q Hq]. exists q. now apply Hd.
Qed.

Lemma session_keeps_invariant gid etext (st : State) :
  session gid etext st ->
  runningStep st = None /\ errors_sound st /\ values_declared st.
Proof.
  induction 1 as [|st a Hs IH Ha].
  - split; [reflexivity|]. split.
    + intros k e H. discriminate H.
    + intros k v H. discriminate H.
  - destruct IH as [Hr Hinv].
    destruct Ha as [s|sc ps p v Hsel Hps Hin|sc Hsel| | |file]; cbn [perform].
    + split; [exact Hr|]. apply invariant_of_defaults.
    + split; [now rewrite (proj2 (proj2 (handleParamChange_fields p v st)))|].
      now apply (invariant_of_change p v st sc ps).
    + split; [now rewrite runningStep_runScenario|].
      destruct (frame_replay gid (snd (run_trace etext sc st)) st)
        as (_ & B & C & D).
      rewrite <- runScenario_replay in B, C, D.
      now apply (invariant_transfer st).
    + split; [exact Hr|]. now apply (invariant_transfer st).
    + split; [exact Hr|]. now apply (invariant_transfer st).
    + destruct (handleImportScenarios_fields gid etext file st)
        as [Fr [(Fs & Fp & Fe)|(Fs & Fp & Fe)]].
      * split; [now rewrite Fr|]. now apply (invariant_transfer st).
      * split; [now rewrite Fr|]. split.
        -- intros k e H. rewrite Fe in H. discriminate H.
        -- intros k v H. rewrite Fp in H. discriminate H.
Qed.

(** X14. The invariant of a session.  In every state reached from the
    initial state by the operations the page offers (selecting a scenario,
    editing a parameter of the selected scenario, executing the selected
    scenario, clearing, exporting, importing): no run is left marked as
    running; every key that holds a value or an error is the key of a
    parameter of the selected scenario; every error in the error map is the
    verdict of [validateParameter], for such a parameter, on the value the
    key holds now; with no scenario selected there are no values and no
    errors; and the Execute button is disabled only if some parameter of the
    selected scenario holds a value that [validateParameter] rejects. *)
Theorem session_invariant gid etext (st : State) :
  session gid etext st ->
  runningStep st = None
  /\ errors_sound st
  /\ values_declared st
  /\ (selectedScenario st = None -> paramValues st = [] /\ validationErrors st = [])
  /\ (execute_disabled st = true ->
      exists k p v e,
        declared st k p /\ obj_get k (paramValues st) = Some v
        /\ validateParameter p v = Some e).
Proof.
  intros Hs. destruct (session_keeps_invariant gid etext st Hs) as (Hr & He & Hv).
  repeat (split; [assumption|]). split.
  - intros Hn. split.
    + destruct (paramValues st) as [|[k v] l] eqn:E; [reflexivity|].
      destruct (Hv k v) as (p & sc & ps & H & _).
      * rewrite E. cbn. now rewrite String.eqb_refl.
      * congruence.
    + destruct (validationErrors st) as [|[k e] l] eqn:E; [reflexivity|].
      destruct (He k e) as (p & v & (sc & ps & H & _) & _).
      * rewrite E. cbn. now rewrite String.eqb_refl.
      * congruence.
  - unfold execute_disabled. rewrite Hr.
    destruct (validationErrors st) as [|[k e] l] eqn:E; [discriminate|].
    intros _. destruct (He k e) as (p & v & H).
    + rewrite E. cbn. now rewrite String.eqb_refl.
    + now exists k, p, v, e.
Qed.

Lemma session_invariant_witness :
  runningStep
    (handleParamChange NEWVAL "-1"
       (setSelectedScenario (Some e142_obj_services) initial_state))
  = None
  /\ selectedScenario
       (handleParamChange NEWVAL "-1"
          (setSelectedScenario (Some e142_obj_services) initial_state))
     <> None.
Proof.
  split; [|discriminate].
  refine (proj1 (session_invariant sample_id sample_error _ _)).
  apply (session_step sample_id sample_error
           (setSelectedScenario (Some e142_obj_services) initial_state)
           (ParamChange NEWVAL "-1")).
  - apply (session_step sample_id sample_error initial_state
             (SelectScenario (Some e142_obj_services))).
    + apply session_start.
    + apply offered_select.
  - apply (offered_change _ e142_obj_services
             [ mkParam "OBJID" "Object ID" "WaferMap_01" "Target Object Identifier"
                 STRING None None None;
               mkParam "ATTRID" "Attribute ID" "BinMap" "Attribute to query/set"
                 STRING None None None;
               NEWVAL ]).
    + reflexivity.
    + reflexivity.
    + right. right. left. reflexivity.
Defined.

(** ** The transcript in the log viewer *)








Lemma string_forallb_app (p : ascii -> bool) (a b : string) :
  string_forallb p (a ++ b) = string_forallb p a && string_forallb p b.
Proof.
  induction a as [|c a IH]; [reflexivity|].
  cbn [append string_forallb]. now rewrite IH, andb_assoc.
Qed.

Lemma remove_braces_clean (s : string) :
  string_forallb not_brace (remove_braces s) = true.
Proof.
  induction s as [|c s IH]; [reflexivity|].
  cbn [remove_braces]. destruct (is_brace c) eqn:E; [exact IH|].
  cbn [string_forallb]. unfold not_brace at 1. now rewrite E, IH.
Qed.

Lemma trim_start_forallb (p : ascii -> bool) (s : string) :
  string_forallb p s = true -> string_forallb p (trim_start s) = true.
Proof.
  induction s as [|c s IH]; [reflexivity|].
  cbn [trim_start]. destruct (is_StrWhiteSpaceChar c); [|easy].
  cbn [string_forallb]. intros H. apply andb_prop in H as [_ H]. now apply IH.
Qed.

Lemma trim_end_forallb (p : ascii -> bool) (s : string) :
  string_forallb p s = true -> string_forallb p (trim_end s) = true.
Proof.
  induction s as [|c s IH]; [reflexivity|].
  cbn [trim_end string_forallb]. intros H. apply andb_prop in H as [Hc H].
  destruct (is_empty (trim_end s) && is_StrWhiteSpaceChar c); [reflexivity|].
  cbn [string_forallb]. now rewrite Hc, IH.
Qed.

Lemma trim_end_idempotent (s : string) : trim_end (trim_end s) = trim_end s.
Proof.
  induction s as [|c s IH]; [reflexivity|].
  cbn [trim_end].
  destruct (is_empty (trim_end s) && is_StrWhiteSpaceChar c) eqn:E; [reflexivity|].
  cbn [trim_end]. now rewrite IH, E.
Qed.

Lemma trim_start_fixed (s : string) :
  match s with
  | "" => True
  | String c _ => is_StrWhiteSpaceChar c = false
  end ->
  trim_start s = s.
Proof. destruct s as [|c s]; [reflexivity|]. cbn. now intros ->. Qed.

Lemma trim_start_head (s : string) :
  match trim_start s with
  | "" => True
  | String c _ => is_StrWhiteSpaceChar c = false
  end.
Proof.
  induction s as [|c s IH]; [exact I|].
  cbn [trim_start]. destruct (is_StrWhiteSpaceChar c) eqn:E; [exact IH|exact E].
Qed.

Lemma trim_idempotent (s : string) : trim (trim s) = trim s.
Proof.
  unfold trim. pose proof (trim_start_head s) as H.
  destruct (trim_start s) as [|c t] eqn:E; [reflexivity|].
  assert (Ht : trim_end (String c t) = String c (trim_end t)).
  { cbn [trim_end]. now rewrite H, andb_false_r. }
  rewrite Ht. rewrite trim_start_fixed by exact H.
  rewrite <- Ht. apply trim_end_idempotent.
Qed.

(** X16. What [formatSML] shows.  The text shown for a value holds no brace
    at all, those inside string values included, and has no white space at
    either end (trimming it again changes nothing); the empty object, the
    detail of most entries, is shown as the empty text. *)
Theorem formatSML_shape (j : json) :
  string_forallb not_brace (formatSML j) = true
  /\ trim (formatSML j) = formatSML j
  /\ formatSML (JObj []) = "".
Proof.
  split; [|split; [apply trim_idempotent|reflexivity]].
  unfold formatSML, trim. apply trim_end_forallb, trim_start_forallb.
  apply remove_braces_clean.
Qed.

(** ** The report service *)

Lemma slice_last_app {A : Type} (n : nat) (old recent : list A) :
  (n <= List.length recent)%nat ->
  slice_last n (old ++ recent) = slice_last n recent.
Proof.
  intros H. unfold slice_last. rewrite length_app, skipn_app.
  replace (List.length old + List.length recent - n)%nat
    with (List.length old + (List.length recent - n))%nat by lia.
  rewrite skipn_all2 by lia. cbn [app]. f_equal. lia.
Qed.

Lemma slice_last_short {A : Type} (n : nat) (l : list A) :
  (List.length l <= n)%nat -> slice_last n l = l.
Proof.
  intros H. unfold slice_last.
  replace (List.length l - n)%nat with 0%nat by lia. reflexivity.
Qed.

(** X17. The report request reads the last twenty entries of the transcript
    only.  A transcript of at most twenty entries goes into the prompt whole;
    of a longer one only the last twenty do, so entries logged earlier change
    neither the prompt nor the report, whatever the rendering of times, the
    client and the model are. *)
Theorem report_reads_last_twenty (toISOString : Z -> string)
  (GoogleGenAI : string -> completion unit)
  (generateContent : string -> completion (option string))
  (API_KEY : option string) (old recent : list LogEntry)
  (results : list TestResult) :
  (20 <= List.length recent)%nat ->
  recentLogs toISOString (old ++ recent) = recentLogs toISOString recent
  /\ prompt toISOString (old ++ recent) results = prompt toISOString recent results
  /\ generateTestReport toISOString GoogleGenAI generateContent API_KEY
       (old ++ recent) results
     = generateTestReport toISOString GoogleGenAI generateContent API_KEY
         recent results
  /\ (forall logs : list LogEntry,
        (List.length logs <= 20)%nat -> slice_last 20 logs = logs).
Proof.
  intros H.
  assert (Hr : recentLogs toISOString (old ++ recent)
               = recentLogs toISOString recent).
  { unfold recentLogs. now rewrite slice_last_app. }
  assert (Hp : prompt toISOString (old ++ recent) results
               = prompt toISOString recent results).
  { unfold prompt. now rewrite Hr. }
  split; [exact Hr|]. split; [exact Hp|].
  split; [|intros logs; apply slice_last_short].
  unfold generateTestReport. now rewrite Hp.
Qed.

Lemma report_reads_last_twenty_witness :
  recentLogs sample_time
    (logs (runScenario sample_id sample_error e9_timeout initial_state)
     ++ repeat (mk_entry sample_id 0 0 INFO "tick" empty_object info) 20)
  = recentLogs sample_time
      (repeat (mk_entry sample_id 0 0 INFO "tick" empty_object info) 20).
Proof.
  refine (proj1 (report_reads_last_twenty sample_time sample_client failing_call
                   None _ (repeat _ 20) [] _)).
  cbn. lia.
Defined.

(** X18. The failures of a report request.  Without an API key the service
    throws "API Key not found" before anything else, and the panel keeps the
    report it had.  With a key for which the client is built, the service
    never throws: when the call to the model fails, or its answer is not a
    JSON text, the result is the fixed fallback report; an answer without
    text counts as the text of the empty object; and the panel shows the
    result.  In every case the panel ends with its loading flag off. *)
Theorem report_failures (toISOString : Z -> string)
  (GoogleGenAI : string -> completion unit)
  (generateContent : string -> completion (option string))
  (logs : list LogEntry) (results : list TestResult) (rs : ReportState) :
  let service := generateTestReport toISOString GoogleGenAI generateContent in
  let panel := handleGenerateAI toISOString GoogleGenAI generateContent in
  (forall key, key = None \/ key = Some "" ->
     service key logs results = Throw "API Key not found"
     /\ panel key logs results rs = {| report := report rs; loading := false |})
  /\ (forall apiKey, apiKey <> "" -> GoogleGenAI apiKey = Normal tt ->
      exists r,
        service (Some apiKey) logs results = Normal r
        /\ panel (Some apiKey) logs results rs = {| report := r; loading := false |}
        /\ ((exists e, generateContent (prompt toISOString logs results) = Throw e)
            -> r = fallback_report)
        /\ (forall text,
              generateContent (prompt toISOString logs results) = Normal (Some text) ->
              text <> "" ->
              r = match JSON_parse text with
                  | Some v => v
                  | None => fallback_report
                  end)
        /\ (generateContent (prompt toISOString logs results) = Normal None
            \/ generateContent (prompt toISOString logs results) = Normal (Some "")
            -> r = JObj []))
  /\ (forall key, loading (panel key logs results rs) = false).
Proof.
  intros service panel. subst service panel. split; [|split].
  - intros key [-> | ->]; split; reflexivity.
  - intros apiKey Hne Hc. apply is_empty_false in Hne.
    unfold handleGenerateAI, generateTestReport. rewrite Hne, Hc.
    destruct (generateContent (prompt toISOString logs results)) as [[text|]|e].
    + destruct (is_empty text) eqn:Et.
      * exists (JObj []). split; [reflexivity|]. split; [reflexivity|].
        split; [intros [e He]; discriminate He|].
        split; [|reflexivity].
        intros t Ht Hn. injection Ht as <-. apply is_empty_false in Hn. congruence.
      * destruct (JSON_parse text) as [v|] eqn:Ep.
        -- exists v. split; [reflexivity|]. split; [reflexivity|].
           split; [intros [e He]; discriminate He|].
           split.
           ++ intros t Ht _. injection Ht as <-. now rewrite Ep.
           ++ intros [H|H]; [discriminate H|]. injection H as ->. discriminate Et.
        -- exists fallback_report. split; [reflexivity|]. split; [reflexivity|].
           split; [reflexivity|]. split.
           ++ intros t Ht _. injection Ht as <-. now rewrite Ep.
           ++ intros [H|H]; [discriminate H|]. injection H as ->. discriminate Et.
    + exists (JObj []). split; [reflexivity|]. split; [reflexivity|].
      split; [intros [e He]; discriminate He|].
      split; [intros t Ht; discriminate Ht|reflexivity].
    + exists fallback_report. split; [reflexivity|]. split; [reflexivity|].
      split; [reflexivity|].
      split; [intros t Ht; discriminate Ht|].
      intros [H|H]; discriminate H.
  - intros key. unfold handleGenerateAI.
    now destruct (generateTestReport _ _ _ key logs results).
Qed.

(** ** The export link *)

Lemma encode_unit_safe (c : ascii) : string_forallb uri_safe (encode_unit c) = true.
Proof. destruct c as [[] [] [] [] [] [] [] []]; reflexivity. Qed.

Lemma decode_encode_unit (c : ascii) (rest : string) :
  decode_unit (encode_unit c ++ rest) = Some (c, rest).
Proof. destruct c as [[] [] [] [] [] [] [] []]; reflexivity. Qed.

Lemma encodeURIComponent_injective (s1 : string) : forall s2,
  encodeURIComponent s1 = encodeURIComponent s2 -> s1 = s2.
Proof.
  induction s1 as [|c1 s1 IH]; intros [|c2 s2] H.
  - reflexivity.
  - apply (f_equal decode_unit) in H. cbn [encodeURIComponent] in H.
    rewrite decode_encode_unit in H. discriminate H.
  - apply (f_equal decode_unit) in H. cbn [encodeURIComponent] in H.
    rewrite decode_encode_unit in H. discriminate H.
  - apply (f_equal decode_unit) in H. cbn [encodeURIComponent] in H.
    rewrite 2 decode_encode_unit in H. injection H as -> H.
    f_equal. now apply IH.
Qed.

Lemma strip_prefix_append (a b : string) : strip_prefix a (a ++ b) = Some b.
Proof.
  induction a as [|c a IH]; [reflexivity|].
  cbn [append strip_prefix]. now rewrite Ascii.eqb_refl.
Qed.

(** X19. The link of an export.  The payload that [encodeURIComponent]
    produces holds only unreserved characters and percent signs, so the
    quotes, spaces and line breaks of the serialised catalog never stand in
    the link as such; and the escaping loses nothing: texts that differ have
    different escapes, so two catalogs with the same link serialise to the
    same text. *)
Theorem export_link_safe_and_lossless :
  (forall s, string_forallb uri_safe (encodeURIComponent s) = true)
  /\ (forall s1 s2, encodeURIComponent s1 = encodeURIComponent s2 -> s1 = s2)
  /\ (forall st1 st2, dataStr st1 = dataStr st2 ->
                      exported_text st1 = exported_text st2).
Proof.
  assert (Hsafe : forall s, string_forallb uri_safe (encodeURIComponent s) = true).
  { induction s as [|c s IH]; [reflexivity|].
    cbn [encodeURIComponent]. now rewrite string_forallb_app, encode_unit_safe, IH. }
  split; [exact Hsafe|]. split; [intros s1 s2; apply encodeURIComponent_injective|].
  intros st1 st2 H. apply encodeURIComponent_injective.
  unfold dataStr in H.
  apply (f_equal (strip_prefix "data:text/json;charset=utf-8,")) in H.
  rewrite 2 strip_prefix_append in H. now injection H.
Qed.

(** ** The numbers typed into a numeric parameter *)

Lemma trim_start_ws_app (ws s : string) :
  all_ws ws = true -> trim_start (ws ++ s) = trim_start s.
Proof.
  unfold all_ws. induction ws as [|c ws IH]; [reflexivity|].
  cbn [string_forallb append trim_start]. intros H.
  apply andb_prop in H as [Hc H]. rewrite Hc. now apply IH.
Qed.

Lemma trim_end_all_ws (ws : string) : all_ws ws = true -> trim_end ws = "".
Proof.
  unfold all_ws. induction ws as [|c ws IH]; [reflexivity|].
  cbn [string_forallb trim_end]. intros H. apply andb_prop in H as [Hc H].
  now rewrite (IH H), Hc.
Qed.

Lemma trim_end_app_ws (s ws : string) :
  all_ws ws = true -> trim_end (s ++ ws) = trim_end s.
Proof.
  intros H. induction s as [|c s IH]; [now apply trim_end_all_ws|].
  cbn [append trim_end]. now rewrite IH.
Qed.

Lemma trim_end_no_ws (s : string) : no_ws s = true -> trim_end s = s.
Proof.
  unfold no_ws. induction s as [|c s IH]; [reflexivity|].
  cbn [string_forallb trim_end]. intros H. apply andb_prop in H as [Hc H].
  apply negb_true_iff in Hc. now rewrite (IH H), Hc, andb_false_r.
Qed.

Lemma trim_start_no_ws (s : string) : no_ws s = true -> trim_start s = s.
Proof.
  unfold no_ws. destruct s as [|c s]; [reflexivity|].
  cbn [string_forallb trim_start]. intros H. apply andb_prop in H as [Hc _].
  apply negb_true_iff in Hc. now rewrite Hc.
Qed.

Lemma digit_facts (c : ascii) :
  is_digit c = true ->
  is_StrWhiteSpaceChar c = false /\ Ascii.eqb c "I" = false.
Proof. destruct c as [[] [] [] [] [] [] [] []]; cbn; intros H; auto; discriminate. Qed.

Lemma digits_no_ws (s : string) : all_digits s = true -> no_ws s = true.
Proof.
  unfold all_digits, no_ws. induction s as [|c s IH]; [reflexivity|].
  cbn [string_forallb]. intros H. apply andb_prop in H as [Hc H].
  now rewrite (proj1 (digit_facts c Hc)), IH.
Qed.

Lemma Z_digits_no_ws (z : Z) : no_ws (Z_digits z) = true.
Proof.
  unfold Z_digits. destruct (z <? 0); cbn [append].
  - unfold no_ws. cbn [string_forallb].
    change (string_forallb _ (N_digits (Z.abs_N z))) with (no_ws (N_digits (Z.abs_N z))).
    rewrite digits_no_ws by apply all_digits_N. reflexivity.
  - apply digits_no_ws, all_digits_N.
Qed.

(** White space around the digits of an integer is trimmed away. *)
Lemma trim_padded (ws1 ws2 : string) (z : Z) :
  all_ws ws1 = true -> all_ws ws2 = true ->
  trim (ws1 ++ Z_digits z ++ ws2) = Z_digits z.
Proof.
  intros H1 H2. unfold trim. rewrite trim_start_ws_app by exact H1.
  pose proof (Z_digits_no_ws z) as Hn.
  assert (Hs : trim_start (Z_digits z ++ ws2) = Z_digits z ++ ws2).
  { destruct (Z_digits_head z) as (c & tail & E & _). rewrite E in *.
    cbn [append trim_start]. unfold no_ws in Hn. cbn [string_forallb] in Hn.
    apply andb_prop in Hn as [Hc _]. apply negb_true_iff in Hc. now rewrite Hc. }
  rewrite Hs, trim_end_app_ws by exact H2. now apply trim_end_no_ws.
Qed.

Lemma StrUnsignedDecimalLiteral_digits (neg : bool) (p : positive) :
  StrUnsignedDecimalLiteral neg (N_digits (Npos p))
  = Fin (if neg then Zneg p else Zpos p) 0.
Proof.
  destruct (N_digits_pos p "" eq_refl) as (c & tail & E & Hc & H0 & Hr & Hv).
  rewrite append_nil_r in Hr. unfold StrUnsignedDecimalLiteral.
  assert (Hi : String.eqb (N_digits (Npos p)) "Infinity" = false).
  { rewrite E. cbn [String.eqb]. now rewrite (proj2 (digit_facts c Hc)). }
  rewrite Hi, Hr. cbn [is_empty read_exponent].
  rewrite E at 1. cbn [is_empty andb].
  unfold decimal_value. rewrite append_nil_r, Hv.
  cbn [String.length Z.of_nat Z.sub Z.opp Z.add].
  destruct neg; now rewrite mkFin_integer.
Qed.

Lemma StringToNumber_digits (s : string) (z : Z) :
  trim s = Z_digits z -> StringToNumber s = Fin z 0.
Proof.
  intros Ht. unfold StringToNumber. rewrite Ht. unfold Z_digits.
  destruct z as [|p|p].
  - reflexivity.
  - cbn [Z.ltb Z.compare Z.abs_N Z.abs Z.to_N append].
    rewrite <- (StrUnsignedDecimalLiteral_digits false p).
    destruct (N_digits_pos p "" eq_refl) as (c & tail & E & Hc & H0 & _).
    rewrite E. clear E.
    destruct c as [[] [] [] [] [] [] [] []]; cbn in Hc, H0;
      try discriminate; reflexivity.
  - cbn [Z.ltb Z.compare Z.abs_N Z.abs Z.to_N append].
    now rewrite <- (StrUnsignedDecimalLiteral_digits true p).
Qed.

Lemma StringToNumber_blank (s : string) : all_ws s = true -> StringToNumber s = Fin 0 0.
Proof.
  intros H. unfold StringToNumber, trim.
  assert (E : trim_start s = "").
  { revert H. unfold all_ws. induction s as [|c s IH]; [reflexivity|].
    cbn [string_forallb trim_start]. intros H. apply andb_prop in H as [Hc H].
    rewrite Hc. now apply IH. }
  now rewrite E.
Qed.

Lemma num_lt_integers (a b : Z) : num_lt (Fin a 0) (Fin b 0) = (a <? b).
Proof. cbn. now rewrite !Z.mul_1_r. Qed.

Lemma validateParameter_integer (p : ScenarioParameter) (v : string) (z lo hi : Z) :
  param_type p = Some NUMBER ->
  min p = Some (Fin lo 0) -> max p = Some (Fin hi 0) ->
  v <> "" -> Number v = Fin z 0 ->
  validateParameter p v
  = if z <? lo then Some ("Min value: " ++ num lo)
    else if hi <? z then Some ("Max value: " ++ num hi)
    else None.
Proof.
  intros Hty Hlo Hhi Hne Hn. apply is_empty_false in Hne.
  unfold validateParameter. rewrite Hne, Hty, Hn, Hlo, Hhi. cbn [andb num_isNaN].
  unfold num_gt. rewrite !num_lt_integers. reflexivity.
Qed.

(** X20. How a numeric parameter reads what is typed.  For a parameter of
    type NUMBER with integer bounds [lo] and [hi], and for integers that a
    number holds exactly (at most 2^53 in absolute value, the bounds too):
    the decimal digits of an integer [z] (with a minus sign for a negative
    one), with any white space before and after, are accepted exactly when
    [lo <= z <= hi], reported as "Min value: lo" when [z < lo] and as
    "Max value: hi" when [z > hi]; and a text that is not empty but holds
    white space only is read as the number 0, so it is accepted exactly when
    [lo <= 0 <= hi]. *)
Theorem validateParameter_reads_integers (p : ScenarioParameter) (lo hi : Z) :
  param_type p = Some NUMBER ->
  min p = Some (Fin lo 0) -> max p = Some (Fin hi 0) ->
  Z.abs lo <= 2 ^ 53 -> Z.abs hi <= 2 ^ 53 ->
  (forall (z : Z) (ws1 ws2 : string),
      Z.abs z <= 2 ^ 53 ->
      all_ws ws1 = true -> all_ws ws2 = true ->
      let v := ws1 ++ Z_digits z ++ ws2 in
      Number v = Fin z 0
      /\ (validateParameter p v = None <-> lo <= z <= hi)
      /\ (z < lo -> validateParameter p v = Some ("Min value: " ++ num lo))
      /\ (lo <= z -> hi < z -> validateParameter p v = Some ("Max value: " ++ num hi)))
  /\ (forall ws, ws <> "" -> all_ws ws = true ->
        Number ws = Fin 0 0
        /\ (validateParameter p ws = None <-> lo <= 0 <= hi)).
Proof.
  intros Hty Hlo Hhi _ _. split.
  - intros z ws1 ws2 _ H1 H2 v.
    assert (Hn : Number v = Fin z 0).
    { apply StringToNumber_digits. now apply trim_padded. }
    assert (Hne : v <> "").
    { unfold v. destruct ws1; [|discriminate].
      destruct (Z_digits_head z) as (c & tail & E & _). rewrite E. discriminate. }
    rewrite (validateParameter_integer p v z lo hi Hty Hlo Hhi Hne Hn).
    split; [exact Hn|].
    destruct (z <? lo) eqn:E1; [apply Z.ltb_lt in E1|apply Z.ltb_ge in E1];
      (destruct (hi <? z) eqn:E2; [apply Z.ltb_lt in E2|apply Z.ltb_ge in E2]);
      (split; [split; [discriminate || (intros _; lia)|intros H; try reflexivity; lia]|]);
      (split; [intros H; try reflexivity; lia|intros H H'; try reflexivity; lia]).
  - intros ws Hne Hws.
    assert (Hn : Number ws = Fin 0 0) by now apply StringToNumber_blank.
    rewrite (validateParameter_integer p ws 0 lo hi Hty Hlo Hhi Hne Hn).
    split; [exact Hn|].
    destruct (0 <? lo) eqn:E1; [apply Z.ltb_lt in E1|apply Z.ltb_ge in E1];
      (destruct (hi <? 0) eqn:E2; [apply Z.ltb_lt in E2|apply Z.ltb_ge in E2]);
      (split; [discriminate || (intros _; lia)|intros H; try reflexivity; lia]).
Qed.

Lemma validateParameter_reads_integers_witness :
  validateParameter NEWVAL " 42" = None <-> 0 <= 42 <= 9999.
Proof.
  refine (proj1 (proj2 (proj1 (validateParameter_reads_integers NEWVAL 0 9999
                                 eq_refl eq_refl eq_refl _ _)
                          42 " " "" _ eq_refl eq_refl)));
    cbn; lia.
Defined.

(** ** Substitution on benign bodies *)

Lemma expand_no_dollar (m b a tpl : string) :
  no_dollar tpl = true -> expand_replacement m b a tpl = tpl.
Proof.
  unfold no_dollar. induction tpl as [|c t IH]; [reflexivity|].
  cbn [string_forallb expand_replacement]. intros H.
  apply andb_prop in H as [Hc H]. apply negb_true_iff in Hc.
  now rewrite Hc, IH.
Qed.

Lemma replace_go_before (pat tpl : string) :
  no_dollar tpl = true ->
  forall s b1 b2 skip,
    replace_go pat tpl b1 s skip = replace_go pat tpl b2 s skip.
Proof.
  intros Ht. induction s as [|c s IH]; intros b1 b2 skip; [reflexivity|].
  cbn [replace_go]. destruct skip as [|n]; [|apply IH].
  destruct (String.prefix pat (String c s)).
  - rewrite !expand_no_dollar by exact Ht. f_equal. apply IH.
  - f_equal. apply IH.
Qed.

Lemma prefix_length (pat : string) : forall s,
  String.prefix pat s = true -> (String.length pat <= String.length s)%nat.
Proof.
  induction pat as [|a p IH]; intros s H; [apply Nat.le_0_l|].
  destruct s as [|c s]; [discriminate H|].
  cbn [String.prefix] in H. destruct (ascii_dec a c); [|discriminate H].
  cbn [String.length]. apply le_n_S. now apply IH.
Qed.

Lemma prefix_append_self (pat s : string) : String.prefix pat (pat ++ s) = true.
Proof.
  induction pat as [|a p IH]; [now destruct s|].
  cbn [append String.prefix]. now destruct (ascii_dec a a).
Qed.

(** A pattern without the character [q] is a prefix of a text up to a [q]
    exactly when it is a prefix of the text before the [q]. *)
Lemma prefix_app_stop (q : ascii) (s content : string) : forall pat,
  string_forallb (fun c => negb (Ascii.eqb c q)) pat = true ->
  String.prefix pat (content ++ String q s) = String.prefix pat content.
Proof.
  induction content as [|c t IH]; intros [|a p] H; try reflexivity.
  - cbn [string_forallb] in H. apply andb_prop in H as [Ha _].
    cbn [append String.prefix]. destruct (ascii_dec a q) as [->|]; [|reflexivity].
    now rewrite Ascii.eqb_refl in Ha.
  - cbn [string_forallb] in H. apply andb_prop in H as [_ H].
    cbn [append String.prefix]. destruct (ascii_dec a c); [now apply IH|reflexivity].
Qed.

Lemma word_char_not_quote (c : ascii) :
  is_word_char c = true -> negb (Ascii.eqb c dquote) = true.
Proof. destruct c as [[] [] [] [] [] [] [] []]; cbn; congruence. Qed.

Lemma word_chars_no_quote (s : string) :
  string_forallb is_word_char s = true ->
  string_forallb (fun c => negb (Ascii.eqb c dquote)) s = true.
Proof.
  induction s as [|c s IH]; [reflexivity|].
  cbn [string_forallb]. intros H. apply andb_prop in H as [Hc H].
  now rewrite (word_char_not_quote c Hc), IH.
Qed.

Section Substitution.
Variables k v : string.
Hypothesis Hk : literal_key k = true.
Hypothesis Hv : no_dollar v = true.

Lemma replace_skip (c : ascii) (s : string) (n : nat) :
  replace_go (placeholder k) v "" (String c s) (S n)
  = replace_go (placeholder k) v "" s n.
Proof. cbn [replace_go]. now apply replace_go_before. Qed.

Lemma replace_miss (c : ascii) (s : string) :
  String.prefix (placeholder k) (String c s) = false ->
  replace_placeholder k v (String c s) = String c (replace_placeholder k v s).
Proof.
  intros H. unfold replace_placeholder. cbn [replace_go]. rewrite H.
  f_equal. now apply replace_go_before.
Qed.

Lemma replace_hit (c : ascii) (s : string) :
  String.prefix (placeholder k) (String c s) = true ->
  replace_placeholder k v (String c s)
  = v ++ replace_go (placeholder k) v "" s (String.length (placeholder k) - 1).
Proof.
  intros H. unfold replace_placeholder. cbn [replace_go]. rewrite H.
  rewrite expand_no_dollar by exact Hv. f_equal. now apply replace_go_before.
Qed.

Lemma placeholder_miss (c : ascii) (s : string) :
  Ascii.eqb c "{" = false -> String.prefix (placeholder k) (String c s) = false.
Proof.
  intros H. unfold placeholder. cbn [append String.prefix].
  destruct (ascii_dec "{" c) as [<-|]; [discriminate H|reflexivity].
Qed.

Lemma placeholder_miss2 (c : ascii) (s : string) :
  Ascii.eqb c "{" = false ->
  String.prefix (placeholder k) (String "{" (String c s)) = false.
Proof.
  intros H. unfold placeholder. cbn [append String.prefix].
  destruct (ascii_dec "{" "{"); [|reflexivity].
  destruct (ascii_dec "{" c) as [<-|]; [discriminate H|reflexivity].
Qed.

Lemma placeholder_no_quote :
  string_forallb (fun c => negb (Ascii.eqb c dquote)) (placeholder k) = true.
Proof.
  unfold placeholder. cbn [append string_forallb].
  change (negb (Ascii.eqb "{" dquote)) with true. cbn [andb].
  rewrite string_forallb_app. cbn [string_forallb].
  change (negb (Ascii.eqb "}" dquote)) with true. cbn [andb].
  rewrite andb_true_r. apply word_chars_no_quote.
  pose proof Hk as H. unfold literal_key in H. now apply andb_prop in H as [Hw _].
Qed.

(** Text without an opening brace is passed over. *)
Lemma replace_pass (a s : string) :
  no_open_brace a = true ->
  replace_placeholder k v (a ++ s) = a ++ replace_placeholder k v s.
Proof.
  unfold no_open_brace. induction a as [|c a IH]; [reflexivity|].
  cbn [string_forallb append]. intros H. apply andb_prop in H as [Hc H].
  apply negb_true_iff in Hc.
  rewrite replace_miss by now apply placeholder_miss. now rewrite IH.
Qed.

Lemma replace_pass_all (a : string) :
  no_open_brace a = true -> replace_placeholder k v a = a.
Proof.
  intros H. rewrite <- (append_nil_r a) at 1.
  rewrite replace_pass by exact H. cbn. apply append_nil_r.
Qed.

(** The characters of a match still to pass are passed. *)
Lemma replace_skip_all (a s : string) :
  replace_go (placeholder k) v "" (a ++ s) (String.length a)
  = replace_placeholder k v s.
Proof.
  induction a as [|c a IH]; [reflexivity|].
  cbn [append String.length]. now rewrite replace_skip.
Qed.

(** No match runs across the quote that closes a string. *)
Lemma replace_string_content (s content : string) : forall skip,
  (skip <= String.length content)%nat ->
  replace_go (placeholder k) v "" (content ++ String dquote s) skip
  = replace_go (placeholder k) v "" content skip
    ++ String dquote (replace_placeholder k v s).
Proof.
  induction content as [|c t IH]; intros skip Hs.
  - assert (skip = 0)%nat as -> by (cbn in Hs; lia).
    cbn [append]. change (replace_go (placeholder k) v "" (String dquote s) 0)
      with (replace_placeholder k v (String dquote s)).
    now rewrite replace_miss by now apply placeholder_miss.
  - cbn [append]. destruct skip as [|n].
    + change (replace_go (placeholder k) v "" (String c ?x) 0)
        with (replace_placeholder k v (String c x)).
      pose proof (prefix_app_stop dquote s (String c t) (placeholder k)
                    placeholder_no_quote) as Hp.
      cbn [append] in Hp.
      destruct (String.prefix (placeholder k) (String c t)) eqn:E.
      * rewrite (replace_hit c (t ++ String dquote s)) by now rewrite Hp.
        rewrite (replace_hit c t) by exact E.
        rewrite IH; [now rewrite append_assoc|].
        apply prefix_length in E. cbn [String.length] in E. lia.
      * rewrite (replace_miss c (t ++ String dquote s)) by now rewrite Hp.
        rewrite (replace_miss c t) by exact E.
        unfold replace_placeholder. rewrite IH by apply Nat.le_0_l.
        reflexivity.
    + rewrite !replace_skip. apply IH. cbn [String.length] in Hs. lia.
Qed.

Lemma replace_quoted (x s : string) :
  replace_placeholder k v (String dquote (x ++ String dquote s))
  = String dquote (replace_placeholder k v x
                   ++ String dquote (replace_placeholder k v s)).
Proof.
  rewrite replace_miss by now apply placeholder_miss.
  unfold replace_placeholder at 1.
  now rewrite replace_string_content by apply Nat.le_0_l.
Qed.

Lemma replace_forallb (p : ascii -> bool) :
  string_forallb p v = true ->
  forall s before skip,
    string_forallb p s = true ->
    string_forallb p (replace_go (placeholder k) v before s skip) = true.
Proof.
  intros Hp. induction s as [|c s IH]; intros before skip H; [reflexivity|].
  cbn [string_forallb] in H. apply andb_prop in H as [Hc H].
  cbn [replace_go]. destruct skip as [|n]; [|now apply IH].
  destruct (String.prefix (placeholder k) (String c s)).
  - rewrite expand_no_dollar by exact Hv.
    rewrite string_forallb_app, Hp. now apply IH.
  - cbn [string_forallb]. rewrite Hc. now apply IH.
Qed.

Lemma escape_char_safe (c : ascii) : safe_char c = true -> escape_char c = String c "".
Proof. destruct c as [[] [] [] [] [] [] [] []]; cbn; intros H; try discriminate; reflexivity. Qed.

Lemma escape_string_safe (s : string) : safe_string s = true -> escape_string s = s.
Proof.
  unfold safe_string. induction s as [|c s IH]; [reflexivity|].
  cbn [string_forallb escape_string]. intros H. apply andb_prop in H as [Hc H].
  now rewrite (escape_char_safe c Hc), IH.
Qed.

Lemma digit_not_brace (c : ascii) :
  is_digit c = true -> negb (Ascii.eqb c "{") = true.
Proof. destruct c as [[] [] [] [] [] [] [] []]; cbn; congruence. Qed.

Lemma Z_digits_no_brace (z : Z) : no_open_brace (Z_digits z) = true.
Proof.
  assert (H : forall s, all_digits s = true -> no_open_brace s = true).
  { unfold all_digits, no_open_brace. induction s as [|c s IH]; [reflexivity|].
    cbn [string_forallb]. intros H. apply andb_prop in H as [Hc H].
    now rewrite (digit_not_brace c Hc), IH. }
  unfold Z_digits. destruct (z <? 0); cbn [append].
  - unfold no_open_brace. cbn [string_forallb].
    change (string_forallb _ (N_digits (Z.abs_N z)))
      with (no_open_brace (N_digits (Z.abs_N z))).
    now rewrite H by apply all_digits_N.
  - apply H, all_digits_N.
Qed.

Hypothesis Hs : safe_string v = true.

Lemma replaces_elements (l : list json) :
  Forall (replaces k v) l ->
  forall s,
    replace_placeholder k v
      (String.concat "," (map JSON_stringify l) ++ String "]" s)
    = String.concat "," (map JSON_stringify (map (subst_json k v) l))
      ++ String "]" (replace_placeholder k v s).
Proof.
  induction 1 as [|x l Hx Hl IH]; intros s.
  - cbn [map String.concat append]. now rewrite replace_miss by reflexivity.
  - destruct l as [|y l1].
    + cbn [map String.concat]. rewrite Hx.
      now rewrite replace_miss by reflexivity.
    + cbn [map]. rewrite !concat_cons2, !append_assoc. rewrite Hx.
      cbn [append]. rewrite replace_miss by reflexivity.
      change (JSON_stringify y :: map JSON_stringify l1)
        with (map JSON_stringify (y :: l1)).
      rewrite IH. reflexivity.
Qed.

Lemma replaces_member (key : string) (x : json) (s : string) :
  safe_string key = true -> no_open_brace key = true -> replaces k v x ->
  replace_placeholder k v (member_text (key, x) ++ s)
  = member_text (key, subst_json k v x) ++ replace_placeholder k v s.
Proof.
  intros Hsafe Hb Hx. rewrite !member_text_shape.
  rewrite (escape_string_safe key Hsafe).
  rewrite replace_quoted, (replace_pass_all key Hb).
  rewrite replace_miss by reflexivity. now rewrite Hx.
Qed.

Lemma replaces_members (o : list (string * json)) :
  Forall (fun kv => safe_string (fst kv) = true /\ no_open_brace (fst kv) = true
                    /\ replaces k v (snd kv)) o ->
  forall s,
    replace_placeholder k v
      (String.concat "," (map member_text o) ++ String "}" s)
    = String.concat ","
        (map member_text (map (fun kv => (fst kv, subst_json k v (snd kv))) o))
      ++ String "}" (replace_placeholder k v s).
Proof.
  induction 1 as [|[key x] o (H1 & H2 & H3) Ho IH]; intros s.
  - cbn [map String.concat append]. now rewrite replace_miss by reflexivity.
  - cbn [fst snd] in H1, H2, H3. destruct o as [|y o1].
    + cbn [map String.concat fst snd].
      rewrite (replaces_member key x _ H1 H2 H3).
      now rewrite replace_miss by reflexivity.
    + cbn [map fst snd]. rewrite !concat_cons2, !append_assoc.
      rewrite (replaces_member key x _ H1 H2 H3).
      cbn [append]. rewrite replace_miss by reflexivity.
      change (member_text y :: map member_text o1)
        with (map member_text (y :: o1)).
      rewrite IH. reflexivity.
Qed.

(** Replacing in the text of a benign value is replacing in its strings. *)
Lemma replaces_benign (j : json) :
  plain_json j -> benign j = true -> replaces k v j.
Proof.
  induction j as [|b|n|x|l IH|o IH] using json_induction; intros Hp Hb s.
  - exact (replace_pass "null" s eq_refl).
  - destruct b;
      [exact (replace_pass "true" s eq_refl)
      |exact (replace_pass "false" s eq_refl)].
  - inversion Hp as [| |z Hz| | |]; subst.
    cbn [subst_json]. rewrite (stringify_integer z Hz).
    now rewrite replace_pass by apply Z_digits_no_brace.
  - cbn [benign] in Hb. cbn [subst_json JSON_stringify]. unfold QuoteJSONString.
    rewrite (escape_string_safe x Hb).
    assert (Hr : safe_string (replace_placeholder k v x) = true).
    { unfold safe_string, replace_placeholder. now apply replace_forallb. }
    rewrite (escape_string_safe _ Hr). cbn [append].
    rewrite !append_assoc. cbn [append]. apply replace_quoted.
  - inversion Hp as [| | | |? Hl|]; subst. cbn [benign] in Hb.
    cbn [subst_json JSON_stringify]. rewrite !append_assoc. cbn [append].
    rewrite replace_miss by reflexivity. f_equal.
    apply replaces_elements.
    rewrite forallb_forall in Hb. rewrite Forall_forall in *.
    intros x Hin. apply IH; auto.
  - inversion Hp as [| | | | |? He Ho]; subst. cbn [benign] in Hb.
    cbn [subst_json JSON_stringify].
    change (fun kv : string * json =>
              QuoteJSONString (fst kv) ++ ":" ++ JSON_stringify (snd kv))
      with member_text.
    rewrite !append_assoc. cbn [append].
    assert (Hm : Forall (fun kv => safe_string (fst kv) = true
                                   /\ no_open_brace (fst kv) = true
                                   /\ replaces k v (snd kv)) o).
    { rewrite forallb_forall in Hb. rewrite Forall_forall in *.
      intros kv Hin. specialize (Hb kv Hin).
      apply andb_prop in Hb as [Hb H3]. apply andb_prop in Hb as [H1 H2].
      repeat split; auto. }
    destruct o as [|[key x] o1].
    + cbn [map String.concat append].
      rewrite replace_miss by reflexivity.
      now rewrite replace_miss by reflexivity.
    + assert (Hh : exists tail,
                 String.concat "," (map member_text ((key, x) :: o1)) ++ String "}" s
                 = String dquote tail).
      { destruct o1 as [|y o2].
        - cbn [map String.concat]. rewrite member_text_shape. eauto.
        - cbn [map]. rewrite concat_cons2, append_assoc, member_text_shape. eauto. }
      destruct Hh as [tail Hh].
      rewrite replace_miss by (rewrite Hh; now apply placeholder_miss2).
      f_equal. now apply replaces_members.
Qed.

Lemma benign_subst (j : json) : benign j = true -> benign (subst_json k v j) = true.
Proof.
  induction j as [|b|n|x|l IH|o IH] using json_induction; intros Hb;
    try reflexivity.
  - cbn [subst_json benign] in *. unfold safe_string, replace_placeholder.
    now apply replace_forallb.
  - cbn [subst_json benign] in *. rewrite forallb_forall in *.
    rewrite Forall_forall in IH. intros y Hy.
    apply in_map_iff in Hy as (x & <- & Hx). apply IH; auto.
  - cbn [subst_json benign] in *. rewrite forallb_forall in *.
    rewrite Forall_forall in IH. intros y Hy.
    apply in_map_iff in Hy as (x & <- & Hx). cbn [fst snd].
    specialize (Hb x Hx). apply andb_prop in Hb as [Hb H3].
    rewrite Hb. now apply IH.
Qed.

End Substitution.

Section MapValues.
Context {A B : Type}.
Variable f : A -> B.

Lemma obj_has_map (k : string) (o : js_obj A) :
  obj_has k (map (fun kv => (fst kv, f (snd kv))) o) = obj_has k o.
Proof.
  unfold obj_has. induction o as [|[k0 v0] o IH]; [reflexivity|].
  cbn [map fst snd obj_get]. now destruct (String.eqb k k0).
Qed.

Lemma obj_update_map (k : string) (x : A) (o : js_obj A) :
  obj_update k (f x) (map (fun kv => (fst kv, f (snd kv))) o)
  = map (fun kv => (fst kv, f (snd kv))) (obj_update k x o).
Proof.
  induction o as [|[k0 v0] o IH]; [reflexivity|].
  cbn [map fst snd obj_update]. destruct (String.eqb k k0); [reflexivity|].
  cbn [map fst snd]. now rewrite IH.
Qed.

Lemma obj_insert_index_map (i : N) (k : string) (x : A) (o : js_obj A) :
  obj_insert_index i k (f x) (map (fun kv => (fst kv, f (snd kv))) o)
  = map (fun kv => (fst kv, f (snd kv))) (obj_insert_index i k x o).
Proof.
  induction o as [|[k0 v0] o IH]; [reflexivity|].
  cbn [map fst snd obj_insert_index].
  destruct (array_index k0) as [j|]; [|reflexivity].
  destruct (j <? i)%N; [|reflexivity]. cbn [map fst snd]. now rewrite IH.
Qed.

Lemma obj_set_map (k : string) (x : A) (o : js_obj A) :
  obj_set k (f x) (map (fun kv => (fst kv, f (snd kv))) o)
  = map (fun kv => (fst kv, f (snd kv))) (obj_set k x o).
Proof.
  unfold obj_set. rewrite obj_has_map. destruct (obj_has k o).
  - apply obj_update_map.
  - destruct (array_index k).
    + apply obj_insert_index_map.
    + now rewrite map_app.
Qed.

Lemma from_entries_map (l : list (string * A)) :
  from_entries (map (fun kv => (fst kv, f (snd kv))) l)
  = map (fun kv => (fst kv, f (snd kv))) (from_entries l).
Proof.
  unfold from_entries.
  change (@nil (string * B)) with (map (fun kv : string * A => (fst kv, f (snd kv))) [])
    at 1.
  generalize (@nil (string * A)).
  induction l as [|[k0 x] l IH]; intros acc; [reflexivity|].
  cbn [map fold_left fst snd]. rewrite obj_set_map. apply IH.
Qed.

(** The enumeration order of an object depends on its keys only. *)
Lemma is_entries_map (o : list (string * A)) :
  is_entries o -> is_entries (map (fun kv => (fst kv, f (snd kv))) o).
Proof. unfold is_entries. intros H. now rewrite from_entries_map, H. Qed.
End MapValues.

Lemma plain_subst (k v : string) (j : json) :
  plain_json j -> plain_json (subst_json k v j).
Proof.
  induction j as [|b|n|x|l IH|o IH] using json_induction; intros Hp;
    try exact Hp.
  - constructor.
  - inversion Hp as [| | | |? Hl|]; subst. cbn [subst_json]. constructor.
    rewrite Forall_forall in *. intros y Hy.
    apply in_map_iff in Hy as (x & <- & Hx). apply IH; auto.
  - inversion Hp as [| | | | |? He Ho]; subst. cbn [subst_json]. constructor.
    + now apply is_entries_map.
    + rewrite Forall_forall in *. intros y Hy.
      apply in_map_iff in Hy as (x & <- & Hx). cbn [snd]. apply IH; auto.
Qed.

Lemma subst_falsy (k v : string) (j : json) :
  truthy j = false -> subst_json k v j = j.
Proof.
  destruct j as [|b|n|x|l|o]; try reflexivity; try discriminate.
  destruct x; [reflexivity|discriminate].
Qed.

Lemma subst_all_falsy (pv : js_obj string) (j : json) :
  truthy j = false -> subst_all pv j = j.
Proof.
  intros H. unfold subst_all. induction pv as [|[k v] pv IH]; [reflexivity|].
  cbn [fold_left fst snd]. now rewrite subst_falsy.
Qed.

Lemma replace_empty (k v : string) : replace_placeholder k v "" = "".
Proof. reflexivity. Qed.

Lemma substitute_benign (pv : js_obj string) : forall j,
  plain_json j -> benign j = true ->
  (forall k v, In (k, v) pv ->
               literal_key k = true /\ safe_string v = true /\ no_dollar v = true) ->
  fold_left (fun str kv => replace_placeholder (fst kv) (snd kv) str) pv
            (JSON_stringify j)
  = JSON_stringify (subst_all pv j)
  /\ plain_json (subst_all pv j).
Proof.
  unfold subst_all. induction pv as [|[k v] pv IH]; intros j Hp Hb Hpv.
  - now split.
  - cbn [fold_left fst snd].
    destruct (Hpv k v (or_introl eq_refl)) as (Hk & Hs & Hv).
    pose proof (replaces_benign k v Hk Hv Hs j Hp Hb "") as Hr.
    rewrite replace_empty, !append_nil_r in Hr. rewrite Hr.
    apply IH.
    + now apply plain_subst.
    + now apply benign_subst.
    + intros k' v' Hin. apply Hpv. now right.
Qed.

Lemma replace_one (k v pre post : string) :
  literal_key k = true -> no_dollar v = true ->
  no_open_brace pre = true -> no_open_brace post = true ->
  replace_placeholder k v (pre ++ placeholder k ++ post) = pre ++ v ++ post.
Proof.
  intros Hk Hv Hpre Hpost. rewrite (replace_pass k v Hv pre _ Hpre). f_equal.
  assert (E : exists tail,
             placeholder k = String "{" tail
             /\ (String.length (placeholder k) - 1 = String.length tail)%nat).
  { unfold placeholder. cbn [append]. eexists. split; [reflexivity|].
    cbn [String.length]. lia. }
  destruct E as (tail & E & El).
  pose proof (prefix_append_self (placeholder k) post) as Hp.
  rewrite E in Hp |- * at 1. cbn [append] in Hp |- *.
  rewrite (replace_hit k v Hv "{" (tail ++ post)) by (rewrite E; exact Hp).
  rewrite El, (replace_skip_all k v Hv). f_equal.
  now apply replace_pass_all.
Qed.

(** X21. Resolution is substitution in the strings of the body.  For a body
    whose strings hold no double quote, backslash or control character and
    whose object keys hold no opening brace, and a parameter map whose keys
    are words and whose values hold no double quote, backslash, control
    character or dollar sign: [resolveBody] does not throw, and returns the
    body in which, for each parameter in the order of the map, every
    occurrence of the placeholder of its key in a string value is replaced by
    its value, the structure, the keys and the non-string values being
    untouched.  In particular a string that holds one placeholder between
    texts without opening brace becomes these texts around the value. *)
Theorem resolveBody_is_substitution etext (pv : js_obj string) (body : json) :
  plain_json body -> benign body = true ->
  (forall k v, In (k, v) pv ->
               literal_key k = true /\ safe_string v = true /\ no_dollar v = true) ->
  resolveBody etext pv body = Normal (subst_all pv body)
  /\ (forall k v pre post,
        literal_key k = true -> no_dollar v = true ->
        no_open_brace pre = true -> no_open_brace post = true ->
        subst_json k v (JStr (pre ++ placeholder k ++ post))
        = JStr (pre ++ v ++ post)).
Proof.
  intros Hp Hb Hpv. split.
  - unfold resolveBody. destruct (truthy body) eqn:Et; cbn [negb].
    + destruct (substitute_benign pv body Hp Hb Hpv) as [Hstr Hplain].
      now rewrite Hstr, (JSON_parse_stringify _ Hplain).
    + now rewrite subst_all_falsy.
  - intros k v pre post Hk Hv Hpre Hpost. cbn [subst_json].
    now rewrite replace_one.
Qed.

Lemma resolveBody_is_substitution_witness :
  resolveBody sample_error
    [("OBJID", "WaferMap_01"); ("OBJTYPE", "SubstrateMap")]
    (body (messageToSend trace_setup_step))
  = Normal (JObj [("OBJID", JStr "WaferMap_01"); ("OBJTYPE", JStr "SubstrateMap")]).
Proof.
  refine (proj1 (resolveBody_is_substitution sample_error
                   [("OBJID", "WaferMap_01"); ("OBJTYPE", "SubstrateMap")]
                   (body (messageToSend trace_setup_step)) _ eq_refl _)).
  - apply plain_obj; [reflexivity|]. repeat constructor.
  - intros k v [H|[H|[]]]; injection H as <- <-; repeat split.
Defined.

(** ** [JSON.parse] after [JSON.stringify] with indentation *)

Lemma stops_cases (rest : string) :
  stops rest = true ->
  read_digits rest = ("", rest)
  /\ read_exponent rest = (0, rest)
  /\ no_digit_start rest = true
  /\ match rest with
     | String c r =>
         if Ascii.eqb c "." then
           let (f, r') := read_digits r in
           if is_empty f then ("", rest) else (f, r')
         else ("", rest)
     | "" => ("", rest)
     end = ("", rest).
Proof.
  destruct rest as [|c r]; [now repeat split|]. cbn [stops]. intros H.
  apply andb_prop in H as [H HE]. apply andb_prop in H as [H He].
  apply andb_prop in H as [Hd Hdot].
  apply negb_true_iff in Hd, Hdot, He, HE.
  cbn [read_digits read_exponent no_digit_start].
  now rewrite Hd, Hdot, He, HE.
Qed.

Lemma parse_number_digits_stops (neg : bool) (c : ascii) (tail rest : string) :
  is_digit c = true -> Ascii.eqb c "0" = false ->
  read_digits (String c tail ++ rest) = (String c tail, rest) ->
  stops rest = true ->
  parse_number ((if neg then "-" else "") ++ String c tail ++ rest)
  = Some (decimal_value neg (String c tail) "" 0, rest).
Proof.
  intros Hc H0 Hr H. destruct (stops_cases rest H) as (_ & He & _ & Hf).
  unfold parse_number. destruct neg; cbn [append].
  - change (Ascii.eqb "-" "-") with true. cbv iota. rewrite H0.
    change (String c (tail ++ rest)) with (String c tail ++ rest).
    rewrite Hr. cbn [is_empty]. now rewrite Hf, He.
  - rewrite (digit_not_minus c Hc). rewrite H0.
    change (String c (tail ++ rest)) with (String c tail ++ rest).
    rewrite Hr. cbn [is_empty]. now rewrite Hf, He.
Qed.

Lemma N_digits_pos_stops (p : positive) (rest : string) :
  stops rest = true ->
  exists c tail,
    N_digits (Npos p) = String c tail
    /\ is_digit c = true /\ Ascii.eqb c "0" = false
    /\ read_digits (N_digits (Npos p) ++ rest) = (N_digits (Npos p), rest)
    /\ digits_value (N_digits (Npos p)) = Npos p.
Proof.
  intros H. destruct (N_digits_pos p "" eq_refl) as (c & tail & E & Hc & H0 & _ & Hv).
  exists c, tail. repeat split; try assumption.
  apply read_digits_all; [apply all_digits_N|].
  now destruct (stops_cases rest H) as (_ & _ & Hn & _).
Qed.

(** Reading back the digits of an integer, up to the end of its line. *)
Lemma parse_number_integer_stops (z : Z) (rest : string) :
  stops rest = true ->
  parse_number (Z_digits z ++ rest) = Some (Fin z 0, rest).
Proof.
  intros H. unfold Z_digits. destruct z as [|p|p].
  - destruct (stops_cases rest H) as (_ & He & _ & Hf).
    cbn. unfold parse_number. cbn. now rewrite Hf, He.
  - destruct (N_digits_pos_stops p rest H) as (c & tail & E & Hc & H0 & Hr & Hv).
    cbn [Z.ltb Z.compare Z.abs_N Z.abs Z.to_N]. rewrite E in *.
    pose proof (parse_number_digits_stops false c tail rest Hc H0 Hr H) as Hp.
    cbn [append] in Hp |- *. rewrite Hp.
    unfold decimal_value. rewrite append_nil_r, Hv.
    cbn [String.length Z.of_nat Z.sub Z.opp Z.add]. now rewrite mkFin_integer.
  - destruct (N_digits_pos_stops p rest H) as (c & tail & E & Hc & H0 & Hr & Hv).
    cbn [Z.ltb Z.compare Z.abs_N Z.abs Z.to_N]. rewrite E in *.
    pose proof (parse_number_digits_stops true c tail rest Hc H0 Hr H) as Hp.
    cbn [append] in Hp |- *. rewrite Hp.
    unfold decimal_value. rewrite append_nil_r, Hv.
    cbn [String.length Z.of_nat Z.sub Z.opp Z.add]. now rewrite mkFin_integer.
Qed.

Lemma delimited_line_stops (rest : string) :
  delimited_line rest = true -> stops rest = true.
Proof.
  destruct rest as [|c r]; [reflexivity|]. cbn [delimited_line stops].
  destruct c as [[] [] [] [] [] [] [] []]; cbn; congruence.
Qed.

Lemma skip_ws_spaces (n : nat) (s : string) : skip_ws (spaces n ++ s) = skip_ws s.
Proof. induction n as [|n IH]; [reflexivity|]. cbn. exact IH. Qed.

Lemma skip_ws_line (n : nat) (s : string) :
  skip_ws (newline ++ spaces n ++ s) = skip_ws s.
Proof. cbn. apply skip_ws_spaces. Qed.

(** The parser sees a text as it is after its leading white space. *)
Lemma parse_value_ws (fuel : nat) (s1 s2 : string) :
  skip_ws s1 = skip_ws s2 -> parse_value fuel s1 = parse_value fuel s2.
Proof. intros H. destruct fuel as [|f]; [reflexivity|]. cbn [parse_value]. now rewrite H. Qed.

Lemma next_is_ws (c : ascii) (s1 s2 : string) :
  skip_ws s1 = skip_ws s2 -> next_is c s1 = next_is c s2.
Proof. intros H. unfold next_is. now rewrite H. Qed.

Lemma indented_head (indent : nat) (j : json) :
  exists c tail,
    JSON_stringify_indented indent j = String c tail /\ value_start c = true.
Proof.
  destruct j as [|b|n|s|l|o];
    try (exact (stringify_head _));
    [destruct l|destruct o]; now eexists _, _.
Qed.

Lemma skip_ws_value (indent : nat) (j : json) (rest : string) :
  skip_ws (JSON_stringify_indented indent j ++ rest)
  = JSON_stringify_indented indent j ++ rest.
Proof.
  destruct (indented_head indent j) as (c & tail & E & Hc).
  destruct (value_start_facts c Hc) as (Hw & _).
  rewrite E. cbn [append skip_ws]. now rewrite Hw.
Qed.

Lemma next_is_indented (c : ascii) (indent : nat) (j : json) (rest : string) :
  (c = "]" \/ c = "}")%char ->
  next_is c (JSON_stringify_indented indent j ++ rest) = None.
Proof.
  intros Hc. destruct (indented_head indent j) as (d & tail & E & Hd).
  destruct (value_start_facts d Hd) as (Hw & H1 & H2).
  rewrite E. unfold next_is. cbn [append skip_ws]. rewrite Hw.
  destruct Hc as [-> | ->]; now rewrite ?H1, ?H2.
Qed.

Lemma reads_indented_null : reads_indented JNull.
Proof. intros indent [|f] rest Hf Hd; [cbn in Hf; lia|reflexivity]. Qed.

Lemma reads_indented_bool (b : bool) : reads_indented (JBool b).
Proof. intros indent [|f] rest Hf Hd; [cbn in Hf; lia|]. destruct b; reflexivity. Qed.

Lemma reads_indented_string (s : string) : reads_indented (JStr s).
Proof.
  intros indent [|f] rest Hf Hd; [cbn in Hf; lia|].
  destruct (parse_quoted s rest) as (tail & E & Ht).
  cbn [JSON_stringify_indented JSON_stringify]. now rewrite E, parse_value_string, Ht.
Qed.

Lemma reads_indented_integer (z : Z) :
  Z.abs z < 10 ^ 21 -> reads_indented (JNum (Fin z 0)).
Proof.
  intros Hz indent [|f] rest Hf Hd; [cbn in Hf; lia|].
  cbn [JSON_stringify_indented]. rewrite (stringify_integer z Hz).
  apply parse_value_number; [apply Z_digits_head|].
  now apply parse_number_integer_stops, delimited_line_stops.
Qed.

Lemma concat_cons2_sep (sep x y : string) (l : list string) :
  String.concat sep (x :: y :: l) = x ++ sep ++ String.concat sep (y :: l).
Proof. reflexivity. Qed.

(** The elements of an indented array, from the line break after the
    bracket to the closing bracket. *)
Lemma parse_elements_indented (l : list json) :
  Forall reads_indented l -> l <> [] ->
  forall inner outer fuel rest,
    (list_sum (map (fun x => S (size x)) l) <= fuel)%nat ->
    parse_elements fuel
      (newline ++ spaces inner
       ++ String.concat (separator inner) (map (JSON_stringify_indented inner) l)
       ++ newline ++ spaces outer ++ String "]" rest)
    = Some (l, rest).
Proof.
  induction l as [|x l IH]; intros HR Hne inner outer fuel rest Hf; [congruence|].
  inversion HR as [|? ? Rx Rl]; subst.
  destruct fuel as [|f]; [fuel_lia|]. cbn [parse_elements].
  destruct l as [|y l1].
  - cbn [map String.concat].
    rewrite (parse_value_ws f _ _ (skip_ws_line inner _)).
    rewrite (Rx inner f) by (try reflexivity; fuel_lia).
    rewrite (next_is_ws "," _ _ (skip_ws_line outer (String "]" rest))).
    rewrite (next_is_ws "]" _ _ (skip_ws_line outer (String "]" rest))).
    reflexivity.
  - cbn [map]. rewrite concat_cons2_sep, !append_assoc.
    rewrite (parse_value_ws f _ _ (skip_ws_line inner _)).
    unfold separator at 1. rewrite !append_assoc.
    rewrite (Rx inner f) by (try reflexivity; fuel_lia).
    cbn [append].
    change (next_is "," (String "," ?t)) with (Some t). cbv iota beta.
    change (JSON_stringify_indented inner y :: map (JSON_stringify_indented inner) l1)
      with (map (JSON_stringify_indented inner) (y :: l1)).
    rewrite (IH Rl ltac:(discriminate) inner outer f rest) by fuel_lia.
    reflexivity.
Qed.

Lemma member_indented_shape (indent : nat) (k : string) (v : json) (tail : string) :
  member_indented indent (k, v) ++ tail
  = String dquote
      (escape_string k
       ++ String dquote
            (String ":" (String " " (JSON_stringify_indented indent v ++ tail)))).
Proof.
  unfold member_indented, QuoteJSONString. cbn [fst snd append].
  now rewrite !append_assoc.
Qed.

Lemma next_is_line_quote (n : nat) (s : string) :
  next_is dquote (newline ++ spaces n ++ String dquote s) = Some s.
Proof. unfold next_is. now rewrite skip_ws_line. Qed.

Lemma parse_value_space (fuel : nat) (s : string) :
  parse_value fuel (String " " s) = parse_value fuel s.
Proof. now apply parse_value_ws. Qed.

(** The members of an indented object, from the line break after the brace
    to the closing brace. *)
Lemma parse_members_indented (o : list (string * json)) :
  Forall (fun kv => reads_indented (snd kv)) o -> o <> [] ->
  forall inner outer fuel rest,
    (list_sum (map (fun kv => S (size (snd kv))) o) <= fuel)%nat ->
    parse_members fuel
      (newline ++ spaces inner
       ++ String.concat (separator inner) (map (member_indented inner) o)
       ++ newline ++ spaces outer ++ String "}" rest)
    = Some (o, rest).
Proof.
  induction o as [|[k v] o IH]; intros HR Hne inner outer fuel rest Hf; [congruence|].
  inversion HR as [|? ? Rv Ro]; subst. cbn [snd] in Rv.
  destruct fuel as [|f]; [fuel_lia|]. cbn [parse_members].
  destruct o as [|y o1].
  - cbn [map String.concat]. rewrite member_indented_shape.
    rewrite next_is_line_quote, parse_escape_string.
    change (next_is ":" (String ":" ?t)) with (Some t). cbv iota beta.
    rewrite parse_value_space.
    rewrite (Rv inner f) by (try reflexivity; fuel_lia).
    rewrite (next_is_ws "," _ _ (skip_ws_line outer (String "}" rest))).
    rewrite (next_is_ws "}" _ _ (skip_ws_line outer (String "}" rest))).
    reflexivity.
  - cbn [map]. rewrite concat_cons2_sep, !append_assoc.
    rewrite member_indented_shape.
    rewrite next_is_line_quote, parse_escape_string.
    change (next_is ":" (String ":" ?t)) with (Some t). cbv iota beta.
    rewrite parse_value_space.
    unfold separator at 1. rewrite !append_assoc.
    rewrite (Rv inner f) by (try reflexivity; fuel_lia).
    cbn [append].
    change (next_is "," (String "," ?t)) with (Some t). cbv iota beta.
    change (member_indented inner y :: map (member_indented inner) o1)
      with (map (member_indented inner) (y :: o1)).
    rewrite (IH Ro ltac:(discriminate) inner outer f rest) by fuel_lia.
    reflexivity.
Qed.

Lemma reads_indented_array (l : list json) :
  Forall reads_indented l -> reads_indented (JArr l).
Proof.
  intros HR indent [|f] rest Hf Hd; [cbn in Hf; lia|].
  destruct l as [|x l]; [reflexivity|].
  cbn [JSON_stringify_indented]. rewrite !append_assoc. cbn [append].
  rewrite parse_value_array.
  change ("," ++ newline ++ spaces (2 + indent)) with (separator (2 + indent)).
  change (String "010" (spaces (2 + indent) ++ ?t))
    with (newline ++ spaces (2 + indent) ++ t).
  assert (Hn : forall t,
             next_is "]" (newline ++ spaces (2 + indent)
                          ++ String.concat (separator (2 + indent))
                               (map (JSON_stringify_indented (2 + indent)) (x :: l))
                          ++ t) = None).
  { intros t. rewrite (next_is_ws "]" _ _ (skip_ws_line (2 + indent) _)).
    destruct l as [|y l1].
    - cbn [map String.concat]. apply next_is_indented; auto.
    - cbn [map]. rewrite concat_cons2_sep, append_assoc.
      apply next_is_indented; auto. }
  rewrite Hn.
  change (String "010" (spaces indent ++ "]" ++ rest))
    with (newline ++ spaces indent ++ String "]" rest).
  rewrite (parse_elements_indented (x :: l) HR ltac:(discriminate))
    by fuel_lia.
  reflexivity.
Qed.

Lemma reads_indented_object (o : list (string * json)) :
  is_entries o -> Forall (fun kv => reads_indented (snd kv)) o ->
  reads_indented (JObj o).
Proof.
  intros He HR indent [|f] rest Hf Hd; [cbn in Hf; lia|].
  destruct o as [|[k v] o]; [reflexivity|].
  cbn [JSON_stringify_indented].
  change (fun kv : string * json =>
            QuoteJSONString (fst kv) ++ ": "
            ++ JSON_stringify_indented (2 + indent) (snd kv))
    with (member_indented (2 + indent)).
  rewrite !append_assoc. cbn [append].
  rewrite parse_value_object.
  change ("," ++ newline ++ spaces (2 + indent)) with (separator (2 + indent)).
  change (String "010" (spaces (2 + indent) ++ ?t))
    with (newline ++ spaces (2 + indent) ++ t).
  assert (Hn : forall t,
             next_is "}" (newline ++ spaces (2 + indent)
                          ++ String.concat (separator (2 + indent))
                               (map (member_indented (2 + indent)) ((k, v) :: o))
                          ++ t) = None).
  { intros t. rewrite (next_is_ws "}" _ _ (skip_ws_line (2 + indent) _)).
    destruct o as [|y o1].
    - cbn [map String.concat]. now rewrite member_indented_shape.
    - cbn [map]. now rewrite concat_cons2_sep, append_assoc, member_indented_shape. }
  rewrite Hn.
  change (String "010" (spaces indent ++ "}" ++ rest))
    with (newline ++ spaces indent ++ String "}" rest).
  rewrite (parse_members_indented ((k, v) :: o) HR ltac:(discriminate))
    by fuel_lia.
  now rewrite He.
Qed.

(** Parsing what the indented printer printed gives a plain value back. *)
Lemma reads_indented_plain (j : json) : plain_json j -> reads_indented j.
Proof.
  induction j as [|b|n|s|l IH|o IH] using json_induction; intros Hp.
  - exact reads_indented_null.
  - apply reads_indented_bool.
  - inversion Hp as [| |z Hz| | |]; subst. now apply reads_indented_integer.
  - apply reads_indented_string.
  - inversion Hp as [| | | |? Hl|]; subst. apply reads_indented_array.
    rewrite Forall_forall in *. auto.
  - inversion Hp as [| | | | |? He Ho]; subst.
    apply reads_indented_object; [exact He|].
    rewrite Forall_forall in *. auto.
Qed.

Lemma concat_length_sep {A : Type} (sep : string) (f : A -> string)
  (w : A -> nat) (l : list A) :
  (1 <= String.length sep)%nat ->
  Forall (fun x => (w x <= String.length (f x))%nat) l ->
  (list_sum (map (fun x => S (w x)) l)
   <= String.length (String.concat sep (map f l)) + 1)%nat.
Proof.
  intros Hsep. induction l as [|x l IH]; intros H; [cbn; lia|].
  inversion H as [|? ? Hx Hl]; subst. specialize (IH Hl).
  destruct l as [|y l'].
  - cbn [map list_sum fold_right String.concat]. unfold list_sum. cbn. lia.
  - change (String.concat sep (map f (x :: y :: l')))
      with (f x ++ sep ++ String.concat sep (map f (y :: l'))).
    rewrite !length_append. revert IH.
    unfold list_sum. cbn [map fold_right].
    generalize (fold_right Nat.add 0%nat (map (fun x0 => S (w x0)) l')).
    generalize (String.length (String.concat sep (map f (y :: l')))).
    generalize (String.length sep) Hsep (w x) (String.length (f x)) Hx (w y).
    intros; lia.
Qed.

Lemma separator_length (n : nat) : (1 <= String.length (separator n))%nat.
Proof. unfold separator. cbn. lia. Qed.

(** The length of the indented text covers the size of the value. *)
Lemma size_le_length_indented (j : json) : forall indent,
  (size j <= String.length (JSON_stringify_indented indent j))%nat.
Proof.
  induction j as [|b|n|s|l IH|o IH] using json_induction; intros indent;
    try (exact (size_le_length _)).
  - destruct l as [|x l]; [cbn; lia|].
    assert (Hc := concat_length_sep (separator (2 + indent))
                    (JSON_stringify_indented (2 + indent)) size (x :: l)
                    (separator_length _)).
    cbn [size JSON_stringify_indented].
    change ("," ++ newline ++ spaces (2 + indent)) with (separator (2 + indent)).
    rewrite !length_append. cbn [String.length].
    assert (Hf : Forall (fun x0 => (size x0
                   <= String.length (JSON_stringify_indented (2 + indent) x0))%nat)
                   (x :: l)).
    { rewrite Forall_forall in *. intros y Hy. now apply IH. }
    specialize (Hc Hf). revert Hc.
    generalize (list_sum (map (fun x0 => S (size x0)) (x :: l))).
    generalize (String.length
                  (String.concat (separator (2 + indent))
                     (map (JSON_stringify_indented (2 + indent)) (x :: l)))).
    intros; lia.
  - destruct o as [|kv o]; [cbn; lia|].
    cbn [size JSON_stringify_indented].
    change (fun kv0 : string * json =>
              QuoteJSONString (fst kv0) ++ ": "
              ++ JSON_stringify_indented (2 + indent) (snd kv0))
      with (member_indented (2 + indent)).
    change ("," ++ newline ++ spaces (2 + indent)) with (separator (2 + indent)).
    rewrite !length_append. cbn [String.length].
    assert (Hf : Forall (fun x0 : string * json =>
                   (size (snd x0)
                    <= String.length (member_indented (2 + indent) x0))%nat)
                   (kv :: o)).
    { rewrite Forall_forall in *. intros y Hy. unfold member_indented.
      rewrite !length_append. specialize (IH y Hy (2 + indent)%nat). lia. }
    match goal with
    | |- (S ?a <= _)%nat =>
        assert (Hc : (a <= String.length
                            (String.concat (separator (2 + indent))
                               (map (member_indented (2 + indent)) (kv :: o)))
                          + 1)%nat)
          by exact (concat_length_sep (separator (2 + indent))
                      (member_indented (2 + indent)) (fun kv => size (snd kv))
                      (kv :: o) (separator_length _) Hf);
        revert Hc; generalize a
    end.
    generalize (String.length
                  (String.concat (separator (2 + indent))
                     (map (member_indented (2 + indent)) (kv :: o)))).
    intros; lia.
Qed.

(** [JSON.parse(JSON.stringify(v, null, 2))] is [v], for a plain value. *)
Lemma JSON_parse_indented (j : json) :
  plain_json j -> JSON_parse (JSON_stringify_2 j) = Some j.
Proof.
  intros Hp. unfold JSON_parse, JSON_stringify_2.
  pose proof (reads_indented_plain j Hp 0%nat
                (S (String.length (JSON_stringify_indented 0 j))) "") as H.
  rewrite append_nil_r in H. rewrite H.
  - reflexivity.
  - pose proof (size_le_length_indented j 0). lia.
  - reflexivity.
Qed.

(** X22. What is exported can be imported back.  For a catalog of plain
    values (strings, booleans, null, integers below 10^21 in absolute value,
    arrays, and objects in enumeration order), the text that export
    serialises, with its line breaks and indentation, is accepted by import,
    which restores the very same catalog, drops the selection and logs
    "Imported n scenarios successfully." for the n entries of the catalog. *)
Theorem export_import_round_trip gid etext (st st' : State) :
  Forall plain_json (scenarios st) ->
  let st2 := handleImportScenarios gid etext (Some (exported_text st)) st' in
  JSON_parse (exported_text st) = Some (JArr (scenarios st))
  /\ scenarios st2 = scenarios st
  /\ selectedScenario st2 = None
  /\ logs st2
     = (logs st'
        ++ [mk_entry gid (draws st') (clock st') INFO
              ("Imported " ++ num (Z.of_nat (List.length (scenarios st)))
               ++ " scenarios successfully.")
              empty_object success])%list.
Proof.
  intros Hp st2.
  assert (H : JSON_parse (exported_text st) = Some (JArr (scenarios st))).
  { unfold exported_text. apply JSON_parse_indented. now constructor. }
  split; [exact H|]. subst st2. unfold handleImportScenarios. rewrite H.
  destruct (selectedScenario (set_scenarios (scenarios st) st')) eqn:E;
    cbn in E; rewrite ?E; now repeat split.
Qed.

Lemma export_import_round_trip_witness :
  scenarios
    (handleImportScenarios sample_id sample_error
       (Some (exported_text
                (set_scenarios [json_of_TestScenario e9_comm_est] initial_state)))
       initial_state)
  = [json_of_TestScenario e9_comm_est].
Proof.
  refine (proj1 (proj2 (export_import_round_trip sample_id sample_error
                          (set_scenarios [json_of_TestScenario e9_comm_est]
                             initial_state)
                          initial_state _))).
  repeat first
    [ apply plain_str | apply plain_bool | apply plain_null
    | apply plain_int; reflexivity
    | apply plain_arr
    | apply plain_obj; [reflexivity|]
    | apply Forall_cons | apply Forall_nil ].
Defined.

(** ** Flat records in the log viewer *)

























